(** * The LADM property-tax seeders, [seeder.py] and [seeder_rc.py]

    Both scripts open one PostgreSQL connection, switch autocommit off and
    run nine generation phases inside a single transaction.  Each phase
    draws values from Python's [random] module and from Faker and sends
    single-row statements through one psycopg2 cursor.

    The embedding is shallow.  The three libraries are outside the
    repository, so their behaviour is supplied by an environment [env]:
    the values the random generator yields call after call, the texts and
    dates Faker yields call after call, and the reply of the database to
    every statement, to the commit and to the rollback.  The scripts are
    deterministic once the environment is fixed, and every theorem below
    quantifies over all environments.

    A run is a computation in a state-and-exception monad.  The state
    holds the positions reached in the three streams, the result set held
    by the cursor, and the trace of observable events (lines printed,
    statements the database accepted together with its reply, commit,
    rollback, close). *)

From Stdlib Require Import ZArith NArith Arith List String Ascii Bool Lia.
From Stdlib Require Import DecimalString Permutation.
Import ListNotations.

Local Open Scope string_scope.
Local Open Scope list_scope.

(** ** Python values *)

(** Exceptions.  The scripts never tell exception classes apart (one
    [except Exception] clause), so the database and Faker errors are only
    distinguished by a code chosen by the environment. *)
Inductive exn : Type :=
| IndexError
| TypeError
| ValueError
| OverflowError
| DbError (code : nat)
| FakerError (code : nat).

(** Floating-point numbers are kept symbolic: a literal of the source, a
    draw of [random.random()], which is [k / 2^53] for an integer
    [0 <= k < 2^53], or an arithmetic operation on floats.  No rounding
    behaviour is assumed anywhere. *)
Inductive pyfloat : Type :=
| FLit (text : string)
| FRandom (k : N)
| FAdd (a b : pyfloat)
| FSub (a b : pyfloat)
| FMul (a b : pyfloat).

(** [datetime.date] objects are proleptic Gregorian ordinals, as
    [date.toordinal] gives them. *)
#[warnings="-register-all"]
Inductive value : Type :=
| VNone
| VBool (b : bool)
| VInt (z : Z)
| VFloat (f : pyfloat)
| VStr (s : string)
| VDate (ordinal : Z)
| VTuple (items : list value).

Definition row : Type := list value.

(** A piece of text built by an f-string: literal text and the [str()] of
    a float. *)
Inductive frag : Type :=
| Lit (s : string)
| Flt (f : pyfloat).

Definition text : Type := list frag.

(** ** Events, environment, state *)

Inductive event : Type :=
| EvConnect
| EvPrint (line : string)
| EvExecute (query : text) (params : list value) (result : list row)
| EvCommit
| EvRollback
| EvCursorClose
| EvConnClose.

Record env : Type := mkEnv {
  (* integer yielded by the n-th call into the [random] generator *)
  rand : nat -> N;
  (* text yielded by the n-th call into Faker, when it asks for a text *)
  fake_text : nat -> string;
  (* n-th call into Faker, when it is [date_between start_date end_date] *)
  fake_date : nat -> value -> value -> exn + Z;
  (* psycopg2.connect: [Some e] raises [e] *)
  db_connect : option exn;
  (* reply to the n-th [cur.execute query params]: raise, or a result set *)
  db_execute : nat -> text -> list value -> exn + list row;
  (* conn.commit() and conn.rollback(): [Some e] raises [e] *)
  db_commit : option exn;
  db_rollback : option exn
}.

Record state : Type := mkState {
  rng_ix : nat;
  fk_ix : nat;
  db_ix : nat;
  cur_rows : list row;
  trace : list event
}.

Definition initial : state := mkState 0 0 0 [] [].

Inductive outcome (A : Type) : Type :=
| Ok (a : A) (s : state)
| Raise (e : exn) (s : state).
Arguments Ok {A} a s.
Arguments Raise {A} e s.

Definition final {A} (o : outcome A) : state :=
  match o with Ok _ s => s | Raise _ s => s end.

Definition M (A : Type) : Type := state -> outcome A.

Definition ret {A} (a : A) : M A := fun s => Ok a s.

Definition raise {A} (e : exn) : M A := fun s => Raise e s.

Definition bind {A B} (m : M A) (k : A -> M B) : M B :=
  fun s => match m s with
           | Ok a s1 => k a s1
           | Raise e s1 => Raise e s1
           end.

Declare Scope py_scope.
Delimit Scope py_scope with py.
Notation "x <- m ;; k" := (bind m (fun x => k))
  (at level 100, m at next level, right associativity) : py_scope.
Notation "' pat <- m ;; k" := (bind m (fun x => match x with pat => k end))
  (at level 100, pat pattern, m at next level, right associativity) : py_scope.
Notation "m ;; k" := (bind m (fun _ => k))
  (at level 100, right associativity) : py_scope.
Local Open Scope py_scope.

(** [try: m  except Exception as e: h e] *)
Definition try_except {A} (m : M A) (h : exn -> M A) : M A :=
  fun s => match m s with
           | Ok a s1 => Ok a s1
           | Raise e s1 => h e s1
           end.

(** [try: m  finally: f]: [f] always runs; an exception of [f] replaces
    whatever [m] produced. *)
Definition try_finally {A} (m : M A) (f : M unit) : M A :=
  fun s => match m s with
           | Ok a s1 =>
               match f s1 with
               | Ok _ s2 => Ok a s2
               | Raise e2 s2 => Raise e2 s2
               end
           | Raise e s1 =>
               match f s1 with
               | Ok _ s2 => Raise e s2
               | Raise e2 s2 => Raise e2 s2
               end
           end.

(** [for x in l: body x], the values the body ends with collected in
    order (the scripts' [ids.append(...)] as last statement of a body). *)
Fixpoint for_in {A B} (l : list A) (body : A -> M B) : M (list B) :=
  match l with
  | [] => ret []
  | x :: xs =>
      r <- body x ;;
      rs <- for_in xs body ;;
      ret (r :: rs)
  end.

(** [range(n)] for a loop variable that the body ignores. *)
Definition range (n : Z) : list unit := repeat tt (Z.to_nat n).

(** ** State primitives *)

Definition emit (ev : event) (s : state) : state :=
  mkState (rng_ix s) (fk_ix s) (db_ix s) (cur_rows s) (trace s ++ [ev]).

Definition next_rng (s : state) : state :=
  mkState (S (rng_ix s)) (fk_ix s) (db_ix s) (cur_rows s) (trace s).

Definition next_fk (s : state) : state :=
  mkState (rng_ix s) (S (fk_ix s)) (db_ix s) (cur_rows s) (trace s).

Definition print (line : string) : M unit :=
  fun s => Ok tt (emit (EvPrint line) s).

Section Libraries.

Variable E : env.

(** *** The [random] module *)

(** One call into the generator for an integer below [n]. *)
Definition randbelow (n : nat) : M nat :=
  fun s => match n with
           | O => Raise ValueError s
           | S _ => Ok (N.to_nat (rand E (rng_ix s) mod N.of_nat n)) (next_rng s)
           end.

(** [random.random()]: the float [k / 2^53]; the integer [k] is returned
    and callers wrap it as [FRandom k]. *)
Definition random_random : M N :=
  fun s => Ok (rand E (rng_ix s) mod 2 ^ 53)%N (next_rng s).

(** [random.uniform(a, b)] is [a + (b - a) * random()]. *)
Definition random_uniform (a b : pyfloat) : M pyfloat :=
  u <- random_random ;;
  ret (FAdd a (FMul (FSub b a) (FRandom u))).

(** [random.choice(seq)]: IndexError on an empty sequence. *)
Definition random_choice {A} (seq : list A) : M A :=
  match seq with
  | [] => raise IndexError
  | _ :: _ =>
      i <- randbelow (List.length seq) ;;
      match nth_error seq i with
      | Some x => ret x
      | None => raise IndexError
      end
  end.

(** [random.choices(population, k=k)]: [k] independent picks. *)
Definition random_choices {A} (population : list A) (k : nat) : M (list A) :=
  for_in (repeat tt k) (fun _ => random_choice population).

(** [random.randint(a, b)] *)
Definition random_randint (a b : Z) : M Z :=
  if (b <? a)%Z then raise ValueError
  else i <- randbelow (Z.to_nat (b - a + 1)) ;; ret (a + Z.of_nat i)%Z.

Fixpoint remove_nth {A} (i : nat) (l : list A) : list A :=
  match l, i with
  | [], _ => []
  | _ :: xs, O => xs
  | x :: xs, S j => x :: remove_nth j xs
  end.

(** Selection without replacement: each pick leaves the pool. *)
Fixpoint sample_from {A} (pool : list A) (k : nat) : M (list A) :=
  match k with
  | O => ret []
  | S k' =>
      j <- randbelow (List.length pool) ;;
      match nth_error pool j with
      | Some x => rest <- sample_from (remove_nth j pool) k' ;; ret (x :: rest)
      | None => raise ValueError
      end
  end.

(** [random.sample(population, k=k)]: ValueError when [k] exceeds the
    population. *)
Definition random_sample {A} (population : list A) (k : nat) : M (list A) :=
  if (List.length population <? k)%nat then raise ValueError
  else sample_from population k.

(** *** Faker *)

Definition fake_string : M string :=
  fun s => Ok (fake_text E (fk_ix s)) (next_fk s).

Definition fake_name : M string := fake_string.
Definition fake_address : M string := fake_string.
Definition fake_street_name : M string := fake_string.

(** [fake.date_between(start_date=..., end_date=...)] *)
Definition fake_date_between (start_date end_date : value) : M Z :=
  fun s => match fake_date E (fk_ix s) start_date end_date with
           | inl e => Raise e (next_fk s)
           | inr d => Ok d (next_fk s)
           end.

(** *** [datetime] *)

Definition date_max : Z := 3652059.

(** [d + timedelta(days=n)]: OverflowError outside year 1 to 9999. *)
Definition date_add_days (d n : Z) : M Z :=
  if ((1 <=? d + n) && (d + n <=? date_max))%Z then ret (d + n)%Z
  else raise OverflowError.

(** *** psycopg2 *)

Definition connect : M unit :=
  fun s => match db_connect E with
           | Some e => Raise e s
           | None => Ok tt (emit EvConnect s)
           end.

(** [cur.execute(query, params)]: the reply fills the cursor. *)
Definition execute (query : text) (params : list value) : M unit :=
  fun s =>
    match db_execute E (db_ix s) query params with
    | inl e =>
        Raise e (mkState (rng_ix s) (fk_ix s) (S (db_ix s)) [] (trace s))
    | inr rows =>
        Ok tt (mkState (rng_ix s) (fk_ix s) (S (db_ix s)) rows
                 (trace s ++ [EvExecute query params rows]))
    end.

(** [cur.fetchone()]: the next row as a tuple, [None] when exhausted. *)
Definition fetchone : M value :=
  fun s => match cur_rows s with
           | [] => Ok VNone s
           | r :: rest =>
               Ok (VTuple r)
                  (mkState (rng_ix s) (fk_ix s) (db_ix s) rest (trace s))
           end.

Definition commit : M unit :=
  fun s => match db_commit E with
           | Some e => Raise e s
           | None => Ok tt (emit EvCommit s)
           end.

Definition rollback : M unit :=
  fun s => match db_rollback E with
           | Some e => Raise e s
           | None => Ok tt (emit EvRollback s)
           end.

Definition cursor_close : M unit := fun s => Ok tt (emit EvCursorClose s).
Definition conn_close : M unit := fun s => Ok tt (emit EvConnClose s).

(** *** Operations of the language *)

(** [v[0]] *)
Definition index0 (v : value) : M value :=
  match v with
  | VTuple (x :: _) => ret x
  | VTuple [] => raise IndexError
  | _ => raise TypeError
  end.

(** [(a, b) = v] *)
Definition unpack2 (v : value) : M (value * value) :=
  match v with
  | VTuple [a; b] => ret (a, b)
  | VTuple _ => raise ValueError
  | _ => raise TypeError
  end.

End Libraries.

(** ** Strings *)

Definition newline : ascii := ascii_of_nat 10.

(** [string.digits] and [string.ascii_uppercase] *)
Definition digits : list ascii := list_ascii_of_string "0123456789".
Definition ascii_uppercase : list ascii :=
  list_ascii_of_string "ABCDEFGHIJKLMNOPQRSTUVWXYZ".

(** [s.replace('\n', ', ')] *)
Fixpoint replace_newline (s : string) : string :=
  match s with
  | EmptyString => EmptyString
  | String c rest =>
      if Ascii.eqb c newline then String "," (String " " (replace_newline rest))
      else String c (replace_newline rest)
  end.

Definition is_space (c : ascii) : bool :=
  let n := nat_of_ascii c in
  ((9 <=? n) && (n <=? 13) || (28 <=? n) && (n <=? 32))%nat.

Fixpoint skip_spaces (s : string) : string :=
  match s with
  | EmptyString => EmptyString
  | String c rest => if is_space c then skip_spaces rest else s
  end.

Fixpoint take_word (s : string) : string :=
  match s with
  | EmptyString => EmptyString
  | String c rest => if is_space c then EmptyString else String c (take_word rest)
  end.

(** [s.split()[0]]: the first blank-separated word, [None] when the split
    is empty (where Python raises IndexError). *)
Definition first_word (s : string) : option string :=
  match skip_spaces s with
  | EmptyString => None
  | w => Some (take_word w)
  end.

(** [str(n)] for an integer *)
Definition str_of_int (z : Z) : string := NilZero.string_of_int (Z.to_int z).

(** ** Statements

    The query texts are the triple-quoted literals of the scripts with
    every run of blanks and line breaks written as one space and the
    outer blanks dropped; SQL does not tell the two apart. *)

Definition party_sql : text :=
  [Lit "INSERT INTO ladm.LA_Party(party_name, party_type, identifier) VALUES (%s, %s, %s) RETURNING party_id"].

(** The one f-string query: [geom_wkt] is spliced into the text. *)
Definition spatial_sql (geom_wkt : text) : text :=
  [Lit "INSERT INTO ladm.LA_SpatialUnit(geometry, address, cadastral_ref, area_sq_m) VALUES ("]
  ++ geom_wkt ++ [Lit ", %s, %s, %s) RETURNING spatial_unit_id"].

Definition tra_sql : text :=
  [Lit "INSERT INTO ladm.TaxRateArea(tra_code, description) VALUES (%s, %s) RETURNING tra_id"].

Definition tax_rate_sql : text :=
  [Lit "INSERT INTO ladm.TaxRate(rate_name, rate_value, effective_date, expiration_date) VALUES (%s, %s, %s, %s) RETURNING tax_rate_id"].

Definition assign_tra_sql : text :=
  [Lit "UPDATE ladm.LA_BAUnit SET tra_id = %s WHERE ba_unit_id = %s"].

Definition assessment_sql : text :=
  [Lit "INSERT INTO ladm.TaxAssessment( ba_unit_id, assessment_year, base_year, base_year_value, prop_13_factor, current_assessed_value, roll_type, tax_rate_id ) VALUES (%s, %s, %s, %s, %s, %s, %s, %s)"].

Definition supplemental_sql : text :=
  [Lit "INSERT INTO ladm.SupplementalAssessment( ba_unit_id, event_date, reason_code, old_value, new_value, difference_value, tax_rate_id ) VALUES (%s, %s, %s, %s, %s, %s, %s)"].

Definition rrr_sql : text :=
  [Lit "INSERT INTO ladm.LA_RRR(rrr_type, ba_unit_id, party_id, start_date) VALUES (%s, %s, %s, %s)"].

Definition bill_sql : text :=
  [Lit "INSERT INTO ladm.TaxBill( bill_date, ba_unit_id, party_id, due_date, amount_due, is_paid, bill_type, supplemental_id ) VALUES (%s, %s, %s, %s, %s, %s, %s, %s) RETURNING bill_date, bill_uid"].

Definition payment_sql : text :=
  [Lit "INSERT INTO ladm.TaxPayment( payment_date, bill_date, bill_uid, amount_paid ) VALUES (%s, %s, %s, %s)"].

Definition mark_paid_sql : text :=
  [Lit "UPDATE ladm.TaxBill SET is_paid = TRUE WHERE bill_date = %s AND bill_uid = %s"].

(** ** Phases 4 to 9, the same text in both scripts
    ([seeder.py] lines 139-293, [seeder_rc.py] lines 202-356; the two
    ranges differ in four comment lines only). *)

Definition tra_codes : list (string * string) :=
  [("TRA_001", "Riverside City District");
   ("TRA_002", "Murrieta District");
   ("TRA_003", "Coachella District")].

Definition tax_rates_data : list (string * pyfloat * string * value) :=
  [("Base Prop 13 Rate", FLit "0.0100", "2020-01-01", VNone);
   ("Local Bond Measure", FLit "0.0015", "2020-01-01", VNone);
   ("Special School Tax", FLit "0.0008", "2020-01-01", VNone)].

(** A [dict] with string keys, in insertion order. *)
Definition dict : Type := list (string * value).

Fixpoint dict_set (k : string) (v : value) (d : dict) : dict :=
  match d with
  | [] => [(k, v)]
  | (k', v') :: rest =>
      if String.eqb k k' then (k, v) :: rest else (k', v') :: dict_set k v rest
  end.

Definition dict_values (d : dict) : list value := map snd d.

(** [random.random() < 0.5] on the draw [k / 2^53] *)
Definition below_half (k : N) : bool := (k <? 2 ^ 52)%N.

Section Phases.

Variable E : env.

(** ["".join(random.choices(alphabet, k=k))] *)
Definition random_string (alphabet : list ascii) (k : nat) : M string :=
  cs <- random_choices E alphabet k ;;
  ret (string_of_list_ascii cs).

(** The first loop of phase 4.  The dictionary is only read after the
    loop, so the loop collects the pairs and the dictionary is built from
    them by the same assignments, in the same order. *)
Definition insert_tax_rate_areas : M dict :=
  pairs <- for_in tra_codes (fun cd =>
    let '(code, desc) := cd in
    execute E tra_sql [VStr code; VStr desc] ;;
    r <- fetchone ;;
    tra_id_new <- index0 r ;;
    ret (code, tra_id_new)) ;;
  ret (fold_left (fun d kv => dict_set (fst kv) (snd kv) d) pairs []).

Definition insert_tax_rates : M (list value) :=
  for_in tax_rates_data (fun rd =>
    let '(name, val, eff_date, exp_date) := rd in
    execute E tax_rate_sql [VStr name; VFloat val; VStr eff_date; exp_date] ;;
    r <- fetchone ;;
    index0 r).

Definition assign_tra (tra_ids_map : dict) (baunit_ids : list value)
  : M (list unit) :=
  for_in baunit_ids (fun buid =>
    assigned_tra <- random_choice E (dict_values tra_ids_map) ;;
    execute E assign_tra_sql [assigned_tra; buid]).

(** Phase 4 *)
Definition tax_rate_phase (baunit_ids : list value) : M (list value) :=
  print "Inserting TaxRateArea & TaxRate..." ;;
  tra_ids_map <- insert_tax_rate_areas ;;
  tax_rate_ids <- insert_tax_rates ;;
  assign_tra tra_ids_map baunit_ids ;;
  ret tax_rate_ids.

(** Phase 5 *)
Definition assessment_phase (baunit_ids tax_rate_ids : list value)
  : M (list unit) :=
  print "Inserting TaxAssessments..." ;;
  for_in baunit_ids (fun buid =>
    assessment_year <- random_choice E [2023; 2024; 2025]%Z ;;
    base_year <- random_choice E [2018; 2019; 2020]%Z ;;
    base_val <- random_uniform E (FLit "100000") (FLit "800000") ;;
    u <- random_random E ;;
    let factor := FAdd (FLit "1.0") (FMul (FRandom u) (FLit "0.1")) in
    let current_val := FMul base_val factor in
    roll_type <- random_choice E ["Secured"; "Unsecured"] ;;
    used_rate <- random_choice E tax_rate_ids ;;
    execute E assessment_sql
      [buid; VInt assessment_year; VInt base_year; VFloat base_val;
       VFloat factor; VFloat current_val; VStr roll_type; used_rate]).

(** Phase 6 *)
Definition supplemental_phase (baunit_ids tax_rate_ids : list value)
  : M (list unit) :=
  print "Inserting SupplementalAssessments..." ;;
  subset_for_supp <-
    random_sample E baunit_ids (Nat.min (List.length baunit_ids / 5) 10) ;;
  for_in subset_for_supp (fun buid =>
    reason <- random_choice E ["ChangeOfOwnership"; "NewConstruction"] ;;
    old_val <- random_uniform E (FLit "100000") (FLit "600000") ;;
    bump <- random_uniform E (FLit "10000") (FLit "60000") ;;
    let new_val := FAdd old_val bump in
    let diff_val := FSub new_val old_val in
    used_rate <- random_choice E tax_rate_ids ;;
    ev_date <- fake_date_between E (VStr "-2y") (VStr "today") ;;
    execute E supplemental_sql
      [buid; VDate ev_date; VStr reason; VFloat old_val; VFloat new_val;
       VFloat diff_val; used_rate]).

(** Phase 7 *)
Definition rrr_phase (baunit_ids party_ids : list value) : M (list unit) :=
  print "Inserting RRR (Ownership)..." ;;
  for_in baunit_ids (fun buid =>
    party_choice <- random_choice E party_ids ;;
    start_dt <- fake_date_between E (VStr "-10y") (VStr "today") ;;
    execute E rrr_sql [VStr "Ownership"; buid; party_choice; VDate start_dt]).

(** Phase 8 *)
Definition bill_phase (baunit_ids party_ids : list value) (num_bills : Z)
  : M (list value) :=
  print "Inserting TaxBills..." ;;
  for_in (range num_bills) (fun _ =>
    buid <- random_choice E baunit_ids ;;
    pid <- random_choice E party_ids ;;
    bill_dt <- fake_date_between E (VStr "-3y") (VStr "today") ;;
    due_dt <- date_add_days bill_dt 30 ;;
    amt_due <- random_uniform E (FLit "500") (FLit "5000") ;;
    let is_paid := false in
    bill_type <- random_choice E ["Annual"; "Supplemental"] ;;
    let supplemental_id := VNone in
    execute E bill_sql
      [VDate bill_dt; buid; pid; VDate due_dt; VFloat amt_due;
       VBool is_paid; VStr bill_type; supplemental_id] ;;
    fetchone).

(** Phase 9, the payments *)
Definition payment_phase (inserted_bills : list value) : M (list (list unit)) :=
  print "Inserting TaxPayments..." ;;
  half_bills <-
    random_sample E inserted_bills (List.length inserted_bills / 2) ;;
  for_in half_bills (fun bill =>
    '(b_date, b_uid) <- unpack2 bill ;;
    how_many <- random_randint E 1 2 ;;
    for_in (range how_many) (fun _ =>
      pay_dt <- fake_date_between E b_date (VStr "today") ;;
      amt_paid <- random_uniform E (FLit "50") (FLit "1000") ;;
      execute E payment_sql [VDate pay_dt; b_date; b_uid; VFloat amt_paid])).

(** Phase 9, the paid flags *)
Definition mark_paid (inserted_bills : list value) : M (list unit) :=
  for_in inserted_bills (fun bill =>
    '(b_date, b_uid) <- unpack2 bill ;;
    u <- random_random E ;;
    if below_half u then execute E mark_paid_sql [b_date; b_uid]
    else ret tt).

(** Phases 4 to 9 up to the last payment; the bills are handed on. *)
Definition through_payments (party_ids baunit_ids : list value)
  (num_bills : Z) : M (list value) :=
  tax_rate_ids <- tax_rate_phase baunit_ids ;;
  assessment_phase baunit_ids tax_rate_ids ;;
  supplemental_phase baunit_ids tax_rate_ids ;;
  rrr_phase baunit_ids party_ids ;;
  inserted_bills <- bill_phase baunit_ids party_ids num_bills ;;
  payment_phase inserted_bills ;;
  ret inserted_bills.

(** Everything after the BAUnits are known, up to the commit. *)
Definition later_phases (party_ids baunit_ids : list value) (num_bills : Z)
  : M unit :=
  inserted_bills <- through_payments party_ids baunit_ids num_bills ;;
  mark_paid inserted_bills ;;
  commit E ;;
  print "=== Seeding Completed Successfully! ===".

(** [except Exception as e: conn.rollback(); print(...); raise e] *)
Definition on_error (e : exn) : M unit :=
  rollback E ;;
  print "Error during seeding. Rolled back transaction." ;;
  raise e.

(** [finally: cur.close(); conn.close()] *)
Definition cleanup : M unit := cursor_close ;; conn_close.

(** The frame of [seed_data]: connect outside the [try], then the [try]
    block with its handler and its [finally]. *)
Definition with_transaction (seeding : M unit) : M unit :=
  connect E ;;
  try_finally (try_except seeding on_error) cleanup.

End Phases.

(** [f"ST_SetSRID(ST_MakePoint({lng}, {lat}), 4326)"], the value that
    [random_point_in_bbox] and [random_point_in_riverside] return *)
Definition point_wkt (lng lat : pyfloat) : text :=
  [Lit "ST_SetSRID(ST_MakePoint("; Flt lng; Lit ", "; Flt lat;
   Lit "), 4326)"].

(** ** [seeder.py] *)

Module Seeder.

Definition MIN_X : pyfloat := FLit "-117.0".
Definition MAX_X : pyfloat := FLit "-115.0".
Definition MIN_Y : pyfloat := FLit "33.0".
Definition MAX_Y : pyfloat := FLit "34.0".

Section Script.

Variable E : env.

Definition random_point_in_bbox (min_x max_x min_y max_y : pyfloat) : M text :=
  lng <- random_uniform E min_x max_x ;;
  lat <- random_uniform E min_y max_y ;;
  ret (point_wkt lng lat).

Definition baunit_sql : text :=
  [Lit "INSERT INTO ladm.LA_BAUnit(unit_name, spatial_unit_id, assessor_parcel_number, tra_id) VALUES (%s, %s, %s, %s) RETURNING ba_unit_id"].

(** Phase 1 *)
Definition party_phase (num_parties : Z) : M (list value) :=
  print "Inserting Parties..." ;;
  for_in (range num_parties) (fun _ =>
    party_name <- fake_name E ;;
    party_type <- random_choice E ["Individual"; "Company"; "GovAgency"] ;;
    ident <- random_string E digits 9 ;;
    execute E party_sql [VStr party_name; VStr party_type; VStr ident] ;;
    r <- fetchone ;;
    index0 r).

(** Phase 2 *)
Definition spatial_phase (num_parcels : Z) : M (list value) :=
  print "Inserting SpatialUnits..." ;;
  for_in (range num_parcels) (fun _ =>
    raw <- fake_address E ;;
    let address := replace_newline raw in
    geom_wkt <- random_point_in_bbox MIN_X MAX_X MIN_Y MAX_Y ;;
    cad <- random_string E digits 6 ;;
    let cadastral_ref := ("CAD-" ++ cad)%string in
    area <- random_uniform E (FLit "200.0") (FLit "20000.0") ;;
    execute E (spatial_sql geom_wkt)
      [VStr address; VStr cadastral_ref; VFloat area] ;;
    r <- fetchone ;;
    index0 r).

(** Phase 3 *)
Definition baunit_phase (spatial_ids : list value) : M (list value) :=
  print "Inserting BAUnits..." ;;
  for_in spatial_ids (fun sid =>
    letters <- random_string E ascii_uppercase 4 ;;
    let unit_name := ("Parcel " ++ letters)%string in
    a <- random_string E digits 3 ;;
    b <- random_string E digits 3 ;;
    c <- random_string E digits 3 ;;
    let apn := (a ++ "-" ++ b ++ "-" ++ c)%string in
    let tra_id := VNone in
    execute E baunit_sql [VStr unit_name; sid; VStr apn; tra_id] ;;
    r <- fetchone ;;
    index0 r).

(** The [try] block *)
Definition seeding (num_parties num_parcels num_bills : Z) : M unit :=
  print "=== Seeding Start ===" ;;
  party_ids <- party_phase num_parties ;;
  spatial_ids <- spatial_phase num_parcels ;;
  baunit_ids <- baunit_phase spatial_ids ;;
  later_phases E party_ids baunit_ids num_bills.

Definition seed_data (num_parties num_parcels num_bills : Z) : M unit :=
  with_transaction E (seeding num_parties num_parcels num_bills).

(** The run cut where the paid-flag loop is about to start: the bills
    inserted, and the state in which the loop finds the generator. *)
Definition before_flags (num_parties num_parcels num_bills : Z)
  : M (list value) :=
  connect E ;;
  print "=== Seeding Start ===" ;;
  party_ids <- party_phase num_parties ;;
  spatial_ids <- spatial_phase num_parcels ;;
  baunit_ids <- baunit_phase spatial_ids ;;
  through_payments E party_ids baunit_ids num_bills.

End Script.

End Seeder.

(** ** [seeder_rc.py] *)

Module SeederRC.

Definition MIN_X : pyfloat := FLit "-117.50".
Definition MAX_X : pyfloat := FLit "-117.25".
Definition MIN_Y : pyfloat := FLit "33.85".
Definition MAX_Y : pyfloat := FLit "34.00".

Definition RIVERSIDE_ZIP_CODES : list string :=
  ["92501"; "92503"; "92504"; "92505"; "92506"; "92507"; "92508"; "92509"].

Definition STREET_SUFFIXES : list string :=
  ["St"; "Ave"; "Blvd"; "Rd"; "Ln"; "Way"; "Dr"; "Ct"].

Definition RIVERSIDE_AGENCIES : list string :=
  ["Riverside County Assessor's Office";
   "Riverside City Hall";
   "Riverside Water Department";
   "Riverside Unified School District"].

Definition RIVERSIDE_BUSINESSES : list string :=
  ["Mission Inn Hotel & Spa";
   "La Sierra University";
   "Riverside Community Hospital";
   "Galleria at Tyler"].

Section Script.

Variable E : env.

Definition random_point_in_riverside : M text :=
  lng <- random_uniform E MIN_X MAX_X ;;
  lat <- random_uniform E MIN_Y MAX_Y ;;
  ret (point_wkt lng lat).

Definition generate_riverside_address : M string :=
  street_num <- random_randint E 100 9999 ;;
  full_name <- fake_street_name E ;;
  match first_word full_name with
  | None => raise IndexError
  | Some street_name =>
      suffix <- random_choice E STREET_SUFFIXES ;;
      let city := "Riverside" in
      let state := "CA" in
      zip_code <- random_choice E RIVERSIDE_ZIP_CODES ;;
      ret (str_of_int street_num ++ " " ++ street_name ++ " " ++ suffix
           ++ String newline (city ++ ", " ++ state ++ " " ++ zip_code))%string
  end.

Definition generate_riverside_party (party_type : string) : M (string * string) :=
  if String.eqb party_type "Individual" then
    n <- fake_name E ;; ret (n, "Individual")
  else if String.eqb party_type "Company" then
    n <- random_choice E RIVERSIDE_BUSINESSES ;; ret (n, "Company")
  else
    n <- random_choice E RIVERSIDE_AGENCIES ;; ret (n, "GovAgency").

Definition baunit_sql : text :=
  [Lit "INSERT INTO ladm.LA_BAUnit( unit_name, spatial_unit_id, assessor_parcel_number, description ) VALUES (%s, %s, %s, %s) RETURNING ba_unit_id"].

(** Phase 1 *)
Definition party_phase (num_parties : Z) : M (list value) :=
  print "Inserting Parties..." ;;
  for_in (range num_parties) (fun _ =>
    chosen_type <- random_choice E ["Individual"; "Company"; "GovAgency"] ;;
    '(party_name, actual_type) <- generate_riverside_party chosen_type ;;
    ident <- random_string E digits 9 ;;
    execute E party_sql [VStr party_name; VStr actual_type; VStr ident] ;;
    r <- fetchone ;;
    index0 r).

(** Phase 2 *)
Definition spatial_phase (num_parcels : Z) : M (list value) :=
  print "Inserting SpatialUnits..." ;;
  for_in (range num_parcels) (fun _ =>
    address <- generate_riverside_address ;;
    geom_wkt <- random_point_in_riverside ;;
    cad <- random_string E digits 6 ;;
    let cadastral_ref := ("CAD-" ++ cad)%string in
    area <- random_uniform E (FLit "200.0") (FLit "20000.0") ;;
    execute E (spatial_sql geom_wkt)
      [VStr address; VStr cadastral_ref; VFloat area] ;;
    r <- fetchone ;;
    index0 r).

(** Phase 3 *)
Definition baunit_phase (spatial_ids : list value) : M (list value) :=
  print "Inserting BAUnits..." ;;
  for_in spatial_ids (fun sid =>
    letters <- random_string E ascii_uppercase 4 ;;
    let unit_name := ("Parcel " ++ letters)%string in
    a <- random_string E digits 3 ;;
    b <- random_string E digits 3 ;;
    c <- random_string E digits 3 ;;
    let apn := (a ++ "-" ++ b ++ "-" ++ c)%string in
    household_size <- random_randint E 1 6 ;;
    let desc := ("Household Size: " ++ str_of_int household_size)%string in
    execute E baunit_sql [VStr unit_name; sid; VStr apn; VStr desc] ;;
    r <- fetchone ;;
    index0 r).

(** The [try] block *)
Definition seeding (num_parties num_parcels num_bills : Z) : M unit :=
  print "=== Seeding Start ===" ;;
  party_ids <- party_phase num_parties ;;
  spatial_ids <- spatial_phase num_parcels ;;
  baunit_ids <- baunit_phase spatial_ids ;;
  later_phases E party_ids baunit_ids num_bills.

Definition seed_data (num_parties num_parcels num_bills : Z) : M unit :=
  with_transaction E (seeding num_parties num_parcels num_bills).

(** The run cut where the paid-flag loop is about to start: the bills
    inserted, and the state in which the loop finds the generator. *)
Definition before_flags (num_parties num_parcels num_bills : Z)
  : M (list value) :=
  connect E ;;
  print "=== Seeding Start ===" ;;
  party_ids <- party_phase num_parties ;;
  spatial_ids <- spatial_phase num_parcels ;;
  baunit_ids <- baunit_phase spatial_ids ;;
  through_payments E party_ids baunit_ids num_bills.

End Script.

End SeederRC.

(** ** Reading a trace *)

(** What a statement does and to which table, read off its text. *)
Inductive verb : Type := Insert | Update.

Fixpoint table_name (s : string) : string :=
  match s with
  | EmptyString => EmptyString
  | String c rest =>
      if (Ascii.eqb c "(" || Ascii.eqb c " ")%bool then EmptyString
      else String c (table_name rest)
  end.

Definition after (n : nat) (s : string) : string :=
  substring n (String.length s - n) s.

Definition classify_string (s : string) : option (verb * string) :=
  if prefix "INSERT INTO " s then Some (Insert, table_name (after 12 s))
  else if prefix "UPDATE " s then Some (Update, table_name (after 7 s))
  else None.

Definition classify (q : text) : option (verb * string) :=
  match q with
  | Lit s :: _ => classify_string s
  | _ => None
  end.

Definition verb_eqb (a b : verb) : bool :=
  match a, b with
  | Insert, Insert | Update, Update => true
  | _, _ => false
  end.

(** [is_stmt v t ev]: [ev] is a statement with verb [v] on table [t]. *)
Definition is_stmt (v : verb) (t : string) (ev : event) : bool :=
  match ev with
  | EvExecute q _ _ =>
      match classify q with
      | Some (v', t') => verb_eqb v v' && String.eqb t t'
      | None => false
      end
  | _ => false
  end.

Definition count_stmts (v : verb) (t : string) (tr : list event) : nat :=
  List.length (filter (is_stmt v t) tr).

(** The statements that a trace leaves committed: a commit makes the
    statements of the open transaction durable; a rollback, or closing
    the connection, discards them. *)
Fixpoint durable (pending done : list event) (tr : list event) : list event :=
  match tr with
  | [] => done
  | EvExecute q ps rows :: rest =>
      durable (pending ++ [EvExecute q ps rows]) done rest
  | EvCommit :: rest => durable [] (done ++ pending) rest
  | EvRollback :: rest => durable [] done rest
  | EvConnClose :: rest => durable [] done rest
  | _ :: rest => durable pending done rest
  end.

Definition committed (tr : list event) : list event := durable [] [] tr.

(** Rows of table [t] that exist because of the run. *)
Definition rows_of (t : string) (tr : list event) : nat :=
  count_stmts Insert t (committed tr).

(** A run: the outcome of [seed_data] from the initial state. *)
Definition succeeded {A} (o : outcome A) : Prop :=
  match o with Ok _ _ => True | Raise _ _ => False end.

(** ** A sample environment

    A database that numbers the rows it creates and answers a bill with
    its date and a fresh number, a generator and a Faker that walk
    through their ranges. *)

Definition serial_db (n : nat) (q : text) (ps : list value)
  : exn + list row :=
  match classify q with
  | Some (Insert, "ladm.TaxBill") => inr [[nth 0 ps VNone; VInt (Z.of_nat n)]]
  | Some (Insert, _) => inr [[VInt (Z.of_nat n)]]
  | _ => inr []
  end.

Definition sample_env : env :=
  mkEnv (fun n => N.of_nat (7 * n + 3) * 2 ^ 50)%N
        (fun n => if Nat.even n then "Ada Lovelace" else "12 Main Street")
        (fun n _ _ => inr (738000 + Z.of_nat n)%Z)
        None serial_db None None.

(** What [fetchone()[0]] yields after a statement answered [rows]. *)
Definition first_col (rows : list row) : option value :=
  match rows with
  | (x :: _) :: _ => Some x
  | _ => None
  end.

(** What [fetchone()] yields after a statement answered [rows]. *)
Definition first_row (rows : list row) : value :=
  match rows with
  | [] => VNone
  | r :: _ => VTuple r
  end.

(** Three lists walked in step. *)
Inductive Forall3 {A B C} (R : A -> B -> C -> Prop)
  : list A -> list B -> list C -> Prop :=
| Forall3_nil : Forall3 R [] [] []
| Forall3_cons x y z xs ys zs :
    R x y z -> Forall3 R xs ys zs -> Forall3 R (x :: xs) (y :: ys) (z :: zs).

(** ** What the phases leave in the trace *)

Definition params (ev : event) : list value :=
  match ev with EvExecute _ ps _ => ps | _ => [] end.

Definition result (ev : event) : list row :=
  match ev with EvExecute _ _ rows => rows | _ => [] end.

Definition param (i : nat) (ev : event) : value := nth i (params ev) VNone.

Definition stmt (v : verb) (t : string) (ev : event) : Prop :=
  is_stmt v t ev = true.

(** An insert that answered [id] through its RETURNING clause *)
Definition returning_ev (t : string) (id : value) (ev : event) : Prop :=
  stmt Insert t ev /\ first_col (result ev) = Some id.

Definition baunit_ev (sid id : value) (ev : event) : Prop :=
  returning_ev "ladm.LA_BAUnit" id ev /\ param 1 ev = sid.

Definition assign_ev (tra_ids : list value) (buid : value) (ev : event)
  : Prop :=
  stmt Update "ladm.LA_BAUnit" ev /\ In (param 0 ev) tra_ids
  /\ param 1 ev = buid.

Definition assess_ev (rate_ids : list value) (buid : value) (ev : event)
  : Prop :=
  stmt Insert "ladm.TaxAssessment" ev /\ param 0 ev = buid
  /\ In (param 7 ev) rate_ids.

Definition supp_ev (rate_ids : list value) (buid : value) (ev : event)
  : Prop :=
  stmt Insert "ladm.SupplementalAssessment" ev /\ param 0 ev = buid
  /\ In (param 6 ev) rate_ids.

Definition rrr_ev (party_ids : list value) (buid : value) (ev : event)
  : Prop :=
  stmt Insert "ladm.LA_RRR" ev /\ param 1 ev = buid
  /\ In (param 2 ev) party_ids.

Definition bill_ev (baunit_ids party_ids : list value) (bill : value)
  (ev : event) : Prop :=
  stmt Insert "ladm.TaxBill" ev
  /\ In (param 1 ev) baunit_ids /\ In (param 2 ev) party_ids
  /\ first_row (result ev) = bill
  /\ (exists d, param 0 ev = VDate d /\ param 3 ev = VDate (d + 30)%Z)
  /\ param 5 ev = VBool false /\ param 7 ev = VNone.

Definition pay_ev (b_date b_uid : value) (ev : event) : Prop :=
  stmt Insert "ladm.TaxPayment" ev
  /\ param 1 ev = b_date /\ param 2 ev = b_uid.

(** The payments of one sampled bill *)
Definition pay_evs (bill : value) (evs : list event) : Prop :=
  exists b_date b_uid,
    bill = VTuple [b_date; b_uid]
    /\ 1 <= List.length evs <= 2
    /\ Forall (pay_ev b_date b_uid) evs.

(** The statements of the paid-flag loop over [bills] when the draws
    are [coins]: one update for every bill whose draw is below 0.5. *)
Fixpoint flag_events (coins : list N) (bills : list value)
  (evs : list event) : Prop :=
  match coins, bills with
  | [], [] => evs = []
  | c :: cs, b :: bs =>
      exists b_date b_uid,
        b = VTuple [b_date; b_uid]
        /\ if below_half c then
             exists rows rest,
               evs = EvExecute mark_paid_sql [b_date; b_uid] rows :: rest
               /\ flag_events cs bs rest
           else flag_events cs bs evs
  | _, _ => False
  end.

(** The draws [random.random()] yields from position [i] on *)
Definition draws (E : env) (i n : nat) : list N :=
  map (fun j => (rand E (i + j) mod 2 ^ 53)%N) (seq 0 n).

(** Phases 4 to 9 up to the last payment, when they complete *)
Definition through_shape (party_ids baunit_ids : list value) (K : Z)
  (bills : list value) (evs : list event) : Prop :=
  exists tra_ids rate_ids evTra evRate evAssign evAssess
         supp unsupp evSupp evRRR evBill picked unpicked evPay,
    evs = EvPrint "Inserting TaxRateArea & TaxRate..."
            :: evTra ++ evRate ++ evAssign
          ++ EvPrint "Inserting TaxAssessments..." :: evAssess
          ++ EvPrint "Inserting SupplementalAssessments..." :: evSupp
          ++ EvPrint "Inserting RRR (Ownership)..." :: evRRR
          ++ EvPrint "Inserting TaxBills..." :: evBill
          ++ EvPrint "Inserting TaxPayments..." :: List.concat evPay
    /\ Forall2 (returning_ev "ladm.TaxRateArea") tra_ids evTra
    /\ List.length tra_ids = 3
    /\ Forall2 (returning_ev "ladm.TaxRate") rate_ids evRate
    /\ List.length rate_ids = 3
    /\ Forall2 (assign_ev tra_ids) baunit_ids evAssign
    /\ Forall2 (assess_ev rate_ids) baunit_ids evAssess
    /\ Permutation (supp ++ unsupp) baunit_ids
    /\ List.length supp = Nat.min (List.length baunit_ids / 5) 10
    /\ Forall2 (supp_ev rate_ids) supp evSupp
    /\ Forall2 (rrr_ev party_ids) baunit_ids evRRR
    /\ Forall2 (bill_ev baunit_ids party_ids) bills evBill
    /\ List.length bills = Z.to_nat K
    /\ Permutation (picked ++ unpicked) bills
    /\ List.length picked = List.length bills / 2
    /\ Forall2 pay_evs picked evPay.

(** Phases 1 to 3 of either script, when they complete *)
Definition early_shape (N M : Z) (party_ids baunit_ids : list value)
  (evs : list event) : Prop :=
  exists spatial_ids evParty evSpatial evBA,
    evs = EvPrint "=== Seeding Start ==="
          :: EvPrint "Inserting Parties..." :: evParty
          ++ EvPrint "Inserting SpatialUnits..." :: evSpatial
          ++ EvPrint "Inserting BAUnits..." :: evBA
    /\ Forall2 (returning_ev "ladm.LA_Party") party_ids evParty
    /\ List.length party_ids = Z.to_nat N
    /\ Forall2 (returning_ev "ladm.LA_SpatialUnit") spatial_ids evSpatial
    /\ List.length spatial_ids = Z.to_nat M
    /\ Forall3 baunit_ev spatial_ids baunit_ids evBA.

(** A whole run that returns *)
Definition run_shape (E : env) (N M K : Z) (tr : list event) : Prop :=
  exists party_ids baunit_ids bills evEarly evThrough evFlags i,
    tr = EvConnect :: evEarly ++ evThrough ++ evFlags
         ++ [EvCommit; EvPrint "=== Seeding Completed Successfully! ===";
             EvCursorClose; EvConnClose]
    /\ early_shape N M party_ids baunit_ids evEarly
    /\ through_shape party_ids baunit_ids K bills evThrough
    /\ flag_events (draws E i (List.length bills)) bills evFlags.

(** The [try] block and the cut run of either script, over its own
    phases 1 to 3; both scripts are instances of it by unfolding. *)
Definition seeding_with (E : env)
  (party_phase spatial_phase : Z -> M (list value))
  (baunit_phase : list value -> M (list value))
  (num_parties num_parcels num_bills : Z) : M unit :=
  print "=== Seeding Start ===" ;;
  party_ids <- party_phase num_parties ;;
  spatial_ids <- spatial_phase num_parcels ;;
  baunit_ids <- baunit_phase spatial_ids ;;
  later_phases E party_ids baunit_ids num_bills.

Definition before_flags_with (E : env)
  (party_phase spatial_phase : Z -> M (list value))
  (baunit_phase : list value -> M (list value))
  (num_parties num_parcels num_bills : Z) : M (list value) :=
  connect E ;;
  print "=== Seeding Start ===" ;;
  party_ids <- party_phase num_parties ;;
  spatial_ids <- spatial_phase num_parcels ;;
  baunit_ids <- baunit_phase spatial_ids ;;
  through_payments E party_ids baunit_ids num_bills.

(** ** The sequence of statements of a run *)

Definition kind : Type := (verb * string)%type.

Definition kind_eqb (a b : kind) : bool :=
  verb_eqb (fst a) (fst b) && String.eqb (snd a) (snd b).

(** The statements of a trace, each reduced to its verb and table *)
Fixpoint kinds (tr : list event) : list kind :=
  match tr with
  | [] => []
  | EvExecute q _ _ :: rest =>
      match classify q with
      | Some k => k :: kinds rest
      | None => kinds rest
      end
  | _ :: rest => kinds rest
  end.

(** The statements of a run that returns, for [n] parties, [m] parcels
    and [k] bills, with [p] payments and [u] bills marked paid *)
Definition pattern (n m k p u : nat) : list kind :=
  repeat (Insert, "ladm.LA_Party") n
  ++ repeat (Insert, "ladm.LA_SpatialUnit") m
  ++ repeat (Insert, "ladm.LA_BAUnit") m
  ++ repeat (Insert, "ladm.TaxRateArea") 3
  ++ repeat (Insert, "ladm.TaxRate") 3
  ++ repeat (Update, "ladm.LA_BAUnit") m
  ++ repeat (Insert, "ladm.TaxAssessment") m
  ++ repeat (Insert, "ladm.SupplementalAssessment") (Nat.min (m / 5) 10)
  ++ repeat (Insert, "ladm.LA_RRR") m
  ++ repeat (Insert, "ladm.TaxBill") k
  ++ repeat (Insert, "ladm.TaxPayment") p
  ++ repeat (Update, "ladm.TaxBill") u.

(** Events that neither end nor abandon a transaction *)
Definition plain (ev : event) : Prop :=
  match ev with
  | EvConnect | EvPrint _ | EvExecute _ _ _ => True
  | _ => False
  end.

Definition is_execute (ev : event) : bool :=
  match ev with EvExecute _ _ _ => true | _ => false end.

(** ** Runs *)

Inductive script : Type := SeederPy | SeederRcPy.

(** [seed_data(num_parties, num_parcels, num_bills)] of a script, run
    from the initial state *)
Definition run (sc : script) (E : env) (N M K : Z) : outcome unit :=
  match sc with
  | SeederPy => Seeder.seed_data E N M K initial
  | SeederRcPy => SeederRC.seed_data E N M K initial
  end.

(** ** Identifiers read off a trace *)

(** The statements of one kind, in order *)
Definition select (v : verb) (t : string) (tr : list event) : list event :=
  filter (is_stmt v t) tr.

(** The identifiers that the inserts into [t] answered through
    [RETURNING] and [fetchone()[0]] picked up *)
Definition returned (t : string) (tr : list event) : list value :=
  flat_map (fun ev => match first_col (result ev) with
                      | Some id => [id]
                      | None => []
                      end)
           (select Insert t tr).

(** The rows that the inserts into [t] answered, as [fetchone()] gives
    them *)
Definition returned_rows (t : string) (tr : list event) : list value :=
  map (fun ev => first_row (result ev)) (select Insert t tr).

(** [ev], met after the events [seen], refers only to identifiers that
    statements of [seen] returned. *)
Definition fk_ok (seen : list event) (ev : event) : Prop :=
  (stmt Insert "ladm.LA_BAUnit" ev ->
     In (param 1 ev) (returned "ladm.LA_SpatialUnit" seen))
  /\ (stmt Update "ladm.LA_BAUnit" ev ->
      In (param 0 ev) (returned "ladm.TaxRateArea" seen)
      /\ In (param 1 ev) (returned "ladm.LA_BAUnit" seen))
  /\ (stmt Insert "ladm.TaxAssessment" ev ->
      In (param 0 ev) (returned "ladm.LA_BAUnit" seen)
      /\ In (param 7 ev) (returned "ladm.TaxRate" seen))
  /\ (stmt Insert "ladm.SupplementalAssessment" ev ->
      In (param 0 ev) (returned "ladm.LA_BAUnit" seen)
      /\ In (param 6 ev) (returned "ladm.TaxRate" seen))
  /\ (stmt Insert "ladm.LA_RRR" ev ->
      In (param 1 ev) (returned "ladm.LA_BAUnit" seen)
      /\ In (param 2 ev) (returned "ladm.LA_Party" seen))
  /\ (stmt Insert "ladm.TaxBill" ev ->
      In (param 1 ev) (returned "ladm.LA_BAUnit" seen)
      /\ In (param 2 ev) (returned "ladm.LA_Party" seen))
  /\ (stmt Insert "ladm.TaxPayment" ev ->
      In (VTuple [param 1 ev; param 2 ev])
         (returned_rows "ladm.TaxBill" seen))
  /\ (stmt Update "ladm.TaxBill" ev ->
      In (VTuple [param 0 ev; param 1 ev])
         (returned_rows "ladm.TaxBill" seen)).

(** Every event of [tr], met after [seen] and the events before it *)
Fixpoint fk_closed (seen tr : list event) : Prop :=
  match tr with
  | [] => True
  | ev :: rest => fk_ok seen ev /\ fk_closed (seen ++ [ev]) rest
  end.

(** ** The paid flags *)

(** The run of a script cut where the paid-flag loop is about to start *)
Definition before_flags_of (sc : script) (E : env) (N M K : Z)
  : outcome (list value) :=
  match sc with
  | SeederPy => Seeder.before_flags E N M K initial
  | SeederRcPy => SeederRC.before_flags E N M K initial
  end.

(** The values of [random.random()] that the paid-flag loop of a run
    reads, one per bill, in the order of the bills *)
Definition coin_draws (sc : script) (E : env) (num_parties num_parcels
  num_bills : Z) : list N :=
  match before_flags_of sc E num_parties num_parcels num_bills with
  | Ok bills s => draws E (rng_ix s) (List.length bills)
  | Raise _ _ => []
  end.

(** The keys (bill_date, bill_uid) named by the paid-flag updates *)
Definition marked_paid (tr : list event) : list value :=
  map (fun ev => VTuple [param 0 ev; param 1 ev])
      (select Update "ladm.TaxBill" tr).

(** The bills whose draw is below 0.5 *)
Definition heads (coins : list N) (bills : list value) : list value :=
  map snd (filter (fun cb => below_half (fst cb)) (combine coins bills)).

(** ** The text of a statement and its parameters *)

(** Occurrences of the placeholder [%s] in a literal *)
Fixpoint count_placeholders (s : string) : nat :=
  match s with
  | EmptyString => 0
  | String c rest =>
      match rest with
      | EmptyString => 0
      | String d _ =>
          if (Ascii.eqb c "%" && Ascii.eqb d "s")%bool
          then S (count_placeholders rest)
          else count_placeholders rest
      end
  end.

Definition placeholders (q : text) : nat :=
  list_sum (map (fun f => match f with
                          | Lit s => count_placeholders s
                          | Flt _ => 0
                          end) q).

(** The floats whose [str()] is spliced into the text *)
Definition interpolated (q : text) : list pyfloat :=
  flat_map (fun f => match f with Lit _ => [] | Flt x => [x] end) q.

Fixpoint after_open_paren (s : string) : string :=
  match s with
  | EmptyString => EmptyString
  | String c rest => if Ascii.eqb c "(" then rest else after_open_paren rest
  end.

Fixpoint commas_to_close (s : string) : nat :=
  match s with
  | EmptyString => 0
  | String c rest =>
      if Ascii.eqb c ")" then 0
      else if Ascii.eqb c "," then S (commas_to_close rest)
      else commas_to_close rest
  end.

(** Number of columns named in the column list of an INSERT *)
Definition columns (q : text) : nat :=
  match q with
  | Lit s :: _ => S (commas_to_close (after_open_paren s))
  | _ => 0
  end.

(** How a statement carries its values.  An insert into LA_SpatialUnit
    has the text of a point spliced into its query and binds the three
    other columns; every other statement has a constant text, and as many
    placeholders as parameters (for an insert, as many as columns). *)
Definition well_bound (q : text) (ps : list value) : Prop :=
  match classify q with
  | Some (Insert, t) =>
      if String.eqb t "ladm.LA_SpatialUnit" then
        (exists lng lat,
           q = spatial_sql (point_wkt lng lat)
           /\ interpolated q = [lng; lat])
        /\ placeholders q = 3 /\ List.length ps = 3 /\ columns q = 4
      else
        interpolated q = []
        /\ placeholders q = List.length ps /\ columns q = List.length ps
  | Some (Update, _) =>
      interpolated q = [] /\ placeholders q = List.length ps
  | None => False
  end.

(** The terms of a bill: due 30 days after its date, not paid, no
    supplemental assessment *)
Definition bill_terms (ev : event) : Prop :=
  stmt Insert "ladm.TaxBill" ev ->
  (exists d, param 0 ev = VDate d /\ param 3 ev = VDate (d + 30)%Z)
  /\ param 5 ev = VBool false
  /\ param 7 ev = VNone.

(** What every event of the seeding phases is *)
Definition lawful (ev : event) : Prop :=
  match ev with
  | EvPrint _ => True
  | EvExecute q ps _ => well_bound q ps /\ bill_terms ev
  | _ => False
  end.

(** [m], from any state and whatever its outcome, adds to the trace only
    events that satisfy [P], and what it returns satisfies [Q]. *)
Definition emits (P : event -> Prop) {A} (m : M A) (Q : A -> Prop) : Prop :=
  forall s,
    (exists evs, trace (final (m s)) = trace s ++ evs /\ Forall P evs)
    /\ match m s with Ok a _ => Q a | Raise _ _ => True end.

Definition any {A} : A -> Prop := fun _ => True.

(** A text that is the call of the two spatial functions on two floats *)
Definition is_point (g : text) : Prop :=
  exists lng lat, g = point_wkt lng lat.

(** ** The outcome of a run, whatever happens *)

(** The [try] block of a script *)
Definition try_block (sc : script) (E : env)
  (num_parties num_parcels num_bills : Z) : M unit :=
  match sc with
  | SeederPy => Seeder.seeding E num_parties num_parcels num_bills
  | SeederRcPy => SeederRC.seeding E num_parties num_parcels num_bills
  end.

(** The state in which the [try] block is entered *)
Definition connected : state := emit EvConnect initial.

Definition done_line : string := "=== Seeding Completed Successfully! ===".
Definition error_line : string :=
  "Error during seeding. Rolled back transaction.".

(** The four ways in which [seed_data] can end; [evs] are the events of
    the [try] block before the commit. *)
Inductive ending (E : env) (block : outcome unit) : outcome unit -> Prop :=
| end_no_connection e :
    db_connect E = Some e ->
    ending E block (Raise e initial)
| end_committed evs s1 s :
    db_connect E = None -> db_commit E = None ->
    block = Ok tt s1 ->
    Forall lawful evs ->
    trace s = EvConnect :: evs
              ++ [EvCommit; EvPrint done_line; EvCursorClose; EvConnClose] ->
    ending E block (Ok tt s)
| end_rolled_back e evs s1 s :
    db_connect E = None -> db_rollback E = None ->
    block = Raise e s1 ->
    Forall lawful evs ->
    trace s = EvConnect :: evs
              ++ [EvRollback; EvPrint error_line;
                  EvCursorClose; EvConnClose] ->
    ending E block (Raise e s)
| end_rollback_failed e e2 evs s1 s :
    db_connect E = None -> db_rollback E = Some e2 ->
    block = Raise e s1 ->
    Forall lawful evs ->
    trace s = EvConnect :: evs ++ [EvCursorClose; EvConnClose] ->
    ending E block (Raise e2 s).

(** [m] either returns after lawful events closed by the commit and the
    last line, or raises after lawful events only. *)
Definition commits_last (E : env) (m : M unit) : Prop :=
  forall s,
    match m s with
    | Ok _ s' =>
        db_commit E = None
        /\ exists evs, trace s' = trace s ++ evs
                                  ++ [EvCommit; EvPrint done_line]
                       /\ Forall lawful evs
    | Raise _ s' =>
        exists evs, trace s' = trace s ++ evs /\ Forall lawful evs
    end.

(** A statement carries its values as [well_bound] says. *)
Definition bound_event (ev : event) : Prop :=
  match ev with
  | EvExecute q ps _ => well_bound q ps
  | _ => True
  end.

(** ** Environments in which a run fails *)

(** The server goes away: every statement fails, and then so does the
    rollback on the dead connection. *)
Definition lost_connection_env : env :=
  mkEnv (rand sample_env) (fake_text sample_env) (fake_date sample_env)
        None (fun _ _ _ => inl (DbError 1)) None (Some (DbError 2)).

(** The first statement violates a constraint; the connection is fine. *)
Definition constraint_env : env :=
  mkEnv (rand sample_env) (fake_text sample_env) (fake_date sample_env)
        None (fun _ _ _ => inl (DbError 1)) None None.

(** The line that opens the bill phase *)
Definition bill_line : event := EvPrint "Inserting TaxBills...".

Definition not_bill_line (ev : event) : Prop := ev <> bill_line.

(** [m] raises from [s], the bill line not yet printed. *)
Definition dies {A} (m : M A) (s : state) : Prop :=
  (exists e s', m s = Raise e s') /\ ~ In bill_line (trace (final (m s))).

(** ** What the operator reads *)

(** The lines printed, in order *)
Definition printed (tr : list event) : list string :=
  flat_map (fun ev => match ev with EvPrint line => [line] | _ => [] end) tr.

(** The lines that announce the [try] block and its nine phases (phase 9
    prints one line for the payments and none for the paid flags) *)
Definition progress_lines : list string :=
  ["=== Seeding Start ===";
   "Inserting Parties...";
   "Inserting SpatialUnits...";
   "Inserting BAUnits...";
   "Inserting TaxRateArea & TaxRate...";
   "Inserting TaxAssessments...";
   "Inserting SupplementalAssessments...";
   "Inserting RRR (Ownership)...";
   "Inserting TaxBills...";
   "Inserting TaxPayments..."].

Definition prefix_of {A} (pre l : list A) : Prop := exists rest, l = pre ++ rest.

(** An event that is a statement *)
Definition statement (ev : event) : Prop := is_execute ev = true.

(** An event that is not a line *)
Definition no_line (ev : event) : Prop :=
  match ev with EvPrint _ => False | _ => True end.

(** [m] prints the lines [ls] and then [tail] when it returns, and the
    first few of [ls] when it raises. *)
Definition prints (ls tail : list string) {A} (m : M A) : Prop :=
  forall s,
    exists shown,
      printed (trace (final (m s))) = printed (trace s) ++ shown
      /\ match m s with
         | Ok _ _ => shown = ls ++ tail
         | Raise _ _ => prefix_of shown ls
         end.

(** The state in which [seed_data] ends after its [try] block ended in
    [block]: the handler on an exception, then the [finally] clause. *)
Definition closing (E : env) (block : outcome unit) : outcome unit :=
  match block with
  | Ok a s1 => Ok a (emit EvConnClose (emit EvCursorClose s1))
  | Raise e s1 =>
      match db_rollback E with
      | None =>
          Raise e (emit EvConnClose (emit EvCursorClose
                     (emit (EvPrint error_line) (emit EvRollback s1))))
      | Some e2 => Raise e2 (emit EvConnClose (emit EvCursorClose s1))
      end
  end.

(** ** Statements that need a parcel or a party *)

Definition not_bill (ev : event) : Prop :=
  is_stmt Insert "ladm.TaxBill" ev = false.

(** Neither a bill nor an ownership record *)
Definition not_owned (ev : event) : Prop :=
  not_bill ev /\ is_stmt Insert "ladm.LA_RRR" ev = false.

(** ** What the statements carry *)

Definition query (ev : event) : text :=
  match ev with EvExecute q _ _ => q | _ => [] end.

(** A string of [k] characters, all of [alphabet] *)
Definition code (alphabet : list ascii) (k : nat) (s : string) : Prop :=
  String.length s = k
  /\ Forall (fun c => In c alphabet) (list_ascii_of_string s).

(** A value of [random.uniform(a, b)], of the form [a + (b - a) * r] for a
    draw [r = u / 2^53] of [random.random()] *)
Definition drawn (a b f : pyfloat) : Prop :=
  exists u, (u < 2 ^ 53)%N /\ f = FAdd a (FMul (FSub b a) (FRandom u)).

(** The bounding box of a script: MIN_X, MAX_X, MIN_Y, MAX_Y *)
Definition bbox (sc : script) : pyfloat * pyfloat * pyfloat * pyfloat :=
  match sc with
  | SeederPy => (Seeder.MIN_X, Seeder.MAX_X, Seeder.MIN_Y, Seeder.MAX_Y)
  | SeederRcPy =>
      (SeederRC.MIN_X, SeederRC.MAX_X, SeederRC.MIN_Y, SeederRC.MAX_Y)
  end.

(** A point of the bounding box, longitude first *)
Definition in_bbox (sc : script) (lng lat : pyfloat) : Prop :=
  let '(min_x, max_x, min_y, max_y) := bbox sc in
  drawn min_x max_x lng /\ drawn min_y max_y lat.

(** One word, as [split()] cuts it *)
Definition word (w : string) : Prop :=
  w <> EmptyString
  /\ Forall (fun c => is_space c = false) (list_ascii_of_string w).

(** The address of a parcel: in [seeder.py] Faker's address with every
    line break replaced; in [seeder_rc.py] the two lines that
    [generate_riverside_address] composes. *)
Definition address_form (sc : script) (address : string) : Prop :=
  match sc with
  | SeederPy => ~ In newline (list_ascii_of_string address)
  | SeederRcPy =>
      exists street_num street_name suffix zip_code,
        address = (str_of_int street_num ++ " " ++ street_name ++ " "
                   ++ suffix
                   ++ String newline ("Riverside, CA " ++ zip_code))%string
        /\ (100 <= street_num <= 9999)%Z
        /\ word street_name
        /\ In suffix SeederRC.STREET_SUFFIXES
        /\ In zip_code SeederRC.RIVERSIDE_ZIP_CODES
  end.

(** What [generate_riverside_party party_type] returns *)
Definition riverside_party (party_type : string) (r : string * string)
  : Prop :=
  let '(party_name, actual_type) := r in
  (party_type = "Individual" /\ actual_type = "Individual")
  \/ (party_type = "Company" /\ actual_type = "Company"
      /\ In party_name SeederRC.RIVERSIDE_BUSINESSES)
  \/ (party_type <> "Individual" /\ party_type <> "Company"
      /\ actual_type = "GovAgency"
      /\ In party_name SeederRC.RIVERSIDE_AGENCIES).

Definition party_terms (sc : script) (ev : event) : Prop :=
  stmt Insert "ladm.LA_Party" ev ->
  exists party_name party_type ident,
    params ev = [VStr party_name; VStr party_type; VStr ident]
    /\ In party_type ["Individual"; "Company"; "GovAgency"]
    /\ code digits 9 ident
    /\ (sc = SeederRcPy ->
        (party_type = "Company" ->
         In party_name SeederRC.RIVERSIDE_BUSINESSES)
        /\ (party_type = "GovAgency" ->
            In party_name SeederRC.RIVERSIDE_AGENCIES)).

Definition spatial_terms (sc : script) (ev : event) : Prop :=
  stmt Insert "ladm.LA_SpatialUnit" ev ->
  exists lng lat address cad area,
    query ev = spatial_sql (point_wkt lng lat)
    /\ in_bbox sc lng lat
    /\ params ev = [VStr address; VStr ("CAD-" ++ cad); VFloat area]
    /\ address_form sc address
    /\ code digits 6 cad
    /\ drawn (FLit "200.0") (FLit "20000.0") area.

Definition baunit_terms (sc : script) (ev : event) : Prop :=
  stmt Insert "ladm.LA_BAUnit" ev ->
  exists letters a b c sid last,
    params ev = [VStr ("Parcel " ++ letters); sid;
                 VStr (a ++ "-" ++ b ++ "-" ++ c); last]
    /\ code ascii_uppercase 4 letters
    /\ code digits 3 a /\ code digits 3 b /\ code digits 3 c
    /\ match sc with
       | SeederPy => last = VNone
       | SeederRcPy =>
           exists household_size,
             (1 <= household_size <= 6)%Z
             /\ last = VStr ("Household Size: " ++ str_of_int household_size)
       end.

(** [1.0 + (random.random() * 0.1)] *)
Definition prop_13_factor (u : N) : pyfloat :=
  FAdd (FLit "1.0") (FMul (FRandom u) (FLit "0.1")).

Definition assessment_terms (ev : event) : Prop :=
  stmt Insert "ladm.TaxAssessment" ev ->
  exists buid assessment_year base_year base_val u roll_type used_rate,
    params ev = [buid; VInt assessment_year; VInt base_year; VFloat base_val;
                 VFloat (prop_13_factor u);
                 VFloat (FMul base_val (prop_13_factor u));
                 VStr roll_type; used_rate]
    /\ In assessment_year [2023; 2024; 2025]%Z
    /\ In base_year [2018; 2019; 2020]%Z
    /\ drawn (FLit "100000") (FLit "800000") base_val
    /\ (u < 2 ^ 53)%N
    /\ In roll_type ["Secured"; "Unsecured"].

Definition supplemental_terms (ev : event) : Prop :=
  stmt Insert "ladm.SupplementalAssessment" ev ->
  exists buid ev_date reason old_val bump used_rate,
    params ev = [buid; VDate ev_date; VStr reason; VFloat old_val;
                 VFloat (FAdd old_val bump);
                 VFloat (FSub (FAdd old_val bump) old_val); used_rate]
    /\ In reason ["ChangeOfOwnership"; "NewConstruction"]
    /\ drawn (FLit "100000") (FLit "600000") old_val
    /\ drawn (FLit "10000") (FLit "60000") bump.

Definition ownership_terms (ev : event) : Prop :=
  stmt Insert "ladm.LA_RRR" ev ->
  exists buid party_choice start_dt,
    params ev = [VStr "Ownership"; buid; party_choice; VDate start_dt].

Definition bill_values (ev : event) : Prop :=
  stmt Insert "ladm.TaxBill" ev ->
  exists bill_dt buid pid amt_due bill_type,
    params ev = [VDate bill_dt; buid; pid; VDate (bill_dt + 30)%Z;
                 VFloat amt_due; VBool false; VStr bill_type; VNone]
    /\ (1 <= bill_dt + 30 <= date_max)%Z
    /\ drawn (FLit "500") (FLit "5000") amt_due
    /\ In bill_type ["Annual"; "Supplemental"].

Definition payment_values (ev : event) : Prop :=
  stmt Insert "ladm.TaxPayment" ev ->
  exists pay_dt b_date b_uid amt_paid,
    params ev = [VDate pay_dt; b_date; b_uid; VFloat amt_paid]
    /\ drawn (FLit "50") (FLit "1000") amt_paid.

(** All of it, for the statements of script [sc] *)
Definition carries (sc : script) (ev : event) : Prop :=
  party_terms sc ev /\ spatial_terms sc ev /\ baunit_terms sc ev
  /\ assessment_terms ev /\ supplemental_terms ev /\ ownership_terms ev
  /\ bill_values ev /\ payment_values ev.

(** ** When a run returns *)

Fixpoint count_commas (s : string) : nat :=
  match s with
  | EmptyString => 0
  | String c rest =>
      if Ascii.eqb c "," then S (count_commas rest) else count_commas rest
  end.

(** The text that follows the first [RETURNING] of a literal *)
Fixpoint after_returning (s : string) : option string :=
  match s with
  | EmptyString => None
  | String _ rest =>
      if prefix "RETURNING " s then Some (after 10 s) else after_returning rest
  end.

(** Number of columns that the RETURNING clause of a statement names; 0
    when it has none.  The clause closes the text. *)
Definition returning_columns (q : text) : nat :=
  match last q (Lit "") with
  | Lit s =>
      match after_returning s with
      | Some cols => S (count_commas cols)
      | None => 0
      end
  | Flt _ => 0
  end.

(** An environment in which nothing goes wrong by itself: the database
    can be reached, accepts every statement, answers a RETURNING clause
    with a first row of one value per column named, and commits; Faker
    yields dates that lie 30 days or more before the last date that
    [datetime.date] can hold. *)
Definition obliging (E : env) : Prop :=
  db_connect E = None
  /\ db_commit E = None
  /\ (forall n q ps,
        exists rows,
          db_execute E n q ps = inr rows
          /\ (1 <= returning_columns q ->
              exists r rest,
                rows = r :: rest /\ List.length r = returning_columns q))
  /\ (forall n a b,
        exists d, fake_date E n a b = inr d /\ (1 <= d <= date_max - 30)%Z).

(** A database that answers every statement with one row of as many
    values as its RETURNING clause names *)
Definition obliging_db (n : nat) (q : text) (ps : list value)
  : exn + list row :=
  inr [repeat (VInt (Z.of_nat n)) (returning_columns q)].

Definition obliging_env : env :=
  mkEnv (rand sample_env) (fake_text sample_env)
        (fun n _ _ => inr (738000 + Z.of_nat (n mod 365))%Z)
        None obliging_db None None.

(** [m] returns from every state, with a value that satisfies [Q]. *)
Definition returns {A} (m : M A) (Q : A -> Prop) : Prop :=
  forall s, exists a s', m s = Ok a s' /\ Q a.

(** A bill as [fetchone()] hands it on: a row of two values *)
Definition bill_row (v : value) : Prop := exists a b, v = VTuple [a; b].

(** ** The texts of the statements *)

Definition baunit_sql_of (sc : script) : text :=
  match sc with
  | SeederPy => Seeder.baunit_sql
  | SeederRcPy => SeederRC.baunit_sql
  end.

(** The constant texts that the two scripts share *)
Definition common_texts : list text :=
  [party_sql; tra_sql; tax_rate_sql; assign_tra_sql; assessment_sql;
   supplemental_sql; rrr_sql; bill_sql; payment_sql; mark_paid_sql].

Definition known_text (sc : script) (ev : event) : Prop :=
  match ev with
  | EvExecute q _ _ =>
      (exists lng lat, q = spatial_sql (point_wkt lng lat))
      \/ q = baunit_sql_of sc
      \/ In q common_texts
  | _ => True
  end.

(** ** Calls and accepted statements *)

(** Number of statements of a trace; a trace holds the statements that
    the database accepted, and [db_ix] counts the calls of
    [cur.execute]. *)
Definition executes (tr : list event) : nat :=
  List.length (filter is_execute tr).

(** Every call made so far was accepted. *)
Definition settled (s : state) : Prop := db_ix s = executes (trace s).

(** The last call made was rejected with [e], and it is the only one. *)
Definition rejected (E : env) (e : exn) (s : state) : Prop :=
  db_ix s = S (executes (trace s))
  /\ exists q ps, db_execute E (executes (trace s)) q ps = inl e.

(** [m] stops at the first statement that the database rejects. *)
Definition fail_fast (E : env) {A} (m : M A) : Prop :=
  forall s,
    settled s ->
    match m s with
    | Ok _ s' => settled s'
    | Raise e s' => settled s' \/ rejected E e s'
    end.

(** [m] makes no call and adds no statement. *)
Definition no_call {A} (m : M A) : Prop :=
  forall s,
    db_ix (final (m s)) = db_ix s
    /\ executes (trace (final (m s))) = executes (trace s).

(** * Properties *)

(** ** The monad *)

Lemma bind_Ok {A B} (m : M A) (k : A -> M B) s b s' :
  bind m k s = Ok b s' ->
  exists a s1, m s = Ok a s1 /\ k a s1 = Ok b s'.
Proof.
  unfold bind. destruct (m s) as [a s1|e s1]; [|discriminate].
  intros H. exists a, s1. split; [reflexivity|exact H].
Qed.

Lemma bind_Raise {A B} (m : M A) (k : A -> M B) s e s' :
  bind m k s = Raise e s' ->
  m s = Raise e s' \/ exists a s1, m s = Ok a s1 /\ k a s1 = Raise e s'.
Proof.
  unfold bind. destruct (m s) as [a s1|e1 s1]; intros H.
  - right. exists a, s1. split; [reflexivity|exact H].
  - left. inversion H; subst. reflexivity.
Qed.

Lemma ret_Ok {A} (a b : A) s s' : ret a s = Ok b s' -> b = a /\ s' = s.
Proof. unfold ret. intros H. inversion H. split; reflexivity. Qed.

Lemma for_in_Ok {A B} (body : A -> M B) (R : A -> B -> list event -> Prop) :
  (forall x s r s', body x s = Ok r s' ->
     exists evs, trace s' = trace s ++ evs /\ R x r evs) ->
  forall l s rs s', for_in l body s = Ok rs s' ->
    exists evss, trace s' = trace s ++ List.concat evss /\ Forall3 R l rs evss.
Proof.
  intros Hbody. induction l as [|x xs IH]; simpl; intros s rs s' H.
  - apply ret_Ok in H. destruct H as [-> ->].
    exists []. simpl. rewrite app_nil_r. split; [reflexivity|constructor].
  - apply bind_Ok in H. destruct H as (r & s1 & Hb & H).
    apply bind_Ok in H. destruct H as (rs' & s2 & Hl & H).
    apply ret_Ok in H. destruct H as [-> ->].
    destruct (Hbody _ _ _ _ Hb) as (evs & Ht & HR).
    destruct (IH _ _ _ Hl) as (evss & Ht' & HF).
    exists (evs :: evss). simpl. split.
    + rewrite Ht', Ht, app_assoc. reflexivity.
    + constructor; assumption.
Qed.

Lemma Forall3_length {A B C} (R : A -> B -> C -> Prop) l1 l2 l3 :
  Forall3 R l1 l2 l3 ->
  List.length l2 = List.length l1 /\ List.length l3 = List.length l1.
Proof.
  induction 1; simpl; [split; reflexivity|].
  destruct IHForall3 as [-> ->]. split; reflexivity.
Qed.

Lemma Forall3_impl {A B C} (R R' : A -> B -> C -> Prop) l1 l2 l3 :
  (forall x y z, R x y z -> R' x y z) ->
  Forall3 R l1 l2 l3 -> Forall3 R' l1 l2 l3.
Proof. intros HR. induction 1; constructor; auto. Qed.

(** ** The libraries: what a call that returns has done *)

Section LibraryFacts.

Variable E : env.

Lemma randbelow_Ok n s i s' :
  randbelow E n s = Ok i s' ->
  i < n /\ trace s' = trace s /\ rng_ix s' = S (rng_ix s).
Proof.
  unfold randbelow. destruct n as [|n]; [discriminate|].
  intros H. inversion H; subst. clear H. simpl. repeat split.
  pose proof (N.mod_upper_bound (rand E (rng_ix s)) (N.of_nat (S n))) as Hb.
  lia.
Qed.

Lemma random_random_Ok s u s' :
  random_random E s = Ok u s' ->
  trace s' = trace s /\ u = (rand E (rng_ix s) mod 2 ^ 53)%N
  /\ rng_ix s' = S (rng_ix s).
Proof.
  unfold random_random. intros H. inversion H; subst. simpl. auto.
Qed.

Lemma random_uniform_Ok a b s f s' :
  random_uniform E a b s = Ok f s' -> trace s' = trace s.
Proof.
  unfold random_uniform. intros H.
  apply bind_Ok in H. destruct H as (u & s1 & Hu & H).
  apply ret_Ok in H. destruct H as [-> ->].
  apply random_random_Ok in Hu. tauto.
Qed.

Lemma random_choice_Ok {A} (l : list A) s x s' :
  random_choice E l s = Ok x s' -> In x l /\ trace s' = trace s.
Proof.
  unfold random_choice. destruct l as [|y ys]; [discriminate|].
  intros H. apply bind_Ok in H. destruct H as (i & s1 & Hi & H).
  apply randbelow_Ok in Hi. destruct Hi as (_ & Ht & _).
  destruct (nth_error (y :: ys) i) as [z|] eqn:Hn; [|discriminate].
  apply ret_Ok in H. destruct H as [-> ->].
  split; [eapply nth_error_In; eassumption|exact Ht].
Qed.

Lemma random_choices_Ok {A} (l : list A) k s xs s' :
  random_choices E l k s = Ok xs s' -> trace s' = trace s.
Proof.
  unfold random_choices. intros H.
  apply (for_in_Ok _ (fun _ _ evs => evs = [])) in H.
  - destruct H as (evss & Ht & HF). rewrite Ht.
    assert (List.concat evss = []) as ->; [|apply app_nil_r].
    clear Ht. induction HF; simpl; [reflexivity|]. subst. assumption.
  - intros _ s0 r s1 Hc. apply random_choice_Ok in Hc. destruct Hc as [_ Ht].
    exists []. rewrite app_nil_r. auto.
Qed.

Lemma random_randint_Ok a b s z s' :
  random_randint E a b s = Ok z s' ->
  (a <= z <= b)%Z /\ trace s' = trace s.
Proof.
  unfold random_randint. destruct (b <? a)%Z eqn:Hab; [discriminate|].
  intros H. apply bind_Ok in H. destruct H as (i & s1 & Hi & H).
  apply ret_Ok in H. destruct H as [-> ->].
  apply randbelow_Ok in Hi. destruct Hi as (Hlt & Ht & _).
  apply Z.ltb_ge in Hab. split; [lia|exact Ht].
Qed.

Lemma remove_nth_perm {A} (l : list A) : forall j x,
  nth_error l j = Some x -> Permutation (x :: remove_nth j l) l.
Proof.
  induction l as [|y ys IH]; intros [|j] x H; simpl in *; try discriminate.
  - inversion H; subst. reflexivity.
  - rewrite perm_swap. constructor. apply IH. exact H.
Qed.

Lemma sample_from_Ok {A} k : forall (pool : list A) s xs s',
  sample_from E pool k s = Ok xs s' ->
  trace s' = trace s /\ List.length xs = k
  /\ exists rest, Permutation (xs ++ rest) pool.
Proof.
  induction k as [|k IH]; simpl; intros pool s xs s' H.
  - apply ret_Ok in H. destruct H as [-> ->].
    repeat split. exists pool. reflexivity.
  - apply bind_Ok in H. destruct H as (j & s1 & Hj & H).
    apply randbelow_Ok in Hj. destruct Hj as (_ & Ht & _).
    destruct (nth_error pool j) as [x|] eqn:Hn; [|discriminate].
    apply bind_Ok in H. destruct H as (rest & s2 & Hr & H).
    apply ret_Ok in H. destruct H as [-> ->].
    apply IH in Hr. destruct Hr as (Ht' & Hlen & others & Hp).
    split; [congruence|]. split; [simpl; congruence|].
    exists others. simpl. rewrite Hp. apply remove_nth_perm. exact Hn.
Qed.

Lemma random_sample_Ok {A} (l : list A) k s xs s' :
  random_sample E l k s = Ok xs s' ->
  trace s' = trace s /\ List.length xs = k
  /\ exists rest, Permutation (xs ++ rest) l.
Proof.
  unfold random_sample. destruct (List.length l <? k)%nat; [discriminate|].
  apply sample_from_Ok.
Qed.

Lemma fake_string_Ok s x s' :
  fake_string E s = Ok x s' -> trace s' = trace s.
Proof. unfold fake_string. intros H. inversion H; subst. reflexivity. Qed.

Lemma fake_date_between_Ok a b s d s' :
  fake_date_between E a b s = Ok d s' -> trace s' = trace s.
Proof.
  unfold fake_date_between.
  destruct (fake_date E (fk_ix s) a b); [discriminate|].
  intros H. inversion H; subst. reflexivity.
Qed.

Lemma date_add_days_Ok d n s r s' :
  date_add_days d n s = Ok r s' -> r = (d + n)%Z /\ s' = s.
Proof.
  unfold date_add_days.
  destruct ((1 <=? d + n) && (d + n <=? date_max))%Z; [|discriminate].
  apply ret_Ok.
Qed.

Lemma execute_Ok q ps s u s' :
  execute E q ps s = Ok u s' ->
  exists rows, trace s' = trace s ++ [EvExecute q ps rows]
               /\ cur_rows s' = rows.
Proof.
  unfold execute. destruct (db_execute E (db_ix s) q ps) as [e|rows];
    [discriminate|].
  intros H. inversion H; subst. exists rows. split; reflexivity.
Qed.

Lemma fetchone_Ok s v s' :
  fetchone s = Ok v s' -> trace s' = trace s /\ v = first_row (cur_rows s).
Proof.
  unfold fetchone. destruct (cur_rows s) as [|r rest];
    intros H; inversion H; subst; split; reflexivity.
Qed.

Lemma index0_Ok v s x s' :
  index0 v s = Ok x s' -> s' = s /\ exists rest, v = VTuple (x :: rest).
Proof.
  unfold index0. destruct v as [| | | | | |items]; try discriminate.
  destruct items as [|y ys]; [discriminate|].
  intros H. apply ret_Ok in H. destruct H as [-> ->].
  split; [reflexivity|]. exists ys. reflexivity.
Qed.

Lemma unpack2_Ok v s p s' :
  unpack2 v s = Ok p s' -> s' = s /\ v = VTuple [fst p; snd p].
Proof.
  unfold unpack2. destruct v as [| | | | | |items]; try discriminate.
  destruct items as [|a [|b [|c r]]]; try discriminate.
  intros H. apply ret_Ok in H. destruct H as [-> ->]. split; reflexivity.
Qed.

(** [cur.execute(...)] followed by [cur.fetchone()[0]] *)
Lemma returning_Ok q ps s id s' :
  (execute E q ps ;; r <- fetchone ;; index0 r) s = Ok id s' ->
  exists rows, trace s' = trace s ++ [EvExecute q ps rows]
               /\ first_col rows = Some id.
Proof.
  intros H. apply bind_Ok in H. destruct H as (u & s1 & Hx & H).
  apply bind_Ok in H. destruct H as (r & s2 & Hf & H).
  apply execute_Ok in Hx. destruct Hx as (rows & Ht & Hc).
  apply fetchone_Ok in Hf. destruct Hf as (Ht2 & ->).
  apply index0_Ok in H. destruct H as (-> & rest & Hv).
  exists rows. split; [congruence|].
  rewrite Hc in Hv. destruct rows as [|r0 rows']; simpl in Hv; [discriminate|].
  inversion Hv; subst. reflexivity.
Qed.

Lemma random_string_Ok alphabet k s x s' :
  random_string E alphabet k s = Ok x s' -> trace s' = trace s.
Proof.
  unfold random_string. intros H.
  apply bind_Ok in H. destruct H as (cs & s1 & Hc & H).
  apply ret_Ok in H. destruct H as [-> ->].
  eapply random_choices_Ok. eassumption.
Qed.

End LibraryFacts.

(** ** The phases, when they complete *)

Lemma print_Ok line s u s' :
  print line s = Ok u s' -> trace s' = trace s ++ [EvPrint line].
Proof. unfold print. intros H. inversion H; subst. reflexivity. Qed.

Lemma first_row_col rows x rest :
  first_row rows = VTuple (x :: rest) -> first_col rows = Some x.
Proof.
  destruct rows as [|r rows]; simpl; [discriminate|].
  intros H. inversion H; subst. reflexivity.
Qed.

Lemma for_in_Ok1 {A B} (body : A -> M B) (R : A -> B -> event -> Prop) :
  (forall x s r s', body x s = Ok r s' ->
     exists ev, trace s' = trace s ++ [ev] /\ R x r ev) ->
  forall l s rs s', for_in l body s = Ok rs s' ->
    exists evs, trace s' = trace s ++ evs /\ Forall3 R l rs evs.
Proof.
  intros Hbody. induction l as [|x xs IH]; simpl; intros s rs s' H.
  - apply ret_Ok in H. destruct H as [-> ->].
    exists []. rewrite app_nil_r. split; [reflexivity|constructor].
  - apply bind_Ok in H. destruct H as (r & s1 & Hb & H).
    apply bind_Ok in H. destruct H as (rs' & s2 & Hl & H).
    apply ret_Ok in H. destruct H as [-> ->].
    destruct (Hbody _ _ _ _ Hb) as (ev & Ht & HR).
    destruct (IH _ _ _ Hl) as (evs & Ht' & HF).
    exists (ev :: evs). split.
    + rewrite Ht', Ht, <- app_assoc. reflexivity.
    + constructor; assumption.
Qed.

Lemma Forall3_drop1 {A B C} (R : B -> C -> Prop) (l1 : list A) l2 l3 :
  Forall3 (fun _ y z => R y z) l1 l2 l3 -> Forall2 R l2 l3.
Proof. induction 1; constructor; assumption. Qed.

Lemma Forall3_drop2 {A B C} (R : A -> C -> Prop) l1 (l2 : list B) l3 :
  Forall3 (fun x _ z => R x z) l1 l2 l3 -> Forall2 R l1 l3.
Proof. induction 1; constructor; assumption. Qed.

Lemma range_length n : List.length (range n) = Z.to_nat n.
Proof. unfold range. apply repeat_length. Qed.

(** One step of reading a hypothesis [m s = Ok r s']. *)
Ltac inv1 :=
  match goal with
  | H : bind _ _ _ = Ok _ _ |- _ =>
      apply bind_Ok in H; destruct H as (? & ? & ? & H)
  | H : ret _ _ = Ok _ _ |- _ =>
      apply ret_Ok in H; destruct H as [? ?]; subst
  | H : print _ _ = Ok _ _ |- _ => apply print_Ok in H
  | H : random_choice _ _ _ = Ok _ _ |- _ =>
      apply random_choice_Ok in H; destruct H as [? ?]
  | H : random_uniform _ _ _ _ = Ok _ _ |- _ => apply random_uniform_Ok in H
  | H : random_random _ _ = Ok _ _ |- _ =>
      apply random_random_Ok in H; destruct H as (? & ? & ?)
  | H : random_string _ _ _ _ = Ok _ _ |- _ => apply random_string_Ok in H
  | H : random_randint _ _ _ _ = Ok _ _ |- _ =>
      apply random_randint_Ok in H; destruct H as [? ?]
  | H : fake_name _ _ = Ok _ _ |- _ => apply fake_string_Ok in H
  | H : fake_address _ _ = Ok _ _ |- _ => apply fake_string_Ok in H
  | H : fake_street_name _ _ = Ok _ _ |- _ => apply fake_string_Ok in H
  | H : fake_date_between _ _ _ _ = Ok _ _ |- _ =>
      apply fake_date_between_Ok in H
  | H : date_add_days _ _ _ = Ok _ _ |- _ =>
      apply date_add_days_Ok in H; destruct H as [? ?]; subst
  | H : execute _ _ _ _ = Ok _ _ |- _ =>
      apply execute_Ok in H; destruct H as (? & ? & ?)
  | H : fetchone _ = Ok _ _ |- _ =>
      apply fetchone_Ok in H; destruct H as [? ?]
  | H : index0 _ _ = Ok _ _ |- _ =>
      apply index0_Ok in H; destruct H as (? & ? & ?)
  | H : unpack2 _ _ = Ok _ _ |- _ =>
      apply unpack2_Ok in H; destruct H as [? ?]
  end.

(** Follow the equations between traces back to the first state. *)
Ltac chase :=
  repeat match goal with
         | H : trace ?a = _ |- context [trace ?a] => rewrite H
         end.

Ltac inv_ok := repeat inv1; subst.

(** A conjunction of facts at hand *)
Ltac conjs :=
  repeat match goal with |- _ /\ _ => split end;
  first [reflexivity | assumption].

(** Equations between concatenations of the same pieces *)
Ltac list_eq :=
  repeat (progress (simpl; rewrite <- ?app_assoc)); reflexivity.

Section PhaseFacts.

Variable E : env.

Lemma returning_body_Ok q ps t :
  classify q = Some (Insert, t) ->
  forall s id s',
    (execute E q ps ;; r <- fetchone ;; index0 r) s = Ok id s' ->
    exists ev, trace s' = trace s ++ [ev]
               /\ returning_ev t id ev /\ params ev = ps.
Proof.
  intros Hq s id s' H. apply returning_Ok in H.
  destruct H as (rows & Ht & Hc).
  exists (EvExecute q ps rows). split; [exact Ht|].
  split; [|reflexivity]. split; [|exact Hc].
  unfold stmt, is_stmt. rewrite Hq. simpl. apply String.eqb_refl.
Qed.

Lemma insert_tax_rate_areas_Ok s d s' :
  insert_tax_rate_areas E s = Ok d s' ->
  exists ids evs,
    trace s' = trace s ++ evs
    /\ Forall2 (returning_ev "ladm.TaxRateArea") ids evs
    /\ List.length ids = 3 /\ dict_values d = ids.
Proof.
  unfold insert_tax_rate_areas. intros H.
  apply bind_Ok in H. destruct H as (pairs & s1 & Hl & H).
  apply ret_Ok in H. destruct H as [-> ->].
  apply (for_in_Ok1 _ (fun cd r ev =>
           fst r = fst cd /\ returning_ev "ladm.TaxRateArea" (snd r) ev))
    in Hl.
  - destruct Hl as (evs & Ht & HF). unfold tra_codes in HF.
    inversion HF as [|? ? ? ? ? ? [Hk1 H1] HF1]; subst.
    inversion HF1 as [|? ? ? ? ? ? [Hk2 H2] HF2]; subst.
    inversion HF2 as [|? ? ? ? ? ? [Hk3 H3] HF3]; subst.
    inversion HF3; subst.
    destruct y as [k1 v1], y0 as [k2 v2], y1 as [k3 v3]. simpl in *. subst.
    exists [v1; v2; v3], [z; z0; z1]. split; [exact Ht|].
    split; [|split; reflexivity].
    constructor; [exact H1|]. constructor; [exact H2|].
    constructor; [exact H3|]. constructor.
  - intros [code desc] s0 r s2 Hb.
    apply bind_Ok in Hb. destruct Hb as (u & s3 & Hx & Hb).
    apply bind_Ok in Hb. destruct Hb as (v & s4 & Hf & Hb).
    apply bind_Ok in Hb. destruct Hb as (id & s5 & Hi & Hb).
    apply ret_Ok in Hb. destruct Hb as [-> ->].
    assert ((execute E tra_sql [VStr code; VStr desc] ;;
             r <- fetchone ;; index0 r) s0 = Ok id s5) as Hall.
    { unfold bind. rewrite Hx, Hf. exact Hi. }
    apply (returning_body_Ok _ _ "ladm.TaxRateArea") in Hall;
      [|reflexivity].
    destruct Hall as (ev & Ht & Hr & _). exists ev. simpl. auto.
Qed.

Lemma insert_tax_rates_Ok s ids s' :
  insert_tax_rates E s = Ok ids s' ->
  exists evs,
    trace s' = trace s ++ evs
    /\ Forall2 (returning_ev "ladm.TaxRate") ids evs
    /\ List.length ids = 3.
Proof.
  unfold insert_tax_rates. intros H.
  apply (for_in_Ok1 _ (fun _ id ev => returning_ev "ladm.TaxRate" id ev))
    in H.
  - destruct H as (evs & Ht & HF). exists evs. split; [exact Ht|].
    split; [eapply Forall3_drop1; exact HF|].
    apply Forall3_length in HF. destruct HF as [-> _]. reflexivity.
  - intros [[[name val] eff] exp] s0 r s2 Hb.
    apply (returning_body_Ok _ _ "ladm.TaxRate") in Hb; [|reflexivity].
    destruct Hb as (ev & Ht & Hr & _). exists ev. auto.
Qed.

Lemma stmt_intro q ps rows v t :
  classify q = Some (v, t) -> stmt v t (EvExecute q ps rows).
Proof.
  intros Hq. unfold stmt, is_stmt. rewrite Hq.
  destruct v; simpl; apply String.eqb_refl.
Qed.

Lemma assign_tra_Ok d baunit_ids s us s' :
  assign_tra E d baunit_ids s = Ok us s' ->
  exists evs,
    trace s' = trace s ++ evs
    /\ Forall2 (assign_ev (dict_values d)) baunit_ids evs.
Proof.
  unfold assign_tra. intros H.
  apply (for_in_Ok1 _ (fun buid _ ev => assign_ev (dict_values d) buid ev))
    in H.
  - destruct H as (evs & Ht & HF). exists evs. split; [exact Ht|].
    eapply Forall3_drop2. exact HF.
  - intros buid s0 r s2 Hb. inv_ok.
    eexists. split; [chase; reflexivity|].
    split; [apply stmt_intro; reflexivity|]. split; [assumption|reflexivity].
Qed.

End PhaseFacts.

Section LaterPhaseFacts.

Variable E : env.

Lemma tax_rate_phase_Ok baunit_ids s rate_ids s' :
  tax_rate_phase E baunit_ids s = Ok rate_ids s' ->
  exists tra_ids evTra evRate evAssign,
    trace s' = trace s ++ EvPrint "Inserting TaxRateArea & TaxRate..."
                 :: evTra ++ evRate ++ evAssign
    /\ Forall2 (returning_ev "ladm.TaxRateArea") tra_ids evTra
    /\ List.length tra_ids = 3
    /\ Forall2 (returning_ev "ladm.TaxRate") rate_ids evRate
    /\ List.length rate_ids = 3
    /\ Forall2 (assign_ev tra_ids) baunit_ids evAssign.
Proof.
  unfold tax_rate_phase. intros H.
  apply bind_Ok in H. destruct H as (u & s1 & Hp & H).
  apply bind_Ok in H. destruct H as (d & s2 & Ha & H).
  apply bind_Ok in H. destruct H as (ids & s3 & Hr & H).
  apply bind_Ok in H. destruct H as (us & s4 & Hs & H).
  apply ret_Ok in H. destruct H as [-> ->].
  apply print_Ok in Hp.
  apply insert_tax_rate_areas_Ok in Ha.
  destruct Ha as (tra_ids & evTra & Ht1 & HF1 & Hl1 & Hd).
  apply insert_tax_rates_Ok in Hr. destruct Hr as (evRate & Ht2 & HF2 & Hl2).
  apply assign_tra_Ok in Hs. destruct Hs as (evAssign & Ht3 & HF3).
  rewrite Hd in HF3.
  exists tra_ids, evTra, evRate, evAssign.
  split; [|auto]. rewrite Ht3, Ht2, Ht1, Hp.
  rewrite <- !app_assoc. reflexivity.
Qed.

Lemma assessment_phase_Ok baunit_ids rate_ids s us s' :
  assessment_phase E baunit_ids rate_ids s = Ok us s' ->
  exists evs,
    trace s' = trace s ++ EvPrint "Inserting TaxAssessments..." :: evs
    /\ Forall2 (assess_ev rate_ids) baunit_ids evs.
Proof.
  unfold assessment_phase. intros H.
  apply bind_Ok in H. destruct H as (u & s1 & Hp & H). apply print_Ok in Hp.
  apply (for_in_Ok1 _ (fun buid _ ev => assess_ev rate_ids buid ev)) in H.
  - destruct H as (evs & Ht & HF). exists evs. split.
    + rewrite Ht, Hp, <- app_assoc. reflexivity.
    + eapply Forall3_drop2. exact HF.
  - intros buid s0 r s2 Hb. inv_ok.
    eexists. split; [chase; reflexivity|].
    split; [apply stmt_intro; reflexivity|]. split; [reflexivity|assumption].
Qed.

Lemma supplemental_phase_Ok baunit_ids rate_ids s us s' :
  supplemental_phase E baunit_ids rate_ids s = Ok us s' ->
  exists supp unsupp evs,
    trace s' = trace s
               ++ EvPrint "Inserting SupplementalAssessments..." :: evs
    /\ Permutation (supp ++ unsupp) baunit_ids
    /\ List.length supp = Nat.min (List.length baunit_ids / 5) 10
    /\ Forall2 (supp_ev rate_ids) supp evs.
Proof.
  unfold supplemental_phase. intros H.
  apply bind_Ok in H. destruct H as (u & s1 & Hp & H). apply print_Ok in Hp.
  apply bind_Ok in H. destruct H as (supp & s2 & Hs & H).
  apply random_sample_Ok in Hs. destruct Hs as (Ht2 & Hlen & unsupp & Hperm).
  apply (for_in_Ok1 _ (fun buid _ ev => supp_ev rate_ids buid ev)) in H.
  - destruct H as (evs & Ht & HF). exists supp, unsupp, evs. split.
    + rewrite Ht, Ht2, Hp, <- app_assoc. reflexivity.
    + split; [exact Hperm|]. split; [exact Hlen|].
      eapply Forall3_drop2. exact HF.
  - intros buid s0 r s3 Hb. inv_ok.
    eexists. split; [chase; reflexivity|].
    split; [apply stmt_intro; reflexivity|]. split; [reflexivity|assumption].
Qed.

Lemma rrr_phase_Ok baunit_ids party_ids s us s' :
  rrr_phase E baunit_ids party_ids s = Ok us s' ->
  exists evs,
    trace s' = trace s ++ EvPrint "Inserting RRR (Ownership)..." :: evs
    /\ Forall2 (rrr_ev party_ids) baunit_ids evs.
Proof.
  unfold rrr_phase. intros H.
  apply bind_Ok in H. destruct H as (u & s1 & Hp & H). apply print_Ok in Hp.
  apply (for_in_Ok1 _ (fun buid _ ev => rrr_ev party_ids buid ev)) in H.
  - destruct H as (evs & Ht & HF). exists evs. split.
    + rewrite Ht, Hp, <- app_assoc. reflexivity.
    + eapply Forall3_drop2. exact HF.
  - intros buid s0 r s2 Hb. inv_ok.
    eexists. split; [chase; reflexivity|].
    split; [apply stmt_intro; reflexivity|]. split; [reflexivity|assumption].
Qed.

Lemma bill_phase_Ok baunit_ids party_ids K s bills s' :
  bill_phase E baunit_ids party_ids K s = Ok bills s' ->
  exists evs,
    trace s' = trace s ++ EvPrint "Inserting TaxBills..." :: evs
    /\ Forall2 (bill_ev baunit_ids party_ids) bills evs
    /\ List.length bills = Z.to_nat K.
Proof.
  unfold bill_phase. intros H.
  apply bind_Ok in H. destruct H as (u & s1 & Hp & H). apply print_Ok in Hp.
  apply (for_in_Ok1 _ (fun _ b ev => bill_ev baunit_ids party_ids b ev)) in H.
  - destruct H as (evs & Ht & HF). exists evs. split.
    + rewrite Ht, Hp, <- app_assoc. reflexivity.
    + split; [eapply Forall3_drop1; exact HF|].
      apply Forall3_length in HF. destruct HF as [-> _]. apply range_length.
  - intros _ s0 r s2 Hb. inv_ok.
    eexists. split; [chase; reflexivity|].
    split; [apply stmt_intro; reflexivity|].
    repeat split; try assumption.
    eexists. split; reflexivity.
Qed.

Lemma payment_phase_Ok bills s us s' :
  payment_phase E bills s = Ok us s' ->
  exists picked unpicked evss,
    trace s' = trace s
               ++ EvPrint "Inserting TaxPayments..." :: List.concat evss
    /\ Permutation (picked ++ unpicked) bills
    /\ List.length picked = List.length bills / 2
    /\ Forall2 pay_evs picked evss.
Proof.
  unfold payment_phase. intros H.
  apply bind_Ok in H. destruct H as (u & s1 & Hp & H). apply print_Ok in Hp.
  apply bind_Ok in H. destruct H as (picked & s2 & Hs & H).
  apply random_sample_Ok in Hs.
  destruct Hs as (Ht2 & Hlen & unpicked & Hperm).
  apply (for_in_Ok _ (fun b _ evs => pay_evs b evs)) in H.
  - destruct H as (evss & Ht & HF). exists picked, unpicked, evss. split.
    + rewrite Ht, Ht2, Hp, <- app_assoc. reflexivity.
    + split; [exact Hperm|]. split; [exact Hlen|].
      eapply Forall3_drop2. exact HF.
  - intros bill s0 r s3 Hb.
    apply bind_Ok in Hb. destruct Hb as ([b_date b_uid] & s4 & Hu & Hb).
    apply unpack2_Ok in Hu. simpl in Hu. destruct Hu as [-> ->].
    apply bind_Ok in Hb. destruct Hb as (how_many & s5 & Hh & Hb).
    apply random_randint_Ok in Hh. destruct Hh as [Hrange Ht5].
    apply (for_in_Ok1 _ (fun _ _ ev => pay_ev b_date b_uid ev)) in Hb.
    + destruct Hb as (evs & Ht & HF). exists evs.
      split; [rewrite Ht, Ht5; reflexivity|].
      exists b_date, b_uid. split; [reflexivity|].
      pose proof (Forall3_length _ _ _ _ HF) as [_ Hl].
      rewrite range_length in Hl. split; [lia|].
      clear - HF. induction HF; constructor; assumption.
    + intros _ s6 r0 s7 Hb2. inv_ok.
      eexists. split; [chase; reflexivity|].
      split; [apply stmt_intro; reflexivity|]. split; reflexivity.
Qed.

Lemma through_payments_Ok party_ids baunit_ids K s bills s' :
  through_payments E party_ids baunit_ids K s = Ok bills s' ->
  exists evs,
    trace s' = trace s ++ evs
    /\ through_shape party_ids baunit_ids K bills evs.
Proof.
  unfold through_payments. intros H.
  apply bind_Ok in H. destruct H as (rate_ids & s1 & H1 & H).
  apply bind_Ok in H. destruct H as (u2 & s2 & H2 & H).
  apply bind_Ok in H. destruct H as (u3 & s3 & H3 & H).
  apply bind_Ok in H. destruct H as (u4 & s4 & H4 & H).
  apply bind_Ok in H. destruct H as (bs & s5 & H5 & H).
  apply bind_Ok in H. destruct H as (u6 & s6 & H6 & H).
  apply ret_Ok in H. destruct H as [-> ->].
  apply tax_rate_phase_Ok in H1.
  destruct H1 as (tra_ids & evTra & evRate & evAssign & Ht1 & A1 & A2 & A3
                  & A4 & A5).
  apply assessment_phase_Ok in H2. destruct H2 as (evAssess & Ht2 & B1).
  apply supplemental_phase_Ok in H3.
  destruct H3 as (supp & unsupp & evSupp & Ht3 & C1 & C2 & C3).
  apply rrr_phase_Ok in H4. destruct H4 as (evRRR & Ht4 & D1).
  apply bill_phase_Ok in H5. destruct H5 as (evBill & Ht5 & F1 & F2).
  apply payment_phase_Ok in H6.
  destruct H6 as (picked & unpicked & evPay & Ht6 & G1 & G2 & G3).
  eexists. split.
  - rewrite Ht6, Ht5, Ht4, Ht3, Ht2, Ht1. rewrite <- !app_assoc.
    reflexivity.
  - exists tra_ids, rate_ids, evTra, evRate, evAssign, evAssess,
      supp, unsupp, evSupp, evRRR, evBill, picked, unpicked, evPay.
    split; [list_eq|]. repeat (split; [assumption|]). assumption.
Qed.

Lemma draws_S i n :
  draws E i (S n) = (rand E i mod 2 ^ 53)%N :: draws E (S i) n.
Proof.
  unfold draws. simpl. rewrite Nat.add_0_r. f_equal.
  rewrite <- seq_shift, map_map. apply map_ext. intros j.
  rewrite Nat.add_succ_r. reflexivity.
Qed.

Lemma execute_rng q ps s u s' :
  execute E q ps s = Ok u s' -> rng_ix s' = rng_ix s.
Proof.
  unfold execute. destruct (db_execute E (db_ix s) q ps); [discriminate|].
  intros H. inversion H; subst. reflexivity.
Qed.

Lemma mark_paid_Ok bills : forall s us s',
  mark_paid E bills s = Ok us s' ->
  exists evs,
    trace s' = trace s ++ evs
    /\ flag_events (draws E (rng_ix s) (List.length bills)) bills evs.
Proof.
  unfold mark_paid.
  induction bills as [|b bs IH]; intros s us s' H; cbn [for_in] in H.
  - apply ret_Ok in H. destruct H as [-> ->].
    exists []. rewrite app_nil_r. split; reflexivity.
  - apply bind_Ok in H. destruct H as (r & s1 & Hb & H).
    apply bind_Ok in H. destruct H as (rs & s2 & Hl & H).
    apply ret_Ok in H. destruct H as [-> ->].
    apply bind_Ok in Hb. destruct Hb as ([b_date b_uid] & s3 & Hu & Hb).
    apply unpack2_Ok in Hu. simpl in Hu. destruct Hu as [-> ->].
    apply bind_Ok in Hb. destruct Hb as (u & s4 & Hr & Hb).
    apply random_random_Ok in Hr. destruct Hr as (Ht4 & -> & Hix).
    apply IH in Hl. destruct Hl as (evs & Ht & HF).
    change (List.length (VTuple [b_date; b_uid] :: bs))
      with (S (List.length bs)).
    rewrite draws_S. cbn [flag_events].
    destruct (below_half (rand E (rng_ix s) mod 2 ^ 53)) eqn:Hc.
    + pose proof (execute_rng _ _ _ _ _ Hb) as Hsame.
      apply execute_Ok in Hb. destruct Hb as (rows & Hx & _).
      rewrite Hsame, Hix in HF.
      exists (EvExecute mark_paid_sql [b_date; b_uid] rows :: evs). split.
      * rewrite Ht, Hx, Ht4, <- app_assoc. reflexivity.
      * exists b_date, b_uid. split; [reflexivity|].
        exists rows, evs. split; [reflexivity|exact HF].
    + apply ret_Ok in Hb. destruct Hb as [_ ->]. rewrite Hix in HF.
      exists evs. split; [rewrite Ht, Ht4; reflexivity|].
      exists b_date, b_uid. split; [reflexivity|]. exact HF.
Qed.

End LaterPhaseFacts.

(** Close the body of a loop that ends with [cur.fetchone()[0]]. *)
Ltac returning_body :=
  inv_ok;
  eexists; split; [chase; reflexivity|];
  split;
  [ apply stmt_intro; reflexivity
  | eapply first_row_col; simpl; eassumption ].

Section SeederFacts.

Variable E : env.

Lemma seeder_party_phase_Ok N s ids s' :
  Seeder.party_phase E N s = Ok ids s' ->
  exists evs,
    trace s' = trace s ++ EvPrint "Inserting Parties..." :: evs
    /\ Forall2 (returning_ev "ladm.LA_Party") ids evs
    /\ List.length ids = Z.to_nat N.
Proof.
  unfold Seeder.party_phase. intros H.
  apply bind_Ok in H. destruct H as (u & s1 & Hp & H). apply print_Ok in Hp.
  apply (for_in_Ok1 _ (fun _ id ev => returning_ev "ladm.LA_Party" id ev))
    in H.
  - destruct H as (evs & Ht & HF). exists evs. split.
    + rewrite Ht, Hp, <- app_assoc. reflexivity.
    + split; [eapply Forall3_drop1; exact HF|].
      apply Forall3_length in HF. destruct HF as [-> _]. apply range_length.
  - intros _ s0 r s2 Hb. returning_body.
Qed.

Lemma seeder_spatial_phase_Ok M s ids s' :
  Seeder.spatial_phase E M s = Ok ids s' ->
  exists evs,
    trace s' = trace s ++ EvPrint "Inserting SpatialUnits..." :: evs
    /\ Forall2 (returning_ev "ladm.LA_SpatialUnit") ids evs
    /\ List.length ids = Z.to_nat M.
Proof.
  unfold Seeder.spatial_phase, Seeder.random_point_in_bbox. intros H.
  apply bind_Ok in H. destruct H as (u & s1 & Hp & H). apply print_Ok in Hp.
  apply (for_in_Ok1 _
           (fun _ id ev => returning_ev "ladm.LA_SpatialUnit" id ev)) in H.
  - destruct H as (evs & Ht & HF). exists evs. split.
    + rewrite Ht, Hp, <- app_assoc. reflexivity.
    + split; [eapply Forall3_drop1; exact HF|].
      apply Forall3_length in HF. destruct HF as [-> _]. apply range_length.
  - intros _ s0 r s2 Hb. returning_body.
Qed.

Lemma seeder_baunit_phase_Ok spatial_ids s ids s' :
  Seeder.baunit_phase E spatial_ids s = Ok ids s' ->
  exists evs,
    trace s' = trace s ++ EvPrint "Inserting BAUnits..." :: evs
    /\ Forall3 baunit_ev spatial_ids ids evs.
Proof.
  unfold Seeder.baunit_phase. intros H.
  apply bind_Ok in H. destruct H as (u & s1 & Hp & H). apply print_Ok in Hp.
  apply (for_in_Ok1 _ baunit_ev) in H.
  - destruct H as (evs & Ht & HF). exists evs. split; [|exact HF].
    rewrite Ht, Hp, <- app_assoc. reflexivity.
  - intros sid s0 r s2 Hb. inv_ok.
    eexists. split; [chase; reflexivity|].
    split; [|reflexivity].
    split; [apply stmt_intro; reflexivity|].
    eapply first_row_col. simpl. eassumption.
Qed.

Lemma rc_party_phase_Ok N s ids s' :
  SeederRC.party_phase E N s = Ok ids s' ->
  exists evs,
    trace s' = trace s ++ EvPrint "Inserting Parties..." :: evs
    /\ Forall2 (returning_ev "ladm.LA_Party") ids evs
    /\ List.length ids = Z.to_nat N.
Proof.
  unfold SeederRC.party_phase. intros H.
  apply bind_Ok in H. destruct H as (u & s1 & Hp & H). apply print_Ok in Hp.
  apply (for_in_Ok1 _ (fun _ id ev => returning_ev "ladm.LA_Party" id ev))
    in H.
  - destruct H as (evs & Ht & HF). exists evs. split.
    + rewrite Ht, Hp, <- app_assoc. reflexivity.
    + split; [eapply Forall3_drop1; exact HF|].
      apply Forall3_length in HF. destruct HF as [-> _]. apply range_length.
  - intros _ s0 r s2 Hb.
    apply bind_Ok in Hb. destruct Hb as (chosen & s3 & Hc & Hb).
    apply random_choice_Ok in Hc. destruct Hc as [_ Ht3].
    apply bind_Ok in Hb. destruct Hb as ([name ty] & s4 & Hg & Hb).
    assert (trace s4 = trace s3) as Ht4.
    { unfold SeederRC.generate_riverside_party in Hg.
      destruct (String.eqb chosen "Individual");
        [|destruct (String.eqb chosen "Company")]; inv_ok; chase;
        reflexivity. }
    returning_body.
Qed.

Lemma generate_riverside_address_Ok s a s' :
  SeederRC.generate_riverside_address E s = Ok a s' -> trace s' = trace s.
Proof.
  unfold SeederRC.generate_riverside_address. intros H.
  apply bind_Ok in H. destruct H as (n & s1 & Hn & H).
  apply bind_Ok in H. destruct H as (full & s2 & Hf & H).
  destruct (first_word full); [|discriminate].
  inv_ok. chase. reflexivity.
Qed.

Lemma rc_spatial_phase_Ok M s ids s' :
  SeederRC.spatial_phase E M s = Ok ids s' ->
  exists evs,
    trace s' = trace s ++ EvPrint "Inserting SpatialUnits..." :: evs
    /\ Forall2 (returning_ev "ladm.LA_SpatialUnit") ids evs
    /\ List.length ids = Z.to_nat M.
Proof.
  unfold SeederRC.spatial_phase, SeederRC.random_point_in_riverside.
  intros H.
  apply bind_Ok in H. destruct H as (u & s1 & Hp & H). apply print_Ok in Hp.
  apply (for_in_Ok1 _
           (fun _ id ev => returning_ev "ladm.LA_SpatialUnit" id ev)) in H.
  - destruct H as (evs & Ht & HF). exists evs. split.
    + rewrite Ht, Hp, <- app_assoc. reflexivity.
    + split; [eapply Forall3_drop1; exact HF|].
      apply Forall3_length in HF. destruct HF as [-> _]. apply range_length.
  - intros _ s0 r s2 Hb.
    apply bind_Ok in Hb. destruct Hb as (addr & s3 & Ha & Hb).
    apply generate_riverside_address_Ok in Ha.
    returning_body.
Qed.

Lemma rc_baunit_phase_Ok spatial_ids s ids s' :
  SeederRC.baunit_phase E spatial_ids s = Ok ids s' ->
  exists evs,
    trace s' = trace s ++ EvPrint "Inserting BAUnits..." :: evs
    /\ Forall3 baunit_ev spatial_ids ids evs.
Proof.
  unfold SeederRC.baunit_phase. intros H.
  apply bind_Ok in H. destruct H as (u & s1 & Hp & H). apply print_Ok in Hp.
  apply (for_in_Ok1 _ baunit_ev) in H.
  - destruct H as (evs & Ht & HF). exists evs. split; [|exact HF].
    rewrite Ht, Hp, <- app_assoc. reflexivity.
  - intros sid s0 r s2 Hb. inv_ok.
    eexists. split; [chase; reflexivity|].
    split; [|reflexivity].
    split; [apply stmt_intro; reflexivity|].
    eapply first_row_col. simpl. eassumption.
Qed.

End SeederFacts.

(** ** A whole run that returns *)

Section Frame.

Variable E : env.
Variables party_phase spatial_phase : Z -> M (list value).
Variable baunit_phase : list value -> M (list value).

Hypothesis party_phase_Ok : forall N s ids s',
  party_phase N s = Ok ids s' ->
  exists evs,
    trace s' = trace s ++ EvPrint "Inserting Parties..." :: evs
    /\ Forall2 (returning_ev "ladm.LA_Party") ids evs
    /\ List.length ids = Z.to_nat N.

Hypothesis spatial_phase_Ok : forall M s ids s',
  spatial_phase M s = Ok ids s' ->
  exists evs,
    trace s' = trace s ++ EvPrint "Inserting SpatialUnits..." :: evs
    /\ Forall2 (returning_ev "ladm.LA_SpatialUnit") ids evs
    /\ List.length ids = Z.to_nat M.

Hypothesis baunit_phase_Ok : forall spatial_ids s ids s',
  baunit_phase spatial_ids s = Ok ids s' ->
  exists evs,
    trace s' = trace s ++ EvPrint "Inserting BAUnits..." :: evs
    /\ Forall3 baunit_ev spatial_ids ids evs.

Let seeding := seeding_with E party_phase spatial_phase baunit_phase.
Let before := before_flags_with E party_phase spatial_phase baunit_phase.

Lemma before_flags_with_Ok N M K bills s' :
  before N M K initial = Ok bills s' ->
  exists party_ids baunit_ids evEarly evThrough,
    trace s' = EvConnect :: evEarly ++ evThrough
    /\ early_shape N M party_ids baunit_ids evEarly
    /\ through_shape party_ids baunit_ids K bills evThrough.
Proof.
  unfold before, before_flags_with. intros H.
  apply bind_Ok in H. destruct H as (u0 & s0 & Hc & H).
  apply bind_Ok in H. destruct H as (u1 & s1 & Hp & H).
  apply bind_Ok in H. destruct H as (party_ids & s2 & H1 & H).
  apply bind_Ok in H. destruct H as (spatial_ids & s3 & H2 & H).
  apply bind_Ok in H. destruct H as (baunit_ids & s4 & H3 & H).
  assert (trace s0 = [EvConnect]) as Hc0.
  { unfold connect in Hc. destruct (db_connect E); [discriminate|].
    inversion Hc; subst. reflexivity. }
  apply print_Ok in Hp.
  apply party_phase_Ok in H1. destruct H1 as (evP & Ht1 & A1 & A2).
  apply spatial_phase_Ok in H2. destruct H2 as (evS & Ht2 & B1 & B2).
  apply baunit_phase_Ok in H3. destruct H3 as (evB & Ht3 & C1).
  apply through_payments_Ok in H. destruct H as (evT & Ht & D1).
  exists party_ids, baunit_ids.
  exists (EvPrint "=== Seeding Start ==="
          :: EvPrint "Inserting Parties..." :: evP
          ++ EvPrint "Inserting SpatialUnits..." :: evS
          ++ EvPrint "Inserting BAUnits..." :: evB), evT.
  split; [rewrite Ht, Ht3, Ht2, Ht1, Hp, Hc0; list_eq|].
  split; [|exact D1].
  exists spatial_ids, evP, evS, evB. conjs.
Qed.

Lemma run_with_Ok N M K u s' :
  with_transaction E (seeding N M K) initial = Ok u s' ->
  exists bills s9 evFlags,
    before N M K initial = Ok bills s9
    /\ trace s' = trace s9 ++ evFlags
                  ++ [EvCommit;
                      EvPrint "=== Seeding Completed Successfully! ===";
                      EvCursorClose; EvConnClose]
    /\ flag_events (draws E (rng_ix s9) (List.length bills)) bills evFlags.
Proof.
  unfold with_transaction, seeding, seeding_with, before, before_flags_with.
  intros H.
  apply bind_Ok in H. destruct H as (u0 & s0 & Hc & H).
  unfold try_finally, try_except in H.
  match type of H with
  | context [bind ?m ?k s0] => destruct (bind m k s0) as [u1 s1|e s1] eqn:Hb
  end.
  - unfold cleanup, cursor_close, conn_close, bind in H. simpl in H.
    inversion H; subst. clear H.
    apply bind_Ok in Hb. destruct Hb as (u2 & s2 & Hp & Hb).
    apply bind_Ok in Hb. destruct Hb as (party_ids & s3 & H1 & Hb).
    apply bind_Ok in Hb. destruct Hb as (spatial_ids & s4 & H2 & Hb).
    apply bind_Ok in Hb. destruct Hb as (baunit_ids & s5 & H3 & Hb).
    unfold later_phases in Hb.
    apply bind_Ok in Hb. destruct Hb as (bills & s9 & H4 & Hb).
    apply bind_Ok in Hb. destruct Hb as (u5 & s10 & H5 & Hb).
    apply bind_Ok in Hb. destruct Hb as (u6 & s11 & H6 & Hb).
    apply print_Ok in Hb.
    assert (trace s11 = trace s10 ++ [EvCommit]) as Hcm.
    { unfold commit in H6. destruct (db_commit E); [discriminate|].
      inversion H6; subst. reflexivity. }
    apply mark_paid_Ok in H5. destruct H5 as (evFlags & Ht5 & HF).
    exists bills, s9, evFlags. split.
    + unfold bind. rewrite Hc, Hp, H1, H2, H3. exact H4.
    + split; [|exact HF]. simpl. rewrite Hb, Hcm, Ht5. list_eq.
  - unfold on_error in H.
    destruct (bind (rollback E) _ s1) as [? ?|? ?] eqn:Hr.
    + apply bind_Ok in Hr. destruct Hr as (? & ? & _ & Hr).
      apply bind_Ok in Hr. destruct Hr as (? & ? & _ & Hr). discriminate Hr.
    + unfold cleanup, cursor_close, conn_close, bind in H. simpl in H.
      discriminate H.
Qed.

Lemma run_with_shape N M K u s' :
  with_transaction E (seeding N M K) initial = Ok u s' ->
  run_shape E N M K (trace s').
Proof.
  intros H. apply run_with_Ok in H.
  destruct H as (bills & s9 & evFlags & Hb & Ht & HF).
  apply before_flags_with_Ok in Hb.
  destruct Hb as (party_ids & baunit_ids & evEarly & evThrough & Ht9 & A & B).
  exists party_ids, baunit_ids, bills, evEarly, evThrough, evFlags,
    (rng_ix s9).
  split; [rewrite Ht, Ht9; list_eq|]. conjs.
Qed.

End Frame.

Lemma seeder_run_shape E N M K u s' :
  Seeder.seed_data E N M K initial = Ok u s' -> run_shape E N M K (trace s').
Proof.
  apply (run_with_shape E _ _ _ (seeder_party_phase_Ok E)
           (seeder_spatial_phase_Ok E) (seeder_baunit_phase_Ok E)).
Qed.

Lemma rc_run_shape E N M K u s' :
  SeederRC.seed_data E N M K initial = Ok u s' ->
  run_shape E N M K (trace s').
Proof.
  apply (run_with_shape E _ _ _ (rc_party_phase_Ok E)
           (rc_spatial_phase_Ok E) (rc_baunit_phase_Ok E)).
Qed.

(** ** Counting statements *)

Lemma stmt_kind v t ev :
  stmt v t ev ->
  exists q ps rows, ev = EvExecute q ps rows /\ classify q = Some (v, t).
Proof.
  unfold stmt, is_stmt. destruct ev as [| |q ps rows| | | |]; try discriminate.
  destruct (classify q) as [[v' t']|] eqn:Hq; [|discriminate].
  intros H. apply andb_true_iff in H. destruct H as [Hv Ht].
  apply String.eqb_eq in Ht. subst t'.
  exists q, ps, rows. split; [reflexivity|].
  destruct v, v'; try discriminate; exact Hq.
Qed.

Lemma stmt_plain v t ev : stmt v t ev -> plain ev.
Proof.
  intros H. apply stmt_kind in H. destruct H as (q & ps & rows & -> & _).
  exact I.
Qed.

Lemma kinds_app a b : kinds (a ++ b) = kinds a ++ kinds b.
Proof.
  induction a as [|ev a IH]; simpl; [reflexivity|].
  destruct ev as [| |q ps rows| | | |]; try exact IH.
  destruct (classify q); simpl; rewrite IH; reflexivity.
Qed.

Lemma kinds_segment v t evs :
  Forall (stmt v t) evs -> kinds evs = repeat (v, t) (List.length evs).
Proof.
  induction 1 as [|ev evs H _ IH]; simpl; [reflexivity|].
  apply stmt_kind in H. destruct H as (q & ps & rows & -> & Hq).
  rewrite Hq, IH. reflexivity.
Qed.

Lemma count_stmts_kinds v t tr :
  count_stmts v t tr = List.length (filter (kind_eqb (v, t)) (kinds tr)).
Proof.
  unfold count_stmts. induction tr as [|ev tr IH]; simpl; [reflexivity|].
  destruct ev as [| |q ps rows| | | |]; simpl; try exact IH.
  destruct (classify q) as [[v' t']|]; simpl; [|exact IH].
  unfold kind_eqb. simpl.
  destruct (verb_eqb v v' && String.eqb t t'); simpl; rewrite IH; reflexivity.
Qed.

Lemma filter_repeat {A} (f : A -> bool) x n :
  filter f (repeat x n) = if f x then repeat x n else [].
Proof.
  induction n as [|n IH]; simpl; [destruct (f x); reflexivity|].
  rewrite IH. destruct (f x); reflexivity.
Qed.

Lemma Forall2_right {A B} (R : A -> B -> Prop) (P : B -> Prop) l1 l2 :
  (forall x y, R x y -> P y) -> Forall2 R l1 l2 -> Forall P l2.
Proof. intros HR. induction 1; constructor; eauto. Qed.

Lemma Forall3_right {A B C} (R : A -> B -> C -> Prop) (P : C -> Prop)
  l1 l2 l3 :
  (forall x y z, R x y z -> P z) -> Forall3 R l1 l2 l3 -> Forall P l3.
Proof. intros HR. induction 1; constructor; eauto. Qed.

Lemma Forall2_length_eq {A B} (R : A -> B -> Prop) l1 l2 :
  Forall2 R l1 l2 -> List.length l2 = List.length l1.
Proof. induction 1; simpl; congruence. Qed.

Lemma Forall_concat {A} (P : A -> Prop) ls :
  Forall (Forall P) ls -> Forall P (List.concat ls).
Proof.
  induction 1; simpl; [constructor|]. apply Forall_app. split; assumption.
Qed.

Lemma flag_events_stmts coins : forall bills evs,
  flag_events coins bills evs ->
  Forall (stmt Update "ladm.TaxBill") evs
  /\ List.length evs <= List.length bills
  /\ List.length coins = List.length bills.
Proof.
  induction coins as [|c cs IH]; intros [|b bs] evs H; simpl in H;
    try contradiction.
  - subst. repeat split; [constructor|simpl; lia].
  - destruct H as (d & u & _ & H). destruct (below_half c).
    + destruct H as (rows & rest & -> & H). apply IH in H.
      destruct H as (HF & Hl & Hc). repeat split.
      * constructor; [apply stmt_intro; reflexivity|exact HF].
      * simpl. lia.
      * simpl. congruence.
    + apply IH in H. destruct H as (HF & Hl & Hc).
      repeat split; [exact HF|simpl; lia|simpl; congruence].
Qed.

Lemma pay_evs_total picked evss :
  Forall2 pay_evs picked evss ->
  Forall (stmt Insert "ladm.TaxPayment") (List.concat evss)
  /\ List.length picked <= List.length (List.concat evss)
     <= 2 * List.length picked.
Proof.
  induction 1 as [|b evs picked evss Hb _ IH]; simpl.
  - split; [constructor|lia].
  - destruct IH as [HF Hl]. destruct Hb as (d & u & _ & Hlen & Hev).
    split.
    + apply Forall_app. split; [|exact HF].
      eapply Forall_impl; [|exact Hev]. intros ev Hp. apply Hp.
    + rewrite length_app. lia.
Qed.

Lemma returning_ev_stmt t id ev : returning_ev t id ev -> stmt Insert t ev.
Proof. intros [H _]. exact H. Qed.

Lemma early_kinds N M party_ids baunit_ids evs :
  early_shape N M party_ids baunit_ids evs ->
  kinds evs = repeat (Insert, "ladm.LA_Party") (Z.to_nat N)
              ++ repeat (Insert, "ladm.LA_SpatialUnit") (Z.to_nat M)
              ++ repeat (Insert, "ladm.LA_BAUnit") (Z.to_nat M)
  /\ List.length party_ids = Z.to_nat N
  /\ List.length baunit_ids = Z.to_nat M
  /\ Forall plain evs.
Proof.
  intros (spatial_ids & evP & evS & evB & -> & HP & HlP & HS & HlS & HB).
  pose proof (Forall2_right _ _ _ _ (returning_ev_stmt _) HP) as FP.
  pose proof (Forall2_right _ _ _ _ (returning_ev_stmt _) HS) as FS.
  assert (Forall (stmt Insert "ladm.LA_BAUnit") evB) as FB.
  { eapply Forall3_right; [|exact HB]. intros x y z [[H _] _]. exact H. }
  pose proof (Forall2_length_eq _ _ _ HP) as LP.
  pose proof (Forall2_length_eq _ _ _ HS) as LS.
  pose proof (Forall3_length _ _ _ _ HB) as [LB1 LB2].
  split; [|split; [exact HlP|split; [congruence|]]].
  - simpl. rewrite !kinds_app. simpl. rewrite !kinds_app. simpl.
    rewrite (kinds_segment _ _ _ FP), (kinds_segment _ _ _ FS),
      (kinds_segment _ _ _ FB).
    rewrite LP, LS, LB2, HlP, HlS. reflexivity.
  - repeat first [apply Forall_cons | apply Forall_app; split | exact I];
      try (eapply Forall_impl; [apply stmt_plain|eassumption]).
Qed.

Lemma through_kinds party_ids baunit_ids K bills evs :
  through_shape party_ids baunit_ids K bills evs ->
  let m := List.length baunit_ids in
  exists p,
    kinds evs = repeat (Insert, "ladm.TaxRateArea") 3
                ++ repeat (Insert, "ladm.TaxRate") 3
                ++ repeat (Update, "ladm.LA_BAUnit") m
                ++ repeat (Insert, "ladm.TaxAssessment") m
                ++ repeat (Insert, "ladm.SupplementalAssessment")
                     (Nat.min (m / 5) 10)
                ++ repeat (Insert, "ladm.LA_RRR") m
                ++ repeat (Insert, "ladm.TaxBill") (Z.to_nat K)
                ++ repeat (Insert, "ladm.TaxPayment") p
    /\ Z.to_nat K / 2 <= p <= 2 * (Z.to_nat K / 2)
    /\ List.length bills = Z.to_nat K
    /\ Forall plain evs.
Proof.
  intros (tra_ids & rate_ids & evTra & evRate & evAssign & evAssess
          & supp & unsupp & evSupp & evRRR & evBill & picked & unpicked
          & evPay & -> & A1 & A2 & A3 & A4 & A5 & A6 & A7 & A8 & A9 & A10
          & A11 & A12 & A13 & A14 & A15) m.
  pose proof (Forall2_right _ _ _ _ (returning_ev_stmt _) A1) as F1.
  pose proof (Forall2_right _ _ _ _ (returning_ev_stmt _) A3) as F3.
  assert (Forall (stmt Update "ladm.LA_BAUnit") evAssign) as F5.
  { eapply Forall2_right; [|exact A5]. intros x y [H _]. exact H. }
  assert (Forall (stmt Insert "ladm.TaxAssessment") evAssess) as F6.
  { eapply Forall2_right; [|exact A6]. intros x y [H _]. exact H. }
  assert (Forall (stmt Insert "ladm.SupplementalAssessment") evSupp) as F9.
  { eapply Forall2_right; [|exact A9]. intros x y [H _]. exact H. }
  assert (Forall (stmt Insert "ladm.LA_RRR") evRRR) as F10.
  { eapply Forall2_right; [|exact A10]. intros x y [H _]. exact H. }
  assert (Forall (stmt Insert "ladm.TaxBill") evBill) as F11.
  { eapply Forall2_right; [|exact A11]. intros x y [H _]. exact H. }
  destruct (pay_evs_total _ _ A15) as [F15 L15].
  exists (List.length (List.concat evPay)).
  split; [|split; [|split; [exact A12|]]].
  - simpl. rewrite !kinds_app. simpl. rewrite !kinds_app. simpl.
    rewrite !kinds_app. simpl. rewrite !kinds_app. simpl.
    rewrite !kinds_app. simpl.
    rewrite (kinds_segment _ _ _ F1), (kinds_segment _ _ _ F3),
      (kinds_segment _ _ _ F5), (kinds_segment _ _ _ F6),
      (kinds_segment _ _ _ F9), (kinds_segment _ _ _ F10),
      (kinds_segment _ _ _ F11), (kinds_segment _ _ _ F15).
    rewrite (Forall2_length_eq _ _ _ A1), (Forall2_length_eq _ _ _ A3),
      (Forall2_length_eq _ _ _ A5), (Forall2_length_eq _ _ _ A6),
      (Forall2_length_eq _ _ _ A9), (Forall2_length_eq _ _ _ A10),
      (Forall2_length_eq _ _ _ A11), A2, A4, A8, A12.
    reflexivity.
  - rewrite A14, A12 in L15. exact L15.
  - repeat first [apply Forall_cons | apply Forall_app; split | exact I];
      try (eapply Forall_impl; [apply stmt_plain|eassumption]).
Qed.

Lemma run_kinds E N M K tr :
  run_shape E N M K tr ->
  exists pre p u,
    tr = pre ++ [EvCommit; EvPrint "=== Seeding Completed Successfully! ===";
                 EvCursorClose; EvConnClose]
    /\ Forall plain pre
    /\ kinds pre = pattern (Z.to_nat N) (Z.to_nat M) (Z.to_nat K) p u
    /\ Z.to_nat K / 2 <= p <= 2 * (Z.to_nat K / 2)
    /\ u <= Z.to_nat K.
Proof.
  intros (party_ids & baunit_ids & bills & evEarly & evThrough & evFlags
          & i & -> & HE & HT & HF).
  apply early_kinds in HE. destruct HE as (KE & LP & LB & PE).
  apply through_kinds in HT. destruct HT as (p & KT & Hp & Lb & PT).
  apply flag_events_stmts in HF. destruct HF as (FF & LF & _).
  exists (EvConnect :: evEarly ++ evThrough ++ evFlags), p,
    (List.length evFlags).
  split; [list_eq|]. split; [|split; [|split; [exact Hp|lia]]].
  - constructor; [exact I|]. rewrite !Forall_app.
    split; [exact PE|]. split; [exact PT|].
    eapply Forall_impl; [apply stmt_plain|exact FF].
  - simpl. rewrite !kinds_app, KE, KT, (kinds_segment _ _ _ FF), LB.
    unfold pattern. rewrite <- !app_assoc. reflexivity.
Qed.

(** ** What a returning run leaves committed *)

Lemma durable_plain pre : Forall plain pre ->
  forall pending done rest,
    durable pending done (pre ++ rest)
    = durable (pending ++ filter is_execute pre) done rest.
Proof.
  induction 1 as [|ev pre Hev _ IH]; intros pending done rest; simpl.
  - rewrite app_nil_r. reflexivity.
  - destruct ev; simpl in Hev; try contradiction; simpl.
    + apply IH.
    + apply IH.
    + rewrite IH, <- app_assoc. reflexivity.
Qed.

Lemma committed_run pre line :
  Forall plain pre ->
  committed (pre ++ [EvCommit; EvPrint line; EvCursorClose; EvConnClose])
  = filter is_execute pre.
Proof.
  intros H. unfold committed. rewrite (durable_plain _ H). reflexivity.
Qed.

Lemma kinds_statements tr : kinds (filter is_execute tr) = kinds tr.
Proof.
  induction tr as [|ev tr IH]; simpl; [reflexivity|].
  destruct ev; simpl; try exact IH.
  rewrite IH. reflexivity.
Qed.

Lemma pattern_counts n m k p u :
  let c := fun kd => List.length (filter (kind_eqb kd) (pattern n m k p u)) in
  c (Insert, "ladm.LA_Party") = n
  /\ c (Insert, "ladm.LA_SpatialUnit") = m
  /\ c (Insert, "ladm.LA_BAUnit") = m
  /\ c (Insert, "ladm.TaxBill") = k
  /\ c (Insert, "ladm.SupplementalAssessment") = Nat.min (m / 5) 10
  /\ c (Insert, "ladm.TaxPayment") = p
  /\ c (Update, "ladm.TaxBill") = u.
Proof.
  unfold pattern. cbv zeta.
  repeat split; rewrite !filter_app, !filter_repeat;
    cbn [kind_eqb fst snd verb_eqb andb];
    repeat match goal with
           | |- context [String.eqb ?a ?b] =>
               let r := eval vm_compute in (String.eqb a b) in
               change (String.eqb a b) with r
           end;
    cbn [app andb]; rewrite ?app_nil_r; apply repeat_length.
Qed.

Lemma run_counts E N M K tr :
  run_shape E N M K tr ->
  exists p u,
    (forall kd,
       count_stmts (fst kd) (snd kd) tr
       = List.length (filter (kind_eqb kd)
                        (pattern (Z.to_nat N) (Z.to_nat M) (Z.to_nat K) p u)))
    /\ (forall t, rows_of t tr = count_stmts Insert t tr)
    /\ Z.to_nat K / 2 <= p <= 2 * (Z.to_nat K / 2)
    /\ u <= Z.to_nat K.
Proof.
  intros H. apply run_kinds in H.
  destruct H as (pre & p & u & -> & Hplain & Hk & Hp & Hu).
  exists p, u. split; [|split; [|split; assumption]].
  - intros [v t]. simpl. rewrite count_stmts_kinds, kinds_app, Hk. simpl.
    rewrite app_nil_r. reflexivity.
  - intros t. unfold rows_of. rewrite (committed_run _ _ Hplain).
    rewrite !count_stmts_kinds, kinds_statements, kinds_app. simpl.
    rewrite app_nil_r. reflexivity.
Qed.

Lemma run_returns_shape sc E N M K :
  succeeded (run sc E N M K) ->
  run_shape E N M K (trace (final (run sc E N M K))).
Proof.
  destruct sc; simpl; intros H.
  - destruct (Seeder.seed_data E N M K initial) as [u s|e s] eqn:Hr;
      [|contradiction].
    eapply seeder_run_shape. exact Hr.
  - destruct (SeederRC.seed_data E N M K initial) as [u s|e s] eqn:Hr;
      [|contradiction].
    eapply rc_run_shape. exact Hr.
Qed.

(** ** Selecting the statements of one kind *)

Lemma select_app v t a b : select v t (a ++ b) = select v t a ++ select v t b.
Proof. apply filter_app. Qed.

Lemma stmt_is_stmt v t v' t' ev :
  stmt v' t' ev -> is_stmt v t ev = kind_eqb (v, t) (v', t').
Proof.
  intros H. apply stmt_kind in H. destruct H as (q & ps & rows & -> & Hq).
  unfold is_stmt. rewrite Hq. reflexivity.
Qed.

Lemma select_segment v t v' t' evs :
  Forall (stmt v' t') evs ->
  select v t evs = if kind_eqb (v, t) (v', t') then evs else [].
Proof.
  unfold select. induction 1 as [|ev evs H _ IH]; simpl.
  - destruct (kind_eqb (v, t) (v', t')); reflexivity.
  - rewrite (stmt_is_stmt _ _ _ _ _ H), IH.
    destruct (kind_eqb (v, t) (v', t')); reflexivity.
Qed.

Lemma returned_segment t ids evs :
  Forall2 (returning_ev t) ids evs ->
  flat_map (fun ev => match first_col (result ev) with
                      | Some id => [id]
                      | None => []
                      end) evs = ids.
Proof.
  induction 1 as [|id ev ids evs [_ Hc] _ IH]; simpl; [reflexivity|].
  rewrite Hc, IH. reflexivity.
Qed.

Lemma baunit_ev_stmt sid id ev : baunit_ev sid id ev -> stmt Insert "ladm.LA_BAUnit" ev.
Proof. intros [[H _] _]. exact H. Qed.

Lemma assign_ev_stmt ids b ev : assign_ev ids b ev -> stmt Update "ladm.LA_BAUnit" ev.
Proof. intros [H _]. exact H. Qed.

Lemma assess_ev_stmt ids b ev : assess_ev ids b ev -> stmt Insert "ladm.TaxAssessment" ev.
Proof. intros [H _]. exact H. Qed.

Lemma supp_ev_stmt ids b ev :
  supp_ev ids b ev -> stmt Insert "ladm.SupplementalAssessment" ev.
Proof. intros [H _]. exact H. Qed.

Lemma rrr_ev_stmt ids b ev : rrr_ev ids b ev -> stmt Insert "ladm.LA_RRR" ev.
Proof. intros [H _]. exact H. Qed.

Lemma bill_ev_stmt bs ps b ev : bill_ev bs ps b ev -> stmt Insert "ladm.TaxBill" ev.
Proof. intros [H _]. exact H. Qed.

(** Take a run shape apart into its twelve segments. *)
Ltac open_shape H :=
  let Htr := fresh "Htr" in
  destruct H as
    (party_ids & baunit_ids & bills & evEarly & evThrough & evFlags & ix
     & Htr
     & (spatial_ids & evParty & evSpatial & evBA & HevE
        & HParty & LParty & HSpatial & LSpatial & HBA)
     & (tra_ids & rate_ids & evTra & evRate & evAssign & evAssess
        & supp & unsupp & evSupp & evRRR & evBill & picked & unpicked
        & evPay & HevT & HTra & LTra & HRate & LRate & HAssign & HAssess
        & PSupp & LSupp & HSupp & HRRR & HBill & LBill & PPick & LPick
        & HPay)
     & HFlags);
  subst evEarly evThrough;
  pose proof (Forall2_right _ _ _ _ (returning_ev_stmt _) HParty) as FParty;
  pose proof (Forall2_right _ _ _ _ (returning_ev_stmt _) HSpatial)
    as FSpatial;
  pose proof (Forall3_right _ _ _ _ _ baunit_ev_stmt HBA) as FBA;
  pose proof (Forall2_right _ _ _ _ (returning_ev_stmt _) HTra) as FTra;
  pose proof (Forall2_right _ _ _ _ (returning_ev_stmt _) HRate) as FRate;
  pose proof (Forall2_right _ _ _ _ (assign_ev_stmt _) HAssign) as FAssign;
  pose proof (Forall2_right _ _ _ _ (assess_ev_stmt _) HAssess) as FAssess;
  pose proof (Forall2_right _ _ _ _ (supp_ev_stmt _) HSupp) as FSupp;
  pose proof (Forall2_right _ _ _ _ (rrr_ev_stmt _) HRRR) as FRRR;
  pose proof (Forall2_right _ _ _ _ (bill_ev_stmt _ _) HBill) as FBill;
  pose proof (proj1 (pay_evs_total _ _ HPay)) as FPay;
  pose proof (proj1 (flag_events_stmts _ _ _ HFlags)) as FFlags.

(** Decide the comparisons of kinds that selecting leaves behind. *)
Ltac decide_kinds :=
  cbn [kind_eqb fst snd verb_eqb andb];
  repeat match goal with
         | |- context [String.eqb ?a ?b] =>
             let r := eval vm_compute in (String.eqb a b) in
             change (String.eqb a b) with r
         end;
  cbn [andb app]; rewrite ?app_nil_r.

Lemma select_skip v t ev rest :
  is_execute ev = false -> select v t (ev :: rest) = select v t rest.
Proof. destruct ev; try discriminate; reflexivity. Qed.

(** Compute [select v t] over a run taken apart by [open_shape]. *)
Ltac selecting :=
  repeat first
    [ rewrite select_app
    | rewrite select_skip by reflexivity
    | match goal with
      | F : Forall (stmt ?v' ?t') ?evs |- context [select ?v ?t ?evs] =>
          rewrite (select_segment v t v' t' evs F)
      end ];
  change (select _ _ []) with (@nil event);
  decide_kinds.

Lemma returned_baunits spatial_ids ids evs :
  Forall3 baunit_ev spatial_ids ids evs ->
  flat_map (fun ev => match first_col (result ev) with
                      | Some id => [id]
                      | None => []
                      end) evs = ids.
Proof.
  induction 1 as [|sid id ev sids ids evs [[_ Hc] _] _ IH]; simpl;
    [reflexivity|].
  rewrite Hc, IH. reflexivity.
Qed.

Lemma supp_units rate_ids supp evs :
  Forall2 (supp_ev rate_ids) supp evs -> map (param 0) evs = supp.
Proof.
  induction 1 as [|b ev bs evs (_ & Hb & _) _ IH]; simpl; [reflexivity|].
  rewrite Hb, IH. reflexivity.
Qed.

Lemma bill_rows baunit_ids party_ids bills evs :
  Forall2 (bill_ev baunit_ids party_ids) bills evs ->
  map (fun ev => first_row (result ev)) evs = bills.
Proof.
  induction 1 as [|b ev bs evs (_ & _ & _ & Hb & _) _ IH]; simpl;
    [reflexivity|].
  rewrite Hb, IH. reflexivity.
Qed.

Lemma NoDup_app_apart {A} (l1 l2 : list A) :
  NoDup (l1 ++ l2) -> forall x, In x l1 -> ~ In x l2.
Proof.
  induction l1 as [|y l1 IH]; simpl; intros H x Hx; [contradiction|].
  inversion H as [|? ? Hny Hnd]; subst. destruct Hx as [->|Hx].
  - intros Hin. apply Hny. apply in_or_app. right. exact Hin.
  - apply IH; assumption.
Qed.

(** ** References to earlier identifiers *)

Lemma returned_app t a b : returned t (a ++ b) = returned t a ++ returned t b.
Proof. unfold returned. rewrite select_app. apply flat_map_app. Qed.

Lemma returned_rows_app t a b :
  returned_rows t (a ++ b) = returned_rows t a ++ returned_rows t b.
Proof. unfold returned_rows. rewrite select_app. apply map_app. Qed.

Lemma stmt_same v t v' t' ev :
  stmt v t ev -> stmt v' t' ev -> kind_eqb (v', t') (v, t) = true.
Proof.
  intros H H'. rewrite <- (stmt_is_stmt _ _ _ _ _ H). exact H'.
Qed.

Lemma fk_ok_skip seen ev : is_execute ev = false -> fk_ok seen ev.
Proof.
  intros H. unfold fk_ok, stmt.
  destruct ev; try discriminate; simpl; repeat split; discriminate.
Qed.

Lemma fk_closed_app_intro a : forall seen b,
  fk_closed seen a -> fk_closed (seen ++ a) b -> fk_closed seen (a ++ b).
Proof.
  induction a as [|ev a IH]; simpl; intros seen b Ha Hb.
  - rewrite app_nil_r in Hb. exact Hb.
  - destruct Ha as [Hev Ha]. split; [exact Hev|].
    apply IH; [exact Ha|]. rewrite <- app_assoc. exact Hb.
Qed.

Lemma fk_closed_skip seen ev rest :
  is_execute ev = false ->
  fk_closed (seen ++ [ev]) rest -> fk_closed seen (ev :: rest).
Proof. intros H Hr. split; [apply fk_ok_skip; exact H|exact Hr]. Qed.

Lemma fk_closed_segment seg : forall seen,
  (forall ev, In ev seg -> forall more, fk_ok (seen ++ more) ev) ->
  fk_closed seen seg.
Proof.
  induction seg as [|ev seg IH]; simpl; intros seen H; [exact I|]. split.
  - rewrite <- (app_nil_r seen). apply H. left. reflexivity.
  - apply IH. intros ev' Hin more. rewrite <- app_assoc.
    apply H. right. exact Hin.
Qed.

Lemma fk_closed_at tr : forall seen pre ev post,
  fk_closed seen tr -> tr = pre ++ ev :: post -> fk_ok (seen ++ pre) ev.
Proof.
  induction tr as [|x tr IH]; intros seen pre ev post H Heq.
  - destruct pre; discriminate.
  - destruct pre as [|y pre]; simpl in Heq; inversion Heq; subst.
    + rewrite app_nil_r. exact (proj1 H).
    + destruct H as [_ H].
      specialize (IH _ pre ev post H eq_refl).
      rewrite <- app_assoc in IH. exact IH.
Qed.

Lemma Forall2_in_right {A B} (R : A -> B -> Prop) l1 l2 y :
  Forall2 R l1 l2 -> In y l2 -> exists x, In x l1 /\ R x y.
Proof.
  induction 1 as [|x y' l1 l2 HR _ IH]; simpl; intros Hin; [contradiction|].
  destruct Hin as [->|Hin].
  - exists x. split; [left; reflexivity|exact HR].
  - destruct (IH Hin) as (x' & Hx & HR'). exists x'. split; [right|]; assumption.
Qed.

Lemma Forall3_in_right {A B C} (R : A -> B -> C -> Prop) l1 l2 l3 z :
  Forall3 R l1 l2 l3 -> In z l3 -> exists x y, In x l1 /\ In y l2 /\ R x y z.
Proof.
  induction 1 as [|x y z' l1 l2 l3 HR _ IH]; simpl; intros Hin;
    [contradiction|].
  destruct Hin as [->|Hin].
  - exists x, y. repeat split; [left; reflexivity|left; reflexivity|exact HR].
  - destruct (IH Hin) as (x' & y' & Hx & Hy & HR').
    exists x', y'. repeat split; [right; assumption|right; assumption|exact HR'].
Qed.

(** A statement of one kind is not of another. *)
Ltac kind_clash :=
  match goal with
  | H : stmt ?v ?t ?ev, H' : stmt ?v' ?t' ?ev |- _ =>
      let C := fresh in
      pose proof (stmt_same _ _ _ _ _ H H') as C;
      vm_compute in C; discriminate C
  end.

(** Walk along a trace, stopping at each segment. *)
Ltac walk :=
  repeat match goal with
         | |- fk_closed _ (_ :: _) => apply fk_closed_skip; [reflexivity|]
         | |- fk_closed _ (_ ++ _) => apply fk_closed_app_intro
         | |- fk_closed _ [] => exact I
         end.

(** A segment of statements of one kind: only the references of that
    kind are left to show. *)
Ltac segment F :=
  apply fk_closed_segment;
  let ev := fresh "ev" in
  let Hin := fresh "Hin" in
  let more := fresh "more" in
  let Hk := fresh "Hk" in
  let Hs := fresh "Hs" in
  intros ev Hin more;
  pose proof (proj1 (Forall_forall _ _) F ev Hin) as Hk;
  unfold fk_ok;
  repeat match goal with |- _ /\ _ => split end;
  intros Hs; try kind_clash; clear Hs;
  repeat match goal with |- _ /\ _ => split end.

(** The identifiers returned before the segment include those of an
    earlier segment. *)
Ltac found :=
  first [rewrite returned_app | rewrite returned_rows_app];
  apply in_or_app; left;
  unfold returned, returned_rows; selecting.

Lemma run_fk_closed E N M K tr : run_shape E N M K tr -> fk_closed [] tr.
Proof.
  intros H. open_shape H. rewrite Htr.
  repeat (progress (rewrite <- ?app_assoc, <- ?app_comm_cons)).
  assert (forall b, In b supp -> In b baunit_ids) as InSupp.
  { intros b Hb. eapply Permutation_in; [exact PSupp|].
    apply in_or_app. left. exact Hb. }
  assert (forall b, In b picked -> In b bills) as InPick.
  { intros b Hb. eapply Permutation_in; [exact PPick|].
    apply in_or_app. left. exact Hb. }
  walk.
  - segment FParty.
  - segment FSpatial.
  - segment FBA. found. rewrite (returned_segment _ _ _ HSpatial).
    destruct (Forall3_in_right _ _ _ _ _ HBA Hin)
      as (sid & id & Hsid & _ & _ & Hp).
    rewrite Hp. exact Hsid.
  - segment FTra.
  - segment FRate.
  - segment FAssign;
      destruct (Forall2_in_right _ _ _ _ HAssign Hin)
        as (b & Hb & _ & Htra & Hp); found.
    + rewrite (returned_segment _ _ _ HTra). exact Htra.
    + rewrite (returned_baunits _ _ _ HBA), Hp. exact Hb.
  - segment FAssess;
      destruct (Forall2_in_right _ _ _ _ HAssess Hin)
        as (b & Hb & _ & Hp & Hrate); found.
    + rewrite (returned_baunits _ _ _ HBA), Hp. exact Hb.
    + rewrite (returned_segment _ _ _ HRate). exact Hrate.
  - segment FSupp;
      destruct (Forall2_in_right _ _ _ _ HSupp Hin)
        as (b & Hb & _ & Hp & Hrate); found.
    + rewrite (returned_baunits _ _ _ HBA), Hp. apply InSupp. exact Hb.
    + rewrite (returned_segment _ _ _ HRate). exact Hrate.
  - segment FRRR;
      destruct (Forall2_in_right _ _ _ _ HRRR Hin)
        as (b & Hb & _ & Hp & Hparty); found.
    + rewrite (returned_baunits _ _ _ HBA), Hp. exact Hb.
    + rewrite (returned_segment _ _ _ HParty). exact Hparty.
  - segment FBill;
      destruct (Forall2_in_right _ _ _ _ HBill Hin)
        as (b & Hb & _ & Hbu & Hparty & _); found.
    + rewrite (returned_baunits _ _ _ HBA). exact Hbu.
    + rewrite (returned_segment _ _ _ HParty). exact Hparty.
  - segment FPay. found. rewrite (bill_rows _ _ _ _ HBill).
    apply in_concat in Hin. destruct Hin as (evs & Hevs & Hin).
    destruct (Forall2_in_right _ _ _ _ HPay Hevs)
      as (b & Hb & d & u & -> & _ & Hall).
    pose proof (proj1 (Forall_forall _ _) Hall _ Hin) as (_ & -> & ->).
    apply InPick. exact Hb.
  - segment FFlags. found. rewrite (bill_rows _ _ _ _ HBill).
    clear - HFlags Hin. revert HFlags Hin.
    generalize (draws E ix (List.length bills)) as coins.
    intros coins. revert bills evFlags.
    induction coins as [|c cs IH]; intros [|b bs] evs HF Hin; simpl in HF;
      try contradiction.
    + subst. contradiction.
    + destruct HF as (d & u & -> & HF). destruct (below_half c).
      * destruct HF as (rows & rest & -> & HF). destruct Hin as [<-|Hin].
        -- left. reflexivity.
        -- right. eapply IH; eassumption.
      * right. eapply IH; eassumption.
Qed.

(** ** The paid-flag loop *)

Lemma run_cut sc E N M K :
  succeeded (run sc E N M K) ->
  exists bills s9 evFlags party_ids baunit_ids evEarly evThrough,
    before_flags_of sc E N M K = Ok bills s9
    /\ trace (final (run sc E N M K))
       = EvConnect :: evEarly ++ evThrough ++ evFlags
         ++ [EvCommit; EvPrint "=== Seeding Completed Successfully! ===";
             EvCursorClose; EvConnClose]
    /\ early_shape N M party_ids baunit_ids evEarly
    /\ through_shape party_ids baunit_ids K bills evThrough
    /\ flag_events (draws E (rng_ix s9) (List.length bills)) bills evFlags.
Proof.
  intros Hrun.
  assert (forall pp sp bp,
            (forall N s ids s', pp N s = Ok ids s' ->
               exists evs,
                 trace s' = trace s ++ EvPrint "Inserting Parties..." :: evs
                 /\ Forall2 (returning_ev "ladm.LA_Party") ids evs
                 /\ List.length ids = Z.to_nat N) ->
            (forall M s ids s', sp M s = Ok ids s' ->
               exists evs,
                 trace s' = trace s
                            ++ EvPrint "Inserting SpatialUnits..." :: evs
                 /\ Forall2 (returning_ev "ladm.LA_SpatialUnit") ids evs
                 /\ List.length ids = Z.to_nat M) ->
            (forall spatial_ids s ids s', bp spatial_ids s = Ok ids s' ->
               exists evs,
                 trace s' = trace s ++ EvPrint "Inserting BAUnits..." :: evs
                 /\ Forall3 baunit_ev spatial_ids ids evs) ->
            forall u s',
              with_transaction E (seeding_with E pp sp bp N M K) initial
              = Ok u s' ->
              exists bills s9 evFlags party_ids baunit_ids evEarly evThrough,
                before_flags_with E pp sp bp N M K initial = Ok bills s9
                /\ trace s'
                   = EvConnect :: evEarly ++ evThrough ++ evFlags
                     ++ [EvCommit;
                         EvPrint "=== Seeding Completed Successfully! ===";
                         EvCursorClose; EvConnClose]
                /\ early_shape N M party_ids baunit_ids evEarly
                /\ through_shape party_ids baunit_ids K bills evThrough
                /\ flag_events (draws E (rng_ix s9) (List.length bills))
                     bills evFlags) as Hgen.
  { intros pp sp bp H1 H2 H3 u s' H.
    apply (run_with_Ok E pp sp bp) in H.
    destruct H as (bills & s9 & evFlags & Hb & Ht & HF).
    pose proof (before_flags_with_Ok E pp sp bp H1 H2 H3 _ _ _ _ _ Hb)
      as (party_ids & baunit_ids & evEarly & evThrough & Ht9 & A & B).
    exists bills, s9, evFlags, party_ids, baunit_ids, evEarly, evThrough.
    split; [exact Hb|]. split; [rewrite Ht, Ht9; list_eq|]. conjs. }
  destruct sc; simpl in *.
  - destruct (Seeder.seed_data E N M K initial) as [u s|e s] eqn:Hr;
      [|contradiction].
    exact (Hgen _ _ _ (seeder_party_phase_Ok E) (seeder_spatial_phase_Ok E)
             (seeder_baunit_phase_Ok E) u s Hr).
  - destruct (SeederRC.seed_data E N M K initial) as [u s|e s] eqn:Hr;
      [|contradiction].
    exact (Hgen _ _ _ (rc_party_phase_Ok E) (rc_spatial_phase_Ok E)
             (rc_baunit_phase_Ok E) u s Hr).
Qed.

Lemma flag_events_marked coins : forall bills evs,
  flag_events coins bills evs ->
  map (fun ev => VTuple [param 0 ev; param 1 ev]) evs = heads coins bills.
Proof.
  unfold heads.
  induction coins as [|c cs IH]; intros [|b bs] evs H; simpl in H;
    try contradiction.
  - subst. reflexivity.
  - destruct H as (d & u & -> & H). simpl. destruct (below_half c).
    + destruct H as (rows & rest & -> & H). simpl. f_equal. apply IH. exact H.
    + apply IH. exact H.
Qed.

Lemma heads_in coins : forall bills b,
  In b (heads coins bills) ->
  exists i c, nth_error coins i = Some c /\ nth_error bills i = Some b
              /\ below_half c = true.
Proof.
  unfold heads.
  induction coins as [|c cs IH]; intros [|x bs] b H; simpl in H;
    try contradiction.
  destruct (below_half c) eqn:Hc.
  - destruct H as [<-|H].
    + exists 0, c. repeat split; assumption.
    + destruct (IH _ _ H) as (i & c' & H1 & H2 & H3).
      exists (S i), c'. repeat split; assumption.
  - destruct (IH _ _ H) as (i & c' & H1 & H2 & H3).
    exists (S i), c'. repeat split; assumption.
Qed.

Lemma in_heads coins : forall bills i c b,
  nth_error coins i = Some c -> nth_error bills i = Some b ->
  below_half c = true -> In b (heads coins bills).
Proof.
  unfold heads.
  induction coins as [|c0 cs IH]; intros [|x bs] [|i] c b Hc Hb Hh;
    simpl in *; try discriminate.
  - inversion Hc; inversion Hb; subst. rewrite Hh. left. reflexivity.
  - destruct (below_half c0); [right|]; eapply IH; eassumption.
Qed.

Lemma NoDup_nth_error_same {A} (l : list A) : NoDup l ->
  forall i j x, nth_error l i = Some x -> nth_error l j = Some x -> i = j.
Proof.
  intros Hnd i j x Hi Hj.
  apply (proj1 (NoDup_nth_error l) Hnd); [|congruence].
  apply nth_error_Some. congruence.
Qed.

Lemma run_marked_paid sc E N M K :
  succeeded (run sc E N M K) ->
  let tr := trace (final (run sc E N M K)) in
  let bills := returned_rows "ladm.TaxBill" tr in
  let coins := coin_draws sc E N M K in
  marked_paid tr = heads coins bills
  /\ List.length coins = List.length bills
  /\ Forall (fun ev => param 5 ev = VBool false)
       (select Insert "ladm.TaxBill" tr).
Proof.
  intros Hrun. destruct (run_cut _ _ _ _ _ Hrun)
    as (bills & s9 & evFlags & party_ids & baunit_ids & evEarly & evThrough
        & Hb & Ht & HE & HT & HF).
  cbv zeta. unfold coin_draws. rewrite Hb, Ht.
  assert (run_shape E N M K
            (EvConnect :: evEarly ++ evThrough ++ evFlags
             ++ [EvCommit; EvPrint "=== Seeding Completed Successfully! ===";
                 EvCursorClose; EvConnClose])) as Hshape.
  { exists party_ids, baunit_ids, bills, evEarly, evThrough, evFlags,
      (rng_ix s9). conjs. }
  pose proof (flag_events_marked _ _ _ HF) as Hmarked.
  pose proof (flag_events_stmts _ _ _ HF) as (_ & _ & Hlen).
  clear Hrun Hb Ht.
  destruct HE as (spatial_ids & evParty & evSpatial & evBA & -> & HParty
                  & LParty & HSpatial & LSpatial & HBA).
  destruct HT as (tra_ids & rate_ids & evTra & evRate & evAssign & evAssess
                  & supp & unsupp & evSupp & evRRR & evBill & picked
                  & unpicked & evPay & -> & HTra & LTra & HRate & LRate
                  & HAssign & HAssess & PSupp & LSupp & HSupp & HRRR & HBill
                  & LBill & PPick & LPick & HPay).
  pose proof (Forall2_right _ _ _ _ (returning_ev_stmt _) HParty) as FParty.
  pose proof (Forall2_right _ _ _ _ (returning_ev_stmt _) HSpatial)
    as FSpatial.
  pose proof (Forall3_right _ _ _ _ _ baunit_ev_stmt HBA) as FBA.
  pose proof (Forall2_right _ _ _ _ (returning_ev_stmt _) HTra) as FTra.
  pose proof (Forall2_right _ _ _ _ (returning_ev_stmt _) HRate) as FRate.
  pose proof (Forall2_right _ _ _ _ (assign_ev_stmt _) HAssign) as FAssign.
  pose proof (Forall2_right _ _ _ _ (assess_ev_stmt _) HAssess) as FAssess.
  pose proof (Forall2_right _ _ _ _ (supp_ev_stmt _) HSupp) as FSupp.
  pose proof (Forall2_right _ _ _ _ (rrr_ev_stmt _) HRRR) as FRRR.
  pose proof (Forall2_right _ _ _ _ (bill_ev_stmt _ _) HBill) as FBill.
  pose proof (proj1 (pay_evs_total _ _ HPay)) as FPay.
  pose proof (proj1 (flag_events_stmts _ _ _ HF)) as FFlags.
  unfold marked_paid, returned_rows. selecting.
  rewrite (bill_rows _ _ _ _ HBill).
  split; [exact Hmarked|]. split; [exact Hlen|].
  eapply Forall2_right; [|exact HBill].
  intros b ev (_ & _ & _ & _ & _ & Hp & _). exact Hp.
Qed.

Lemma draws_bound E i n : Forall (fun c => (c < 2 ^ 53)%N) (draws E i n).
Proof.
  unfold draws. apply Forall_forall. intros c Hc.
  apply in_map_iff in Hc. destruct Hc as (j & <- & _).
  apply N.mod_upper_bound. discriminate.
Qed.

(** ** What any run, returning or not, adds to the trace *)

Section Emits.

Variable P : event -> Prop.

Lemma emits_ret {A} (a : A) (Q : A -> Prop) : Q a -> emits P (ret a) Q.
Proof.
  intros HQ s. split; [|exact HQ].
  exists []. simpl. rewrite app_nil_r. split; [reflexivity|constructor].
Qed.

Lemma emits_ret_any {A} (a : A) : emits P (ret a) any.
Proof. apply emits_ret. exact I. Qed.

Lemma emits_raise {A} (e : exn) (Q : A -> Prop) : emits P (raise e) Q.
Proof.
  intros s. split; [|exact I].
  exists []. simpl. rewrite app_nil_r. split; [reflexivity|constructor].
Qed.

Lemma emits_bind {A B} (m : M A) (k : A -> M B) Q1 Q2 :
  emits P m Q1 -> (forall a, Q1 a -> emits P (k a) Q2) ->
  emits P (bind m k) Q2.
Proof.
  intros Hm Hk s. unfold bind. destruct (Hm s) as [(evs & Ht & HF) HQ].
  destruct (m s) as [a s1|e s1]; simpl in *.
  - destruct (Hk a HQ s1) as [(evs' & Ht' & HF') HQ']. split; [|exact HQ'].
    exists (evs ++ evs'). rewrite Ht', Ht, app_assoc.
    split; [reflexivity|]. apply Forall_app. split; assumption.
  - split; [|exact I]. exists evs. split; assumption.
Qed.

Lemma emits_weaken {A} (m : M A) (Q Q' : A -> Prop) :
  emits P m Q -> (forall a, Q a -> Q' a) -> emits P m Q'.
Proof.
  intros Hm HQ s. destruct (Hm s) as [He Hq]. split; [exact He|].
  destruct (m s); [apply HQ; exact Hq|exact I].
Qed.

Lemma emits_for_in {A B} (l : list A) (body : A -> M B) :
  (forall x, emits P (body x) any) -> emits P (for_in l body) any.
Proof.
  intros Hb. induction l as [|x xs IH]; simpl.
  - apply emits_ret. exact I.
  - eapply emits_bind; [apply Hb|]. intros r _.
    eapply emits_bind; [exact IH|]. intros rs _. apply emits_ret. exact I.
Qed.

(** A computation that leaves the trace alone *)
Lemma emits_silent {A} (m : M A) (Q : A -> Prop) :
  (forall s, trace (final (m s)) = trace s) ->
  (forall s a s', m s = Ok a s' -> Q a) ->
  emits P m Q.
Proof.
  intros Ht HQ s. split.
  - exists []. rewrite app_nil_r. split; [apply Ht|constructor].
  - destruct (m s) eqn:Hm; [eapply HQ; exact Hm|exact I].
Qed.

Lemma emits_one {A} (m : M A) (ev : state -> event) :
  (forall s, trace (final (m s)) = trace s
             \/ trace (final (m s)) = trace s ++ [ev s] /\ P (ev s)) ->
  emits P m any.
Proof.
  intros H s. split; [|destruct (m s); exact I].
  destruct (H s) as [Ht|[Ht Hp]].
  - exists []. rewrite app_nil_r. split; [exact Ht|constructor].
  - exists [ev s]. split; [exact Ht|]. constructor; [exact Hp|constructor].
Qed.

Lemma emits_print line : P (EvPrint line) -> emits P (print line) any.
Proof.
  intros Hp. apply (emits_one _ (fun _ => EvPrint line)). intros s.
  right. split; [reflexivity|exact Hp].
Qed.

Lemma emits_try_except {A} (m : M A) (h : exn -> M A) Q :
  emits P m Q -> (forall e, emits P (h e) Q) -> emits P (try_except m h) Q.
Proof.
  intros Hm Hh s. unfold try_except. destruct (Hm s) as [(evs & Ht & HF) HQ].
  destruct (m s) as [a s1|e s1]; simpl in *.
  - split; [|exact HQ]. exists evs. split; assumption.
  - destruct (Hh e s1) as [(evs' & Ht' & HF') HQ']. split; [|exact HQ'].
    exists (evs ++ evs'). rewrite Ht', Ht, app_assoc.
    split; [reflexivity|]. apply Forall_app. split; assumption.
Qed.

Section Library.

Variable E : env.

Lemma emits_randbelow n : emits P (randbelow E n) any.
Proof.
  apply emits_silent; [|intros; exact I].
  intros s. unfold randbelow. destruct n; reflexivity.
Qed.

Lemma emits_random_random : emits P (random_random E) any.
Proof. apply emits_silent; [reflexivity|intros; exact I]. Qed.

Lemma emits_random_uniform a b : emits P (random_uniform E a b) any.
Proof.
  unfold random_uniform. eapply emits_bind; [apply emits_random_random|].
  intros u _. apply emits_ret. exact I.
Qed.

Lemma emits_random_choice {A} (l : list A) : emits P (random_choice E l) any.
Proof.
  unfold random_choice. destruct l as [|x xs]; [apply emits_raise|].
  eapply emits_bind; [apply emits_randbelow|]. intros i _.
  destruct (nth_error (x :: xs) i); [apply emits_ret; exact I|].
  apply emits_raise.
Qed.

Lemma emits_random_choices {A} (l : list A) k :
  emits P (random_choices E l k) any.
Proof.
  unfold random_choices. apply emits_for_in. intros _.
  apply emits_random_choice.
Qed.

Lemma emits_random_string alphabet k :
  emits P (random_string E alphabet k) any.
Proof.
  unfold random_string. eapply emits_bind; [apply emits_random_choices|].
  intros cs _. apply emits_ret. exact I.
Qed.

Lemma emits_random_randint a b : emits P (random_randint E a b) any.
Proof.
  unfold random_randint. destruct (b <? a)%Z; [apply emits_raise|].
  eapply emits_bind; [apply emits_randbelow|]. intros i _.
  apply emits_ret. exact I.
Qed.

Lemma emits_sample_from {A} k : forall pool : list A,
  emits P (sample_from E pool k) any.
Proof.
  induction k as [|k IH]; intros pool; simpl; [apply emits_ret; exact I|].
  eapply emits_bind; [apply emits_randbelow|]. intros j _.
  destruct (nth_error pool j); [|apply emits_raise].
  eapply emits_bind; [apply IH|]. intros rest _. apply emits_ret. exact I.
Qed.

Lemma emits_random_sample {A} (l : list A) k :
  emits P (random_sample E l k) any.
Proof.
  unfold random_sample. destruct (List.length l <? k)%nat;
    [apply emits_raise|apply emits_sample_from].
Qed.

Lemma emits_fake_string : emits P (fake_string E) any.
Proof. apply emits_silent; [reflexivity|intros; exact I]. Qed.

Lemma emits_fake_date_between a b : emits P (fake_date_between E a b) any.
Proof.
  apply emits_silent; [|intros; exact I].
  intros s. unfold fake_date_between.
  destruct (fake_date E (fk_ix s) a b); reflexivity.
Qed.

Lemma emits_date_add_days d n :
  emits P (date_add_days d n) (fun r => r = (d + n)%Z).
Proof.
  apply emits_silent.
  - intros s. unfold date_add_days.
    destruct ((1 <=? d + n) && (d + n <=? date_max))%Z; reflexivity.
  - intros s a s' H. apply date_add_days_Ok in H. tauto.
Qed.

Lemma emits_execute q ps :
  (forall rows, P (EvExecute q ps rows)) -> emits P (execute E q ps) any.
Proof.
  intros Hp s. split; [|destruct (execute E q ps s); exact I].
  unfold execute. destruct (db_execute E (db_ix s) q ps) as [e|rows]; simpl.
  - exists []. rewrite app_nil_r. split; [reflexivity|constructor].
  - exists [EvExecute q ps rows]. split; [reflexivity|].
    constructor; [apply Hp|constructor].
Qed.

Lemma emits_fetchone : emits P fetchone any.
Proof.
  apply emits_silent; [|intros; exact I].
  intros s. unfold fetchone. destruct (cur_rows s); reflexivity.
Qed.

Lemma emits_index0 v : emits P (index0 v) any.
Proof.
  unfold index0. destruct v as [| | | | | |[|x xs]];
    first [apply emits_raise | apply emits_ret; exact I].
Qed.

Lemma emits_unpack2 v : emits P (unpack2 v) any.
Proof.
  unfold unpack2. destruct v as [| | | | | |[|a [|b [|c r]]]];
    first [apply emits_raise | apply emits_ret; exact I].
Qed.

End Library.

End Emits.

(** Follow the structure of a computation. *)
Ltac emits_step :=
  lazymatch goal with
  | |- emits _ (bind _ _) _ => eapply emits_bind; [|intros ? ?]
  | |- emits _ (ret _) _ => first [apply emits_ret_any | apply emits_ret]
  | |- emits _ (raise _) _ => apply emits_raise
  | |- emits _ (for_in _ _) _ => apply emits_for_in; intros ?
  | |- emits _ (print _) _ => apply emits_print; try exact I
  | |- emits _ (randbelow _ _) _ => apply emits_randbelow
  | |- emits _ (random_random _) _ => apply emits_random_random
  | |- emits _ (random_uniform _ _ _) _ => apply emits_random_uniform
  | |- emits _ (random_choice _ _) _ => apply emits_random_choice
  | |- emits _ (random_choices _ _ _) _ => apply emits_random_choices
  | |- emits _ (random_string _ _ _) _ => apply emits_random_string
  | |- emits _ (random_randint _ _ _) _ => apply emits_random_randint
  | |- emits _ (random_sample _ _ _) _ => apply emits_random_sample
  | |- emits _ (fake_name _) _ => apply emits_fake_string
  | |- emits _ (fake_address _) _ => apply emits_fake_string
  | |- emits _ (fake_street_name _) _ => apply emits_fake_string
  | |- emits _ (fake_date_between _ _ _) _ => apply emits_fake_date_between
  | |- emits _ (date_add_days _ _) _ => apply emits_date_add_days
  | |- emits _ (execute _ _ _) _ => apply emits_execute; intros ?
  | |- emits _ fetchone _ => apply emits_fetchone
  | |- emits _ (index0 _) _ => apply emits_index0
  | |- emits _ (unpack2 _) _ => apply emits_unpack2
  | |- emits _ (match ?x with _ => _ end) _ => destruct x
  end.

Section EmitsHelpers.

Variable P : event -> Prop.
Variable E : env.

Lemma emits_random_point_in_bbox a b c d :
  emits P (Seeder.random_point_in_bbox E a b c d) is_point.
Proof.
  unfold Seeder.random_point_in_bbox.
  eapply emits_bind; [apply emits_random_uniform|]. intros lng _.
  eapply emits_bind; [apply emits_random_uniform|]. intros lat _.
  apply emits_ret. exists lng, lat. reflexivity.
Qed.

Lemma emits_random_point_in_riverside :
  emits P (SeederRC.random_point_in_riverside E) is_point.
Proof.
  unfold SeederRC.random_point_in_riverside.
  eapply emits_bind; [apply emits_random_uniform|]. intros lng _.
  eapply emits_bind; [apply emits_random_uniform|]. intros lat _.
  apply emits_ret. exists lng, lat. reflexivity.
Qed.

Lemma emits_generate_riverside_address :
  emits P (SeederRC.generate_riverside_address E) any.
Proof.
  unfold SeederRC.generate_riverside_address. repeat emits_step.
Qed.

Lemma emits_generate_riverside_party party_type :
  emits P (SeederRC.generate_riverside_party E party_type) any.
Proof.
  unfold SeederRC.generate_riverside_party.
  destruct (String.eqb party_type "Individual");
    [|destruct (String.eqb party_type "Company")]; repeat emits_step.
Qed.

End EmitsHelpers.

Ltac emits_go :=
  lazymatch goal with
  | |- emits _ (Seeder.random_point_in_bbox _ _ _ _ _) _ =>
      apply emits_random_point_in_bbox
  | |- emits _ (SeederRC.random_point_in_riverside _) _ =>
      apply emits_random_point_in_riverside
  | |- emits _ (SeederRC.generate_riverside_address _) _ =>
      apply emits_generate_riverside_address
  | |- emits _ (SeederRC.generate_riverside_party _ _) _ =>
      apply emits_generate_riverside_party
  | |- emits _ (if ?b then _ else _) _ => destruct b
  | |- _ => emits_step
  end.

(** A statement with a constant text that is not a bill *)
Ltac lawful_stmt :=
  split;
  [ vm_compute; repeat split
  | let H := fresh in intros H; vm_compute in H; discriminate H ].

(** The insert into LA_SpatialUnit, its geometry a point *)
Ltac lawful_spatial :=
  match goal with
  | H : is_point _ |- _ => destruct H as (? & ? & ->)
  end;
  split;
  [ vm_compute; split; [do 2 eexists; split; reflexivity|repeat split]
  | let H := fresh in intros H; vm_compute in H; discriminate H ].

(** The insert into TaxBill *)
Ltac lawful_bill :=
  cbv beta in *; subst;
  split;
  [ vm_compute; repeat split
  | intros _; split; [eexists; split; reflexivity|split; reflexivity] ].

Section Lawful.

Variable E : env.

Lemma lawful_seeder_party_phase N : emits lawful (Seeder.party_phase E N) any.
Proof. unfold Seeder.party_phase. repeat emits_go. lawful_stmt. Qed.

Lemma lawful_seeder_spatial_phase M :
  emits lawful (Seeder.spatial_phase E M) any.
Proof. unfold Seeder.spatial_phase. repeat emits_go. lawful_spatial. Qed.

Lemma lawful_seeder_baunit_phase ids :
  emits lawful (Seeder.baunit_phase E ids) any.
Proof. unfold Seeder.baunit_phase. repeat emits_go. lawful_stmt. Qed.

Lemma lawful_rc_party_phase N : emits lawful (SeederRC.party_phase E N) any.
Proof. unfold SeederRC.party_phase. repeat emits_go. lawful_stmt. Qed.

Lemma lawful_rc_spatial_phase M :
  emits lawful (SeederRC.spatial_phase E M) any.
Proof. unfold SeederRC.spatial_phase. repeat emits_go. lawful_spatial. Qed.

Lemma lawful_rc_baunit_phase ids :
  emits lawful (SeederRC.baunit_phase E ids) any.
Proof. unfold SeederRC.baunit_phase. repeat emits_go. lawful_stmt. Qed.

Lemma lawful_tax_rate_phase ids : emits lawful (tax_rate_phase E ids) any.
Proof.
  unfold tax_rate_phase, insert_tax_rate_areas, insert_tax_rates, assign_tra.
  repeat emits_go; lawful_stmt.
Qed.

Lemma lawful_assessment_phase ids rates :
  emits lawful (assessment_phase E ids rates) any.
Proof. unfold assessment_phase. repeat emits_go. lawful_stmt. Qed.

Lemma lawful_supplemental_phase ids rates :
  emits lawful (supplemental_phase E ids rates) any.
Proof. unfold supplemental_phase. repeat emits_go. lawful_stmt. Qed.

Lemma lawful_rrr_phase ids parties : emits lawful (rrr_phase E ids parties) any.
Proof. unfold rrr_phase. repeat emits_go. lawful_stmt. Qed.

Lemma lawful_bill_phase ids parties K :
  emits lawful (bill_phase E ids parties K) any.
Proof. unfold bill_phase. repeat emits_go. lawful_bill. Qed.

Lemma lawful_payment_phase bills : emits lawful (payment_phase E bills) any.
Proof. unfold payment_phase. repeat emits_go. lawful_stmt. Qed.

Lemma lawful_mark_paid bills : emits lawful (mark_paid E bills) any.
Proof. unfold mark_paid. repeat emits_go. lawful_stmt. Qed.

Lemma lawful_through_payments parties ids K :
  emits lawful (through_payments E parties ids K) any.
Proof.
  unfold through_payments.
  eapply emits_bind; [apply lawful_tax_rate_phase|]. intros rates _.
  eapply emits_bind; [apply lawful_assessment_phase|]. intros _ _.
  eapply emits_bind; [apply lawful_supplemental_phase|]. intros _ _.
  eapply emits_bind; [apply lawful_rrr_phase|]. intros _ _.
  eapply emits_bind; [apply lawful_bill_phase|]. intros bills _.
  eapply emits_bind; [apply lawful_payment_phase|]. intros _ _.
  apply emits_ret. exact I.
Qed.

End Lawful.

(** ** How a run ends *)

Lemma commits_last_bind {A} E (m : M A) (k : A -> M unit) Q :
  emits lawful m Q -> (forall a, commits_last E (k a)) ->
  commits_last E (bind m k).
Proof.
  intros Hm Hk s. unfold bind. destruct (Hm s) as [(evs & Ht & HF) _].
  destruct (m s) as [a s1|e s1]; simpl in Ht.
  - specialize (Hk a s1). destruct (k a s1) as [u s2|e s2].
    + destruct Hk as (Hc & evs' & Ht' & HF'). split; [exact Hc|].
      exists (evs ++ evs'). rewrite Ht', Ht, <- !app_assoc.
      split; [reflexivity|]. apply Forall_app. split; assumption.
    + destruct Hk as (evs' & Ht' & HF').
      exists (evs ++ evs'). rewrite Ht', Ht, <- !app_assoc.
      split; [reflexivity|]. apply Forall_app. split; assumption.
  - exists evs. split; assumption.
Qed.

Lemma commits_last_commit E :
  commits_last E (commit E ;; print "=== Seeding Completed Successfully! ===").
Proof.
  intros s. unfold bind, commit, print. destruct (db_commit E) as [e|]; simpl.
  - exists []. rewrite app_nil_r. split; [reflexivity|constructor].
  - split; [reflexivity|]. exists []. simpl. rewrite <- app_assoc.
    split; [reflexivity|constructor].
Qed.

Lemma commits_last_seeding E pp sp bp N M K :
  (forall n, emits lawful (pp n) any) ->
  (forall m, emits lawful (sp m) any) ->
  (forall ids, emits lawful (bp ids) any) ->
  commits_last E (seeding_with E pp sp bp N M K).
Proof.
  intros Hp Hs Hb. unfold seeding_with, later_phases.
  eapply commits_last_bind; [apply emits_print; exact I|]. intros _.
  eapply commits_last_bind; [apply Hp|]. intros party_ids.
  eapply commits_last_bind; [apply Hs|]. intros spatial_ids.
  eapply commits_last_bind; [apply Hb|]. intros baunit_ids.
  eapply commits_last_bind; [apply lawful_through_payments|]. intros bills.
  eapply commits_last_bind; [apply lawful_mark_paid|]. intros _.
  apply commits_last_commit.
Qed.

Lemma commits_last_try_block sc E N M K :
  commits_last E (try_block sc E N M K).
Proof.
  destruct sc; simpl.
  - apply (commits_last_seeding E (Seeder.party_phase E)
             (Seeder.spatial_phase E) (Seeder.baunit_phase E)).
    + apply lawful_seeder_party_phase.
    + apply lawful_seeder_spatial_phase.
    + apply lawful_seeder_baunit_phase.
  - apply (commits_last_seeding E (SeederRC.party_phase E)
             (SeederRC.spatial_phase E) (SeederRC.baunit_phase E)).
    + apply lawful_rc_party_phase.
    + apply lawful_rc_spatial_phase.
    + apply lawful_rc_baunit_phase.
Qed.

Lemma run_unfold sc E N M K :
  run sc E N M K = with_transaction E (try_block sc E N M K) initial.
Proof. destruct sc; reflexivity. Qed.

Lemma run_ending sc E N M K :
  ending E (try_block sc E N M K connected) (run sc E N M K).
Proof.
  rewrite run_unfold. unfold with_transaction, bind, connect.
  destruct (db_connect E) as [e|] eqn:Hconn; [apply end_no_connection; exact Hconn|].
  change (emit EvConnect initial) with connected.
  pose proof (commits_last_try_block sc E N M K connected) as Hblock.
  unfold try_finally, try_except.
  destruct (try_block sc E N M K connected) as [[] s1|e s1] eqn:Hb.
  - destruct Hblock as (Hc & evs & Ht & HF).
    eapply end_committed; try eassumption; [reflexivity|].
    unfold cleanup, bind, cursor_close, conn_close. simpl.
    rewrite Ht. simpl. rewrite <- !app_assoc. reflexivity.
  - destruct Hblock as (evs & Ht & HF).
    unfold on_error, bind, rollback.
    destruct (db_rollback E) as [e2|] eqn:Hroll; simpl.
    + eapply end_rollback_failed; try eassumption; [reflexivity|].
      simpl. rewrite Ht. simpl. rewrite <- ?app_assoc. reflexivity.
    + eapply end_rolled_back; try eassumption; [reflexivity|].
      simpl. rewrite Ht. simpl. rewrite <- ?app_assoc. reflexivity.
Qed.

Lemma run_statements_lawful sc E N M K :
  Forall (fun ev => is_execute ev = true -> lawful ev)
         (trace (final (run sc E N M K))).
Proof.
  assert (forall evs tail,
            Forall lawful evs ->
            Forall (fun ev => is_execute ev = false) tail ->
            Forall (fun ev => is_execute ev = true -> lawful ev)
                   (EvConnect :: evs ++ tail)) as Hall.
  { intros evs tail Hl Ht. constructor; [discriminate|].
    apply Forall_app. split.
    - eapply Forall_impl; [|exact Hl]. intros ev H _. exact H.
    - eapply Forall_impl; [|exact Ht]. intros ev H H'. congruence. }
  destruct (run_ending sc E N M K)
    as [e _|evs s1 s _ _ _ HF Ht|e evs s1 s _ _ _ HF Ht
        |e e2 evs s1 s _ _ _ HF Ht]; simpl.
  - constructor.
  - rewrite Ht. apply Hall; [exact HF|repeat constructor].
  - rewrite Ht. apply Hall; [exact HF|repeat constructor].
  - rewrite Ht. apply Hall; [exact HF|repeat constructor].
Qed.

Lemma lawful_plain ev : lawful ev -> plain ev.
Proof. destruct ev; simpl; tauto. Qed.

Lemma plain_not_commit pre : Forall plain pre -> ~ In EvCommit pre.
Proof.
  intros H Hin. apply (proj1 (Forall_forall _ _) H) in Hin. exact Hin.
Qed.

Lemma committed_rolled_back pre tail :
  Forall plain pre ->
  committed (pre ++ EvRollback :: tail) = committed tail.
Proof.
  intros H. unfold committed. rewrite (durable_plain _ H). reflexivity.
Qed.

Lemma committed_closed pre :
  Forall plain pre ->
  committed (pre ++ [EvCursorClose; EvConnClose]) = [].
Proof.
  intros H. unfold committed. rewrite (durable_plain _ H). reflexivity.
Qed.

Lemma filter_execute_run pre line :
  filter is_execute
    (pre ++ [EvCommit; EvPrint line; EvCursorClose; EvConnClose])
  = filter is_execute pre.
Proof. rewrite filter_app. simpl. apply app_nil_r. Qed.

(** ** Before the bill phase *)

Ltac quiet := repeat emits_go; unfold not_bill_line, bill_line; discriminate.

Section Quiet.

Variable E : env.

Lemma quiet_seeder_party_phase N :
  emits not_bill_line (Seeder.party_phase E N) any.
Proof. unfold Seeder.party_phase. quiet. Qed.

Lemma quiet_seeder_spatial_phase M :
  emits not_bill_line (Seeder.spatial_phase E M) any.
Proof. unfold Seeder.spatial_phase. quiet. Qed.

Lemma quiet_seeder_baunit_phase ids :
  emits not_bill_line (Seeder.baunit_phase E ids) any.
Proof. unfold Seeder.baunit_phase. quiet. Qed.

Lemma quiet_rc_party_phase N :
  emits not_bill_line (SeederRC.party_phase E N) any.
Proof. unfold SeederRC.party_phase. quiet. Qed.

Lemma quiet_rc_spatial_phase M :
  emits not_bill_line (SeederRC.spatial_phase E M) any.
Proof. unfold SeederRC.spatial_phase. quiet. Qed.

Lemma quiet_rc_baunit_phase ids :
  emits not_bill_line (SeederRC.baunit_phase E ids) any.
Proof. unfold SeederRC.baunit_phase. quiet. Qed.

Lemma quiet_tax_rate_phase ids : emits not_bill_line (tax_rate_phase E ids) any.
Proof.
  unfold tax_rate_phase, insert_tax_rate_areas, insert_tax_rates, assign_tra.
  quiet.
Qed.

Lemma quiet_assessment_phase ids rates :
  emits not_bill_line (assessment_phase E ids rates) any.
Proof. unfold assessment_phase. quiet. Qed.

Lemma quiet_supplemental_phase ids rates :
  emits not_bill_line (supplemental_phase E ids rates) any.
Proof. unfold supplemental_phase. quiet. Qed.

Lemma quiet_rrr_phase ids parties :
  emits not_bill_line (rrr_phase E ids parties) any.
Proof. unfold rrr_phase. quiet. Qed.

End Quiet.

Lemma quiet_keeps evs tr :
  Forall not_bill_line evs -> ~ In bill_line tr -> ~ In bill_line (tr ++ evs).
Proof.
  intros HF Hn Hin. apply in_app_or in Hin. destruct Hin as [Hin|Hin].
  - exact (Hn Hin).
  - apply (proj1 (Forall_forall _ _) HF) in Hin. apply Hin. reflexivity.
Qed.

(** A quiet step that the run gets past on its way to the bill line *)
Lemma quiet_step {A B} (m : M A) (k : A -> M B) Q s e s1 :
  emits not_bill_line m Q ->
  ~ In bill_line (trace s) ->
  bind m k s = Raise e s1 ->
  In bill_line (trace s1) ->
  exists a s', m s = Ok a s' /\ k a s' = Raise e s1
               /\ ~ In bill_line (trace s').
Proof.
  intros Hm Hn Hb Hin. destruct (Hm s) as [(evs & Ht & HF) _].
  apply bind_Raise in Hb. destruct Hb as [Hb|(a & s' & Hb & Hk)].
  - rewrite Hb in Ht. simpl in Ht. rewrite Ht in Hin.
    exfalso. exact (quiet_keeps _ _ HF Hn Hin).
  - rewrite Hb in Ht. simpl in Ht.
    exists a, s'. split; [exact Hb|]. split; [exact Hk|].
    rewrite Ht. apply quiet_keeps; assumption.
Qed.

(** A quiet step, whatever follows *)
Lemma quiet_then {A B} (m : M A) (k : A -> M B) Q s :
  emits not_bill_line m Q ->
  ~ In bill_line (trace s) ->
  (forall a s', m s = Ok a s' -> ~ In bill_line (trace s') ->
                ~ In bill_line (trace (final (k a s')))) ->
  ~ In bill_line (trace (final (bind m k s))).
Proof.
  intros Hm Hn Hk. destruct (Hm s) as [(evs & Ht & HF) _].
  unfold bind. destruct (m s) as [a s'|e s'] eqn:Hms; simpl in Ht.
  - apply Hk; [reflexivity|]. rewrite Ht. apply quiet_keeps; assumption.
  - simpl. rewrite Ht. apply quiet_keeps; assumption.
Qed.

Lemma bill_phase_no_baunits E party_ids K s :
  (1 <= K)%Z ->
  bill_phase E [] party_ids K s = Raise IndexError (emit bill_line s).
Proof.
  intros HK. unfold bill_phase, range.
  destruct (Z.to_nat K) as [|n] eqn:Hn; [lia|]. reflexivity.
Qed.

Lemma rrr_phase_no_parties E b bs s :
  rrr_phase E (b :: bs) [] s
  = Raise IndexError (emit (EvPrint "Inserting RRR (Ownership)...") s).
Proof. reflexivity. Qed.

Lemma length_zero_nil {A} (l : list A) : List.length l = 0 -> l = [].
Proof. destruct l; [reflexivity|discriminate]. Qed.

Lemma dies_bind_left {A B} (m : M A) (k : A -> M B) s :
  dies m s -> dies (bind m k) s.
Proof.
  intros [(e & s' & Hm) Hq]. unfold dies, bind. rewrite Hm in *.
  split; [eexists _, _; reflexivity|exact Hq].
Qed.

Lemma dies_bind_right {A B} (m : M A) (k : A -> M B) Q s :
  emits not_bill_line m Q ->
  ~ In bill_line (trace s) ->
  (forall a s', m s = Ok a s' -> ~ In bill_line (trace s') -> dies (k a) s') ->
  dies (bind m k) s.
Proof.
  intros Hm Hn Hk. destruct (Hm s) as [(evs & Ht & HF) _].
  unfold dies, bind. destruct (m s) as [a s'|e s'] eqn:Hms; simpl in Ht.
  - apply Hk; [reflexivity|]. rewrite Ht. apply quiet_keeps; assumption.
  - split; [eexists _, _; reflexivity|].
    simpl. rewrite Ht. apply quiet_keeps; assumption.
Qed.

Section BillLine.

Variable E : env.
Variables pp sp : Z -> M (list value).
Variable bp : list value -> M (list value).

Hypothesis pp_Ok : forall N s ids s',
  pp N s = Ok ids s' -> List.length ids = Z.to_nat N.
Hypothesis sp_Ok : forall M s ids s',
  sp M s = Ok ids s' -> List.length ids = Z.to_nat M.
Hypothesis bp_Ok : forall spatial_ids s ids s',
  bp spatial_ids s = Ok ids s' -> List.length ids = List.length spatial_ids.
Hypothesis pp_quiet : forall N, emits not_bill_line (pp N) any.
Hypothesis sp_quiet : forall M, emits not_bill_line (sp M) any.
Hypothesis bp_quiet : forall ids, emits not_bill_line (bp ids) any.

Lemma no_parcels_bill_line N M K s e s1 :
  (1 <= K)%Z -> (M <= 0)%Z ->
  ~ In bill_line (trace s) ->
  seeding_with E pp sp bp N M K s = Raise e s1 ->
  In bill_line (trace s1) ->
  e = IndexError /\ exists pre, trace s1 = pre ++ [bill_line].
Proof.
  intros HK HM Hn H Hin. unfold seeding_with in H.
  eapply quiet_step in H; [|apply emits_print; discriminate|exact Hn|exact Hin].
  destruct H as (_ & s2 & _ & H & Hn2).
  eapply quiet_step in H; [|apply pp_quiet|exact Hn2|exact Hin].
  destruct H as (party_ids & s3 & _ & H & Hn3).
  eapply quiet_step in H; [|apply sp_quiet|exact Hn3|exact Hin].
  destruct H as (spatial_ids & s4 & Hsp & H & Hn4).
  eapply quiet_step in H; [|apply bp_quiet|exact Hn4|exact Hin].
  destruct H as (baunit_ids & s5 & Hbp & H & Hn5).
  apply sp_Ok in Hsp. apply bp_Ok in Hbp.
  assert (baunit_ids = []) as ->.
  { apply length_zero_nil. rewrite Hbp, Hsp. lia. }
  unfold later_phases in H. apply bind_Raise in H.
  destruct H as [H|(bills & s6 & H & _)].
  - unfold through_payments in H.
    eapply quiet_step in H; [|apply quiet_tax_rate_phase|exact Hn5|exact Hin].
    destruct H as (rates & s7 & _ & H & Hn7).
    eapply quiet_step in H; [|apply quiet_assessment_phase|exact Hn7|exact Hin].
    destruct H as (_ & s8 & _ & H & Hn8).
    eapply quiet_step in H;
      [|apply quiet_supplemental_phase|exact Hn8|exact Hin].
    destruct H as (_ & s9 & _ & H & Hn9).
    eapply quiet_step in H; [|apply quiet_rrr_phase|exact Hn9|exact Hin].
    destruct H as (_ & s10 & _ & H & Hn10).
    unfold bind in H. rewrite (bill_phase_no_baunits _ _ _ _ HK) in H.
    inversion H; subst. split; [reflexivity|].
    exists (trace s10). reflexivity.
  - exfalso. unfold through_payments in H.
    do 4 (apply bind_Ok in H; destruct H as (? & ? & _ & H)).
    apply bind_Ok in H. destruct H as (? & ? & H & _).
    rewrite (bill_phase_no_baunits _ _ _ _ HK) in H. discriminate H.
Qed.

Lemma no_parties_no_bill_line N M K s :
  (N <= 0)%Z -> (1 <= M)%Z ->
  ~ In bill_line (trace s) ->
  ~ In bill_line (trace (final (seeding_with E pp sp bp N M K s))).
Proof.
  intros HN HM Hn. unfold seeding_with.
  eapply quiet_then; [apply emits_print; discriminate|exact Hn|].
  intros _ s2 _ Hn2.
  eapply quiet_then; [apply pp_quiet|exact Hn2|].
  intros party_ids s3 Hpp Hn3.
  eapply quiet_then; [apply sp_quiet|exact Hn3|].
  intros spatial_ids s4 Hsp Hn4.
  eapply quiet_then; [apply bp_quiet|exact Hn4|].
  intros baunit_ids s5 Hbp Hn5.
  apply pp_Ok in Hpp. apply sp_Ok in Hsp. apply bp_Ok in Hbp.
  assert (party_ids = []) as ->.
  { apply length_zero_nil. rewrite Hpp. lia. }
  destruct baunit_ids as [|b bs]; [simpl in Hbp; lia|].
  unfold later_phases.
  apply (fun H => proj2 (dies_bind_left _ _ s5 H)).
  unfold through_payments.
  eapply dies_bind_right; [apply quiet_tax_rate_phase|exact Hn5|].
  intros rates s6 _ Hn6.
  eapply dies_bind_right; [apply quiet_assessment_phase|exact Hn6|].
  intros _ s7 _ Hn7.
  eapply dies_bind_right; [apply quiet_supplemental_phase|exact Hn7|].
  intros _ s8 _ Hn8.
  apply dies_bind_left. split.
  - eexists _, _. apply rrr_phase_no_parties.
  - rewrite rrr_phase_no_parties. simpl. apply quiet_keeps; [|exact Hn8].
    constructor; [discriminate|constructor].
Qed.

End BillLine.

(** * The claims *)

(** C1.  A run of [seed_data] of either script with non-negative counts
    N, M, K that returns has executed exactly N inserts into LA_Party,
    M into LA_SpatialUnit, M into LA_BAUnit and K into TaxBill, and
    these are the rows of the four tables that the run leaves committed. *)
Theorem C1_row_counts (sc : script) (E : env) (N M K : Z) :
  (0 <= N)%Z -> (0 <= M)%Z -> (0 <= K)%Z ->
  succeeded (run sc E N M K) ->
  let tr := trace (final (run sc E N M K)) in
  (Z.of_nat (count_stmts Insert "ladm.LA_Party" tr) = N
   /\ Z.of_nat (count_stmts Insert "ladm.LA_SpatialUnit" tr) = M
   /\ Z.of_nat (count_stmts Insert "ladm.LA_BAUnit" tr) = M
   /\ Z.of_nat (count_stmts Insert "ladm.TaxBill" tr) = K)
  /\ (Z.of_nat (rows_of "ladm.LA_Party" tr) = N
      /\ Z.of_nat (rows_of "ladm.LA_SpatialUnit" tr) = M
      /\ Z.of_nat (rows_of "ladm.LA_BAUnit" tr) = M
      /\ Z.of_nat (rows_of "ladm.TaxBill" tr) = K).
Proof.
  intros HN HM HK Hrun tr.
  destruct (run_counts _ _ _ _ _ (run_returns_shape _ _ _ _ _ Hrun))
    as (p & u & Hc & Hrows & _ & _).
  fold tr in Hc, Hrows.
  destruct (pattern_counts (Z.to_nat N) (Z.to_nat M) (Z.to_nat K) p u)
    as (C1 & C2 & C3 & C4 & _).
  rewrite !Hrows.
  pose proof (Hc (Insert, "ladm.LA_Party")) as H1.
  pose proof (Hc (Insert, "ladm.LA_SpatialUnit")) as H2.
  pose proof (Hc (Insert, "ladm.LA_BAUnit")) as H3.
  pose proof (Hc (Insert, "ladm.TaxBill")) as H4.
  cbn [fst snd] in H1, H2, H3, H4.
  rewrite H1, H2, H3, H4, C1, C2, C3, C4. lia.
Qed.

Lemma C1_row_counts_witness :
  let tr := trace (final (run SeederPy sample_env 10 20 40)) in
  (Z.of_nat (count_stmts Insert "ladm.LA_Party" tr) = 10%Z
   /\ Z.of_nat (count_stmts Insert "ladm.LA_SpatialUnit" tr) = 20%Z
   /\ Z.of_nat (count_stmts Insert "ladm.LA_BAUnit" tr) = 20%Z
   /\ Z.of_nat (count_stmts Insert "ladm.TaxBill" tr) = 40%Z)
  /\ (Z.of_nat (rows_of "ladm.LA_Party" tr) = 10%Z
      /\ Z.of_nat (rows_of "ladm.LA_SpatialUnit" tr) = 20%Z
      /\ Z.of_nat (rows_of "ladm.LA_BAUnit" tr) = 20%Z
      /\ Z.of_nat (rows_of "ladm.TaxBill" tr) = 40%Z).
Proof.
  apply (C1_row_counts SeederPy sample_env 10 20 40); try lia.
  vm_compute. exact I.
Defined.

(** C3.  In a run of either script with M >= 0 parcels that returns,
    exactly min(floor(M/5), 10) inserts into SupplementalAssessment are
    executed, and as many rows are committed; the BAUnits they name are
    drawn without replacement: together with some others they make up,
    each as often as it was returned, the BAUnit identifiers of the run. *)
Theorem C3_supplemental_count (sc : script) (E : env) (N M K : Z) :
  (0 <= M)%Z ->
  succeeded (run sc E N M K) ->
  let tr := trace (final (run sc E N M K)) in
  Z.of_nat (count_stmts Insert "ladm.SupplementalAssessment" tr)
  = Z.min (M / 5) 10
  /\ Z.of_nat (rows_of "ladm.SupplementalAssessment" tr) = Z.min (M / 5) 10
  /\ exists others,
       Permutation
         (map (param 0) (select Insert "ladm.SupplementalAssessment" tr)
          ++ others)
         (returned "ladm.LA_BAUnit" tr).
Proof.
  intros HM Hrun tr.
  pose proof (run_returns_shape _ _ _ _ _ Hrun) as Hshape. fold tr in Hshape.
  destruct (run_counts _ _ _ _ _ Hshape) as (p & u & Hc & Hrows & _ & _).
  destruct (pattern_counts (Z.to_nat N) (Z.to_nat M) (Z.to_nat K) p u)
    as (_ & _ & _ & _ & C5 & _).
  pose proof (Hc (Insert, "ladm.SupplementalAssessment")) as H5.
  cbn [fst snd] in H5.
  assert (Z.of_nat (Nat.min (Z.to_nat M / 5) 10) = Z.min (M / 5) 10) as Hz.
  { rewrite Nat2Z.inj_min, Nat2Z.inj_div, Z2Nat.id by exact HM.
    reflexivity. }
  rewrite Hrows, H5, C5. split; [exact Hz|]. split; [exact Hz|].
  open_shape Hshape. rewrite Htr. unfold returned.
  exists unsupp. selecting.
  rewrite (supp_units _ _ _ HSupp), (returned_baunits _ _ _ HBA).
  exact PSupp.
Qed.

Lemma C3_supplemental_count_witness :
  let tr := trace (final (run SeederRcPy sample_env 10 20 40)) in
  Z.of_nat (count_stmts Insert "ladm.SupplementalAssessment" tr)
  = Z.min (20 / 5) 10
  /\ Z.of_nat (rows_of "ladm.SupplementalAssessment" tr) = Z.min (20 / 5) 10
  /\ exists others,
       Permutation
         (map (param 0) (select Insert "ladm.SupplementalAssessment" tr)
          ++ others)
         (returned "ladm.LA_BAUnit" tr).
Proof.
  apply (C3_supplemental_count SeederRcPy sample_env 10 20 40); [lia|].
  vm_compute. exact I.
Defined.

(** C2.  In a run of either script with K >= 0 bills that returns, the
    K bills inserted split into floor(K/2) sampled bills and
    K - floor(K/2) others (sampling without replacement: the two groups
    together are the inserted bills, each as often as it was inserted).
    The inserts into TaxPayment of the run are, in order, one group of 1
    or 2 per sampled bill, each carrying the (bill_date, bill_uid) of its
    bill; no other payment is inserted.  When the database returned
    pairwise different bill keys, the sampled bills are pairwise different
    and none of the others is among them. *)
Theorem C2_payments (sc : script) (E : env) (N M K : Z) :
  (0 <= K)%Z ->
  succeeded (run sc E N M K) ->
  let tr := trace (final (run sc E N M K)) in
  exists sampled others groups,
    Permutation (sampled ++ others) (returned_rows "ladm.TaxBill" tr)
    /\ Z.of_nat (List.length sampled) = (K / 2)%Z
    /\ Z.of_nat (List.length others) = (K - K / 2)%Z
    /\ select Insert "ladm.TaxPayment" tr = List.concat groups
    /\ Forall2 pay_evs sampled groups
    /\ (NoDup (returned_rows "ladm.TaxBill" tr) ->
        NoDup sampled /\ forall b, In b others -> ~ In b sampled).
Proof.
  intros HK Hrun tr.
  pose proof (run_returns_shape _ _ _ _ _ Hrun) as Hshape. fold tr in Hshape.
  open_shape Hshape. rewrite Htr. unfold returned_rows.
  exists picked, unpicked, evPay. selecting.
  rewrite (bill_rows _ _ _ _ HBill).
  assert (Z.of_nat (List.length picked) = (K / 2)%Z) as Hp.
  { rewrite LPick, LBill, Nat2Z.inj_div, Z2Nat.id by exact HK.
    reflexivity. }
  pose proof (Permutation_length PPick) as Hlen. rewrite length_app in Hlen.
  split; [exact PPick|]. split; [exact Hp|]. split; [|split; [reflexivity|]].
  - assert (Z.of_nat (List.length bills) = K) by (rewrite LBill; lia). lia.
  - split; [exact HPay|]. intros Hnd.
    apply (Permutation_NoDup (Permutation_sym PPick)) in Hnd.
    split; [eapply NoDup_app_remove_r; exact Hnd|].
    intros b Hb Hin. exact (NoDup_app_apart _ _ Hnd b Hin Hb).
Qed.

Lemma C2_payments_witness :
  let tr := trace (final (run SeederPy sample_env 10 20 40)) in
  exists sampled others groups,
    Permutation (sampled ++ others) (returned_rows "ladm.TaxBill" tr)
    /\ Z.of_nat (List.length sampled) = (40 / 2)%Z
    /\ Z.of_nat (List.length others) = (40 - 40 / 2)%Z
    /\ select Insert "ladm.TaxPayment" tr = List.concat groups
    /\ Forall2 pay_evs sampled groups
    /\ (NoDup (returned_rows "ladm.TaxBill" tr) ->
        NoDup sampled /\ forall b, In b others -> ~ In b sampled).
Proof.
  apply (C2_payments SeederPy sample_env 10 20 40); [lia|].
  vm_compute. exact I.
Defined.

(** C7.  In a run of either script that returns, every statement refers
    only to identifiers that an earlier statement of the same run
    returned: wherever the trace is cut as [pre ++ ev :: post], the
    spatial_unit_id of a BAUnit insert, the tra_id and ba_unit_id of a
    BAUnit update, the ba_unit_id and tax_rate_id of an assessment or a
    supplemental assessment, the ba_unit_id and party_id of an ownership
    record or a bill, and the (bill_date, bill_uid) of a payment or a
    paid-flag update are among the values that the RETURNING clauses of
    the inserts in [pre] gave back. *)
Theorem C7_foreign_keys (sc : script) (E : env) (N M K : Z) :
  succeeded (run sc E N M K) ->
  forall pre ev post,
    trace (final (run sc E N M K)) = pre ++ ev :: post -> fk_ok pre ev.
Proof.
  intros Hrun pre ev post Hcut.
  pose proof (run_fk_closed _ _ _ _ _ (run_returns_shape _ _ _ _ _ Hrun))
    as Hclosed.
  exact (fk_closed_at _ [] pre ev post Hclosed Hcut).
Qed.

Lemma C7_foreign_keys_witness :
  let tr := trace (final (run SeederPy sample_env 3 4 6)) in
  stmt Insert "ladm.TaxBill" (nth 40 tr EvConnect)
  /\ fk_ok (firstn 40 tr) (nth 40 tr EvConnect).
Proof.
  split; [vm_compute; reflexivity|].
  apply (C7_foreign_keys SeederPy sample_env 3 4 6)
    with (post := skipn 41 (trace (final (run SeederPy sample_env 3 4 6)))).
  - vm_compute. exact I.
  - vm_compute. reflexivity.
Defined.

(** C4.  In a run of either script that returns, every bill is inserted
    with is_paid false, and the paid-flag updates are issued for exactly
    the bills whose own draw of [random.random()], a value k / 2^53 with
    k < 2^53, is below 0.5 (k < 2^52): the keys updated are the bills
    filtered by their draws, in order, so that, the bill keys being
    pairwise different, the bill at a position is updated if and only if
    the draw at that position is below 0.5.  Nothing else enters: a
    second run of the same script in any other environment (other
    payment count, dates, amounts, sampled bills) that inserts the same
    bills and reads the same draws in the loop updates the same bills. *)
Theorem C4_paid_flags (sc : script) (E : env) (N M K : Z) :
  succeeded (run sc E N M K) ->
  let tr := trace (final (run sc E N M K)) in
  let bills := returned_rows "ladm.TaxBill" tr in
  let coins := coin_draws sc E N M K in
  List.length coins = List.length bills
  /\ Forall (fun c => (c < 2 ^ 53)%N) coins
  /\ Forall (fun ev => param 5 ev = VBool false)
       (select Insert "ladm.TaxBill" tr)
  /\ marked_paid tr = heads coins bills
  /\ (NoDup bills ->
      forall i b c,
        nth_error bills i = Some b -> nth_error coins i = Some c ->
        (In b (marked_paid tr) <-> (c < 2 ^ 52)%N))
  /\ (forall E',
        succeeded (run sc E' N M K) ->
        returned_rows "ladm.TaxBill" (trace (final (run sc E' N M K)))
        = bills ->
        coin_draws sc E' N M K = coins ->
        marked_paid (trace (final (run sc E' N M K))) = marked_paid tr).
Proof.
  intros Hrun tr bills coins.
  destruct (run_marked_paid _ _ _ _ _ Hrun) as (Hm & Hlen & Hfalse).
  fold tr in Hm, Hfalse. fold bills in Hm, Hlen. fold coins in Hm, Hlen.
  split; [exact Hlen|]. split.
  { unfold coins, coin_draws.
    destruct (before_flags_of sc E N M K); [apply draws_bound|constructor]. }
  split; [exact Hfalse|]. split; [exact Hm|]. split.
  - intros Hnd i b c Hb Hc. rewrite Hm. split.
    + intros Hin. apply heads_in in Hin.
      destruct Hin as (j & c' & Hc' & Hb' & Hh).
      assert (j = i) by (eapply NoDup_nth_error_same; eassumption). subst j.
      assert (c' = c) by congruence. subst c'.
      apply N.ltb_lt. exact Hh.
    + intros Hlt. eapply in_heads; [exact Hc|exact Hb|].
      apply N.ltb_lt. exact Hlt.
  - intros E' Hrun' Hbills Hcoins.
    destruct (run_marked_paid _ _ _ _ _ Hrun') as (Hm' & _ & _).
    rewrite Hm', Hm, Hbills, Hcoins. reflexivity.
Qed.

Lemma C4_paid_flags_witness :
  let tr := trace (final (run SeederPy sample_env 3 4 6)) in
  let bills := returned_rows "ladm.TaxBill" tr in
  let coins := coin_draws SeederPy sample_env 3 4 6 in
  List.length coins = List.length bills
  /\ Forall (fun c => (c < 2 ^ 53)%N) coins
  /\ Forall (fun ev => param 5 ev = VBool false)
       (select Insert "ladm.TaxBill" tr)
  /\ marked_paid tr = heads coins bills
  /\ (NoDup bills ->
      forall i b c,
        nth_error bills i = Some b -> nth_error coins i = Some c ->
        (In b (marked_paid tr) <-> (c < 2 ^ 52)%N))
  /\ (forall E',
        succeeded (run SeederPy E' 3 4 6) ->
        returned_rows "ladm.TaxBill" (trace (final (run SeederPy E' 3 4 6)))
        = bills ->
        coin_draws SeederPy E' 3 4 6 = coins ->
        marked_paid (trace (final (run SeederPy E' 3 4 6))) = marked_paid tr).
Proof.
  apply (C4_paid_flags SeederPy sample_env 3 4 6).
  vm_compute. exact I.
Defined.

(** C8.  In every run of either script, returning or not, every insert
    into LA_SpatialUnit has the text of the spatial function call
    ST_SetSRID(ST_MakePoint(lng, lat), 4326) spliced into its query text,
    the two floats being the only interpolated values, and binds three
    parameters to the three placeholders of the other three of its four
    columns; every other statement has a constant query text with nothing
    interpolated and as many placeholders as parameters, which for an
    insert is the number of its columns. *)
Theorem C8_bound_parameters (sc : script) (E : env) (N M K : Z) :
  Forall bound_event (trace (final (run sc E N M K))).
Proof.
  eapply Forall_impl; [|apply run_statements_lawful].
  intros ev H. destruct ev; try exact I. simpl. apply H. reflexivity.
Qed.

(** C10.  In every run of either script, returning or not, every insert
    into TaxBill carries a due_date that is its bill_date plus 30 days,
    is_paid false and a null supplemental_id. *)
Theorem C10_bill_terms (sc : script) (E : env) (N M K : Z) :
  Forall bill_terms (trace (final (run sc E N M K))).
Proof.
  eapply Forall_impl; [|apply run_statements_lawful].
  intros ev H. destruct ev; try (intros Hs; discriminate Hs).
  apply H. reflexivity.
Qed.

(** C5, as it stands, fails: when the server goes away during the first
    insert, the [try] block raises the error of the insert, the handler's
    own [conn.rollback()] raises on the dead connection, and [seed_data]
    ends with the error of the rollback, not with the original one; no
    rollback has taken place. *)
Lemma C5_counterexample :
  (exists s1,
     try_block SeederPy lost_connection_env 1 1 1 connected
     = Raise (DbError 1) s1)
  /\ (exists s, run SeederPy lost_connection_env 1 1 1 = Raise (DbError 2) s)
  /\ ~ (exists s, run SeederPy lost_connection_env 1 1 1
                  = Raise (DbError 1) s)
  /\ ~ In EvRollback (trace (final (run SeederPy lost_connection_env 1 1 1))).
Proof.
  split; [eexists; vm_compute; reflexivity|].
  split; [eexists; vm_compute; reflexivity|].
  split.
  - intros [s Hs]. vm_compute in Hs. discriminate Hs.
  - vm_compute. intros H.
    repeat match goal with
           | H : _ \/ _ |- _ => destruct H as [H|H]; try discriminate H
           end.
    exact H.
Qed.

(** C5, amended.  [seed_data] of either script, once connected, ends in
    one of three ways.  When the [try] block returns, the run returns;
    its trace has one commit, placed after every statement, and all the
    statements of the run are committed.  When the [try] block raises
    [e], no commit has happened and nothing of the run is committed;
    if [conn.rollback()] returns, the rollback comes after every
    statement and the run raises the same [e]; if [conn.rollback()]
    itself raises [e2], the run raises [e2].  When the connection cannot
    be opened, the run raises the error of the connection and the trace
    is empty. *)
Theorem C5_commit_or_rollback (sc : script) (E : env) (N M K : Z) :
  let block := try_block sc E N M K connected in
  let r := run sc E N M K in
  let tr := trace (final r) in
  (forall e, db_connect E = Some e -> r = Raise e initial)
  /\ (db_connect E = None ->
      (succeeded block ->
       succeeded r
       /\ exists pre,
            tr = pre ++ [EvCommit; EvPrint done_line;
                         EvCursorClose; EvConnClose]
            /\ Forall plain pre
            /\ committed tr = filter is_execute tr)
      /\ (forall e s1,
            block = Raise e s1 ->
            ~ In EvCommit tr
            /\ committed tr = []
            /\ (db_rollback E = None ->
                (exists s, r = Raise e s)
                /\ exists pre,
                     tr = pre ++ [EvRollback; EvPrint error_line;
                                  EvCursorClose; EvConnClose]
                     /\ Forall plain pre)
            /\ (forall e2, db_rollback E = Some e2 ->
                           exists s, r = Raise e2 s))).
Proof.
  intros block r tr. pose proof (run_ending sc E N M K) as Hend.
  fold block in Hend. fold r in Hend. unfold tr. clear tr.
  destruct Hend
    as [e Hc|evs s1 s Hc Hcm Hb HF Ht|e evs s1 s Hc Hr Hb HF Ht
        |e e2 evs s1 s Hc Hr Hb HF Ht]; simpl.
  - split; [intros e' He; congruence|]. intros Hn. congruence.
  - split; [intros e' He; congruence|]. intros _.
    assert (Forall plain (EvConnect :: evs)) as Hplain.
    { constructor; [exact I|].
      eapply Forall_impl; [apply lawful_plain|exact HF]. }
    split.
    + intros _. split; [exact I|]. exists (EvConnect :: evs).
      split; [exact Ht|]. split; [exact Hplain|].
      rewrite Ht.
      change (EvConnect :: evs ++ ?t) with ((EvConnect :: evs) ++ t).
      rewrite (committed_run _ _ Hplain), filter_execute_run. reflexivity.
    + intros e s2 Hb'. rewrite Hb in Hb'. discriminate Hb'.
  - split; [intros e' He; congruence|]. intros _.
    assert (Forall plain (EvConnect :: evs)) as Hplain.
    { constructor; [exact I|].
      eapply Forall_impl; [apply lawful_plain|exact HF]. }
    split; [rewrite Hb; intros []|].
    intros e' s2 Hb'. rewrite Hb in Hb'. inversion Hb'; subst e' s2.
    rewrite Ht.
    change (EvConnect :: evs ++ ?t) with ((EvConnect :: evs) ++ t).
    split.
    { intros Hin. apply in_app_or in Hin. destruct Hin as [Hin|Hin].
      - exact (plain_not_commit _ Hplain Hin).
      - simpl in Hin.
        repeat match goal with
               | H : _ \/ _ |- _ => destruct H as [H|H]; try discriminate H
               end.
        exact Hin. }
    split; [rewrite (committed_rolled_back _ _ Hplain); reflexivity|].
    split.
    + intros _. split; [exists s; reflexivity|].
      exists (EvConnect :: evs). split; [reflexivity|exact Hplain].
    + intros e2 He2. congruence.
  - split; [intros e' He; congruence|]. intros _.
    assert (Forall plain (EvConnect :: evs)) as Hplain.
    { constructor; [exact I|].
      eapply Forall_impl; [apply lawful_plain|exact HF]. }
    split; [rewrite Hb; intros []|].
    intros e' s2 Hb'. rewrite Hb in Hb'. inversion Hb'; subst e' s2.
    rewrite Ht.
    change (EvConnect :: evs ++ ?t) with ((EvConnect :: evs) ++ t).
    split.
    { intros Hin. apply in_app_or in Hin. destruct Hin as [Hin|Hin].
      - exact (plain_not_commit _ Hplain Hin).
      - simpl in Hin.
        repeat match goal with
               | H : _ \/ _ |- _ => destruct H as [H|H]; try discriminate H
               end.
        exact Hin. }
    split; [rewrite (committed_closed _ Hplain); reflexivity|].
    split.
    + intros Hn. congruence.
    + intros e3 He3. exists s. congruence.
Qed.

(** * Further properties of the two scripts *)

(** ** The order of the statements *)

Lemma kinds_tail line :
  kinds [EvCommit; EvPrint line; EvCursorClose; EvConnClose] = [].
Proof. reflexivity. Qed.

Lemma lawful_not ev evs :
  Forall lawful evs -> In ev evs ->
  match ev with EvPrint _ | EvExecute _ _ _ => True | _ => False end.
Proof.
  intros HF Hin. apply (proj1 (Forall_forall _ _) HF) in Hin.
  destruct ev; simpl in Hin; try contradiction; exact I.
Qed.

Lemma in_frame ev evs tail :
  Forall lawful evs ->
  match ev with EvPrint _ | EvExecute _ _ _ | EvConnect => False | _ => True end ->
  In ev (EvConnect :: evs ++ tail) -> In ev tail.
Proof.
  intros HF Hev [Hin|Hin]; [subst ev; contradiction|].
  apply in_app_or in Hin. destruct Hin as [Hin|Hin]; [|exact Hin].
  pose proof (lawful_not _ _ HF Hin) as H. destruct ev; contradiction.
Qed.

Lemma plain_frame evs : Forall lawful evs -> Forall plain (EvConnect :: evs).
Proof.
  intros HF. constructor; [exact I|].
  eapply Forall_impl; [apply lawful_plain|exact HF].
Qed.

Lemma assign_units tra_ids ids evs :
  Forall2 (assign_ev tra_ids) ids evs -> map (param 1) evs = ids.
Proof.
  induction 1 as [|b ev bs evs (_ & _ & Hb) _ IH]; simpl; [reflexivity|].
  rewrite Hb, IH. reflexivity.
Qed.

Lemma assess_units rate_ids ids evs :
  Forall2 (assess_ev rate_ids) ids evs -> map (param 0) evs = ids.
Proof.
  induction 1 as [|b ev bs evs (_ & Hb & _) _ IH]; simpl; [reflexivity|].
  rewrite Hb, IH. reflexivity.
Qed.

Lemma rrr_units party_ids ids evs :
  Forall2 (rrr_ev party_ids) ids evs -> map (param 1) evs = ids.
Proof.
  induction 1 as [|b ev bs evs (_ & Hb & _) _ IH]; simpl; [reflexivity|].
  rewrite Hb, IH. reflexivity.
Qed.

Lemma baunit_spatial spatial_ids ids evs :
  Forall3 baunit_ev spatial_ids ids evs -> map (param 1) evs = spatial_ids.
Proof.
  induction 1 as [|sid id ev sids ids evs [_ Hs] _ IH]; simpl; [reflexivity|].
  rewrite Hs, IH. reflexivity.
Qed.

(** X1.  In a run of either script that returns, the statements come in the
    order of the phases: the parties, the spatial units, the BAUnits,
    three tax rate areas, three tax rates, one update of tra_id per
    BAUnit, one assessment per BAUnit, the supplemental assessments, one
    ownership record per BAUnit, the bills, the payments, the paid-flag
    updates.  There are between floor(K/2) and 2 floor(K/2) payments and
    at most K paid-flag updates, and the committed statements are the
    same sequence.  Negative counts act as zero. *)
Theorem statement_order (sc : script) (E : env) (N M K : Z) :
  succeeded (run sc E N M K) ->
  let tr := trace (final (run sc E N M K)) in
  exists p u,
    kinds tr = pattern (Z.to_nat N) (Z.to_nat M) (Z.to_nat K) p u
    /\ Z.to_nat K / 2 <= p <= 2 * (Z.to_nat K / 2)
    /\ u <= Z.to_nat K
    /\ kinds (committed tr) = kinds tr.
Proof.
  intros Hrun tr.
  destruct (run_kinds _ _ _ _ _ (run_returns_shape _ _ _ _ _ Hrun))
    as (pre & p & u & Htr & Hplain & Hk & Hp & Hu).
  fold tr in Htr. exists p, u. rewrite Htr, (committed_run _ _ Hplain).
  rewrite kinds_app, kinds_tail, app_nil_r, kinds_statements.
  split; [exact Hk|]. split; [exact Hp|]. split; [exact Hu|reflexivity].
Qed.

Lemma statement_order_witness :
  let tr := trace (final (run SeederRcPy sample_env 2 5 4)) in
  exists p u,
    kinds tr = pattern (Z.to_nat 2) (Z.to_nat 5) (Z.to_nat 4) p u
    /\ Z.to_nat 4 / 2 <= p <= 2 * (Z.to_nat 4 / 2)
    /\ u <= Z.to_nat 4
    /\ kinds (committed tr) = kinds tr.
Proof.
  apply (statement_order SeederRcPy sample_env 2 5 4).
  vm_compute. exact I.
Defined.

(** X2.  In a run of either script that returns, one BAUnit is inserted per
    spatial unit and refers to it, in the order in which the spatial
    units were inserted; and every BAUnit gets, in the order in which the
    BAUnits were inserted, exactly one update of its tra_id, one
    assessment and one ownership record. *)
Theorem one_per_baunit (sc : script) (E : env) (N M K : Z) :
  succeeded (run sc E N M K) ->
  let tr := trace (final (run sc E N M K)) in
  let units := returned "ladm.LA_BAUnit" tr in
  List.length units = Z.to_nat M
  /\ map (param 1) (select Insert "ladm.LA_BAUnit" tr)
     = returned "ladm.LA_SpatialUnit" tr
  /\ map (param 1) (select Update "ladm.LA_BAUnit" tr) = units
  /\ map (param 0) (select Insert "ladm.TaxAssessment" tr) = units
  /\ map (param 1) (select Insert "ladm.LA_RRR" tr) = units.
Proof.
  intros Hrun tr units.
  pose proof (run_returns_shape _ _ _ _ _ Hrun) as Hshape. fold tr in Hshape.
  open_shape Hshape. unfold units, returned. rewrite Htr. selecting.
  rewrite (returned_baunits _ _ _ HBA), (returned_segment _ _ _ HSpatial).
  rewrite (baunit_spatial _ _ _ HBA), (assign_units _ _ _ HAssign).
  rewrite (assess_units _ _ _ HAssess), (rrr_units _ _ _ HRRR).
  destruct (Forall3_length _ _ _ _ HBA) as [L1 L2].
  repeat split. congruence.
Qed.

Lemma one_per_baunit_witness :
  let tr := trace (final (run SeederPy sample_env 3 4 6)) in
  let units := returned "ladm.LA_BAUnit" tr in
  List.length units = Z.to_nat 4
  /\ map (param 1) (select Insert "ladm.LA_BAUnit" tr)
     = returned "ladm.LA_SpatialUnit" tr
  /\ map (param 1) (select Update "ladm.LA_BAUnit" tr) = units
  /\ map (param 0) (select Insert "ladm.TaxAssessment" tr) = units
  /\ map (param 1) (select Insert "ladm.LA_RRR" tr) = units.
Proof.
  apply (one_per_baunit SeederPy sample_env 3 4 6).
  vm_compute. exact I.
Defined.

(** ** How a run ends *)

Lemma run_of_block sc E N M K :
  db_connect E = None ->
  run sc E N M K = closing E (try_block sc E N M K connected).
Proof.
  intros Hc. rewrite run_unfold.
  unfold with_transaction, bind, connect. rewrite Hc.
  change (emit EvConnect initial) with connected.
  unfold try_finally, try_except, closing.
  destruct (try_block sc E N M K connected) as [[] s1|e s1]; [reflexivity|].
  unfold on_error, bind, rollback.
  destruct (db_rollback E) as [e2|]; reflexivity.
Qed.

Lemma committed_frame_commit evs :
  Forall lawful evs ->
  committed (EvConnect :: evs
             ++ [EvCommit; EvPrint done_line; EvCursorClose; EvConnClose])
  = filter is_execute
      (EvConnect :: evs
       ++ [EvCommit; EvPrint done_line; EvCursorClose; EvConnClose]).
Proof.
  intros HF.
  change (EvConnect :: evs ++ ?t) with ((EvConnect :: evs) ++ t).
  rewrite (committed_run _ _ (plain_frame _ HF)), filter_execute_run.
  reflexivity.
Qed.

Lemma committed_frame_rollback evs :
  Forall lawful evs ->
  committed (EvConnect :: evs
             ++ [EvRollback; EvPrint error_line; EvCursorClose; EvConnClose])
  = [].
Proof.
  intros HF.
  change (EvConnect :: evs ++ ?t) with ((EvConnect :: evs) ++ t).
  rewrite (committed_rolled_back _ _ (plain_frame _ HF)). reflexivity.
Qed.

Lemma committed_frame_closed evs :
  Forall lawful evs ->
  committed (EvConnect :: evs ++ [EvCursorClose; EvConnClose]) = [].
Proof.
  intros HF.
  change (EvConnect :: evs ++ ?t) with ((EvConnect :: evs) ++ t).
  apply committed_closed. apply plain_frame. exact HF.
Qed.

Ltac not_in_tail :=
  let H := fresh in
  intros H; apply in_frame in H; [|assumption|exact I];
  simpl in H;
  repeat match goal with
         | H : _ \/ _ |- _ => destruct H as [H|H]; try discriminate H
         end;
  exact H.


(** X4.  When the connection cannot be opened, [seed_data] raises the error
    of [psycopg2.connect] and nothing else happens (the call is outside
    the [try]).  Otherwise, however the run ends, the cursor and the
    connection are closed, in this order, as the last two events of the
    run, and neither is closed before; the connection is opened once. *)
Theorem connection_closed (sc : script) (E : env) (N M K : Z) :
  let r := run sc E N M K in
  match db_connect E with
  | Some e => r = Raise e initial
  | None =>
      exists pre,
        trace (final r) = EvConnect :: pre ++ [EvCursorClose; EvConnClose]
        /\ ~ In EvConnect pre
        /\ ~ In EvCursorClose pre /\ ~ In EvConnClose pre
  end.
Proof.
  intros r. unfold r.
  assert (forall evs tail,
            Forall lawful evs ->
            Forall (fun ev => match ev with
                              | EvCommit | EvRollback | EvPrint _ => True
                              | _ => False
                              end) tail ->
            ~ In EvConnect (evs ++ tail)
            /\ ~ In EvCursorClose (evs ++ tail)
            /\ ~ In EvConnClose (evs ++ tail)) as Hpre.
  { intros evs tail HF HT.
    repeat split; intros Hin; apply in_app_or in Hin;
      destruct Hin as [Hin|Hin];
      first [ exact (lawful_not _ _ HF Hin)
            | exact (proj1 (Forall_forall _ _) HT _ Hin) ]. }
  destruct (run_ending sc E N M K)
    as [e Hc|evs s1 s Hc _ _ HF Ht|e evs s1 s Hc _ _ HF Ht
        |e e2 evs s1 s Hc _ _ HF Ht]; rewrite Hc; simpl.
  - reflexivity.
  - exists (evs ++ [EvCommit; EvPrint done_line]). split.
    + rewrite Ht, <- app_assoc. reflexivity.
    + apply Hpre; [exact HF|repeat constructor].
  - exists (evs ++ [EvRollback; EvPrint error_line]). split.
    + rewrite Ht, <- app_assoc. reflexivity.
    + apply Hpre; [exact HF|repeat constructor].
  - exists (evs ++ []). split.
    + rewrite Ht, app_nil_r. reflexivity.
    + apply Hpre; [exact HF|constructor].
Qed.

(** X5.  When the [try] block raises [e] after the events [trace s1]: if
    [conn.rollback()] returns, the run adds the rollback, the line
    "Error during seeding. Rolled back transaction." and the two closes,
    and raises the same [e]; if [conn.rollback()] itself raises [e2], the
    run adds the two closes only (the line is not printed) and raises
    [e2] in place of [e]. *)
Theorem error_path (sc : script) (E : env) (N M K : Z) (e : exn) (s1 : state) :
  db_connect E = None ->
  try_block sc E N M K connected = Raise e s1 ->
  let r := run sc E N M K in
  let tr := trace (final r) in
  match db_rollback E with
  | None =>
      (exists s, r = Raise e s)
      /\ tr = trace s1 ++ [EvRollback; EvPrint error_line;
                           EvCursorClose; EvConnClose]
  | Some e2 =>
      (exists s, r = Raise e2 s)
      /\ tr = trace s1 ++ [EvCursorClose; EvConnClose]
  end.
Proof.
  intros Hc Hb r tr. unfold tr, r. rewrite (run_of_block _ _ _ _ _ Hc), Hb.
  unfold closing. destruct (db_rollback E) as [e2|]; simpl.
  - split; [eexists; reflexivity|]. rewrite <- app_assoc. reflexivity.
  - split; [eexists; reflexivity|]. rewrite <- !app_assoc. reflexivity.
Qed.

Lemma error_path_witness :
  let r := run SeederPy constraint_env 1 1 1 in
  (exists s, r = Raise (DbError 1) s)
  /\ trace (final r)
     = [EvConnect; EvPrint "=== Seeding Start ===";
        EvPrint "Inserting Parties..."]
       ++ [EvRollback; EvPrint error_line; EvCursorClose; EvConnClose].
Proof.
  apply (error_path SeederPy constraint_env 1 1 1 (DbError 1)
           (mkState 10 1 1 []
              [EvConnect; EvPrint "=== Seeding Start ===";
               EvPrint "Inserting Parties..."])).
  - reflexivity.
  - vm_compute. reflexivity.
Defined.

(** ** The lines printed *)

Lemma printed_app a b : printed (a ++ b) = printed a ++ printed b.
Proof. apply flat_map_app. Qed.

Lemma printed_no_line evs : Forall no_line evs -> printed evs = [].
Proof.
  induction 1 as [|ev evs Hev _ IH]; [reflexivity|].
  destruct ev; simpl in *; try contradiction; exact IH.
Qed.

Lemma prefix_of_nil {A} (l : list A) : prefix_of [] l.
Proof. exists l. reflexivity. Qed.

Lemma prefix_of_refl {A} (l : list A) : prefix_of l l.
Proof. exists []. symmetry. apply app_nil_r. Qed.

Lemma prints_bind {A B} (m : M A) (k : A -> M B) ls1 ls2 tail :
  prints ls1 [] m -> (forall a, prints ls2 tail (k a)) ->
  prints (ls1 ++ ls2) tail (bind m k).
Proof.
  intros Hm Hk s. unfold bind.
  destruct (Hm s) as (sh1 & Hp1 & Hs1).
  destruct (m s) as [a s1|e s1]; simpl in *.
  - rewrite app_nil_r in Hs1. subst sh1.
    destruct (Hk a s1) as (sh2 & Hp2 & Hs2).
    exists (ls1 ++ sh2). split.
    + rewrite Hp2, Hp1, app_assoc. reflexivity.
    + destruct (k a s1) as [b s2|e s2].
      * rewrite Hs2, app_assoc. reflexivity.
      * destruct Hs2 as [r2 Hr2]. exists r2.
        rewrite Hr2, <- app_assoc. reflexivity.
  - exists sh1. split; [exact Hp1|]. destruct Hs1 as [r1 Hr1].
    exists (r1 ++ ls2). rewrite Hr1, <- app_assoc. reflexivity.
Qed.

Lemma prints_silent {A} (m : M A) Q : emits no_line m Q -> prints [] [] m.
Proof.
  intros Hm s. destruct (Hm s) as [(evs & Ht & HF) _].
  exists []. split.
  - rewrite Ht, printed_app, (printed_no_line _ HF). reflexivity.
  - destruct (m s); [reflexivity|apply prefix_of_nil].
Qed.

Lemma prints_print line : prints [line] [] (print line).
Proof.
  intros s. exists [line]. split; [|reflexivity]. simpl. apply printed_app.
Qed.

(** A phase: its line, then statements only *)
Lemma prints_phase {A} line (body : M A) Q :
  emits no_line body Q -> prints [line] [] (print line ;; body).
Proof.
  intros Hb. apply (prints_bind _ _ [line] [] []); [apply prints_print|].
  intros _. eapply prints_silent. exact Hb.
Qed.

Ltac no_lines := repeat emits_go; exact I.

Section Lines.

Variable E : env.

Lemma prints_tax_rate_phase ids :
  prints ["Inserting TaxRateArea & TaxRate..."] [] (tax_rate_phase E ids).
Proof.
  unfold tax_rate_phase, insert_tax_rate_areas, insert_tax_rates, assign_tra.
  eapply prints_phase. no_lines.
Qed.

Lemma prints_assessment_phase ids rates :
  prints ["Inserting TaxAssessments..."] [] (assessment_phase E ids rates).
Proof. unfold assessment_phase. eapply prints_phase. no_lines. Qed.

Lemma prints_supplemental_phase ids rates :
  prints ["Inserting SupplementalAssessments..."] []
         (supplemental_phase E ids rates).
Proof. unfold supplemental_phase. eapply prints_phase. no_lines. Qed.

Lemma prints_rrr_phase ids parties :
  prints ["Inserting RRR (Ownership)..."] [] (rrr_phase E ids parties).
Proof. unfold rrr_phase. eapply prints_phase. no_lines. Qed.

Lemma prints_bill_phase ids parties K :
  prints ["Inserting TaxBills..."] [] (bill_phase E ids parties K).
Proof. unfold bill_phase. eapply prints_phase. no_lines. Qed.

Lemma prints_payment_phase bills :
  prints ["Inserting TaxPayments..."] [] (payment_phase E bills).
Proof. unfold payment_phase. eapply prints_phase. no_lines. Qed.

Lemma prints_mark_paid bills : prints [] [] (mark_paid E bills).
Proof. unfold mark_paid. eapply prints_silent. no_lines. Qed.

Lemma prints_seeder_party_phase N :
  prints ["Inserting Parties..."] [] (Seeder.party_phase E N).
Proof. unfold Seeder.party_phase. eapply prints_phase. no_lines. Qed.

Lemma prints_seeder_spatial_phase M :
  prints ["Inserting SpatialUnits..."] [] (Seeder.spatial_phase E M).
Proof. unfold Seeder.spatial_phase. eapply prints_phase. no_lines. Qed.

Lemma prints_seeder_baunit_phase ids :
  prints ["Inserting BAUnits..."] [] (Seeder.baunit_phase E ids).
Proof. unfold Seeder.baunit_phase. eapply prints_phase. no_lines. Qed.

Lemma prints_rc_party_phase N :
  prints ["Inserting Parties..."] [] (SeederRC.party_phase E N).
Proof. unfold SeederRC.party_phase. eapply prints_phase. no_lines. Qed.

Lemma prints_rc_spatial_phase M :
  prints ["Inserting SpatialUnits..."] [] (SeederRC.spatial_phase E M).
Proof. unfold SeederRC.spatial_phase. eapply prints_phase. no_lines. Qed.

Lemma prints_rc_baunit_phase ids :
  prints ["Inserting BAUnits..."] [] (SeederRC.baunit_phase E ids).
Proof. unfold SeederRC.baunit_phase. eapply prints_phase. no_lines. Qed.

Lemma prints_commit :
  prints [] [done_line] (commit E ;; print done_line).
Proof.
  intros s. unfold bind, commit, print. destruct (db_commit E); simpl.
  - exists []. split; [rewrite app_nil_r; reflexivity|apply prefix_of_nil].
  - exists [done_line]. split; [|reflexivity].
    rewrite !printed_app. cbn. rewrite app_nil_r. reflexivity.
Qed.

Lemma prints_seeding_with pp sp bp N M K :
  (forall n, prints ["Inserting Parties..."] [] (pp n)) ->
  (forall m, prints ["Inserting SpatialUnits..."] [] (sp m)) ->
  (forall ids, prints ["Inserting BAUnits..."] [] (bp ids)) ->
  prints progress_lines [done_line] (seeding_with E pp sp bp N M K).
Proof.
  intros Hp Hs Hb. unfold seeding_with, later_phases, through_payments.
  apply (prints_bind _ _ [_] _); [apply prints_print|]. intros _.
  apply (prints_bind _ _ [_] _); [apply Hp|]. intros party_ids.
  apply (prints_bind _ _ [_] _); [apply Hs|]. intros spatial_ids.
  apply (prints_bind _ _ [_] _); [apply Hb|]. intros baunit_ids.
  apply (prints_bind _ _
           ["Inserting TaxRateArea & TaxRate..."; "Inserting TaxAssessments...";
            "Inserting SupplementalAssessments...";
            "Inserting RRR (Ownership)..."; "Inserting TaxBills...";
            "Inserting TaxPayments..."] []).
  - apply (prints_bind _ _ [_] _); [apply prints_tax_rate_phase|]. intros rates.
    apply (prints_bind _ _ [_] _); [apply prints_assessment_phase|]. intros _.
    apply (prints_bind _ _ [_] _); [apply prints_supplemental_phase|].
    intros _.
    apply (prints_bind _ _ [_] _); [apply prints_rrr_phase|]. intros _.
    apply (prints_bind _ _ [_] _); [apply prints_bill_phase|]. intros bills.
    apply (prints_bind _ _ [_] []); [apply prints_payment_phase|]. intros _.
    eapply prints_silent. apply emits_ret_any.
  - intros bills.
    apply (prints_bind _ _ [] []); [apply prints_mark_paid|]. intros _.
    apply prints_commit.
Qed.

End Lines.

Lemma prints_try_block sc E N M K :
  prints progress_lines [done_line] (try_block sc E N M K).
Proof.
  destruct sc; simpl.
  - apply (prints_seeding_with E (Seeder.party_phase E)
             (Seeder.spatial_phase E) (Seeder.baunit_phase E)).
    + apply prints_seeder_party_phase.
    + apply prints_seeder_spatial_phase.
    + apply prints_seeder_baunit_phase.
  - apply (prints_seeding_with E (SeederRC.party_phase E)
             (SeederRC.spatial_phase E) (SeederRC.baunit_phase E)).
    + apply prints_rc_party_phase.
    + apply prints_rc_spatial_phase.
    + apply prints_rc_baunit_phase.
Qed.

(** X6.  What a run prints, once connected.  A run that returns prints the
    start line, the nine phase lines in order and the line "=== Seeding
    Completed Successfully! ===", each once.  A run that raises prints
    the first few of the start and phase lines, in order and each once,
    followed by "Error during seeding. Rolled back transaction." when the
    rollback went through, and nothing more; it never prints the line of
    completion. *)
Theorem progress_output (sc : script) (E : env) (N M K : Z) :
  db_connect E = None ->
  let r := run sc E N M K in
  let out := printed (trace (final r)) in
  match r with
  | Ok _ _ => out = progress_lines ++ [done_line]
  | Raise _ _ =>
      exists shown,
        prefix_of shown progress_lines
        /\ out = shown ++ match db_rollback E with
                          | None => [error_line]
                          | Some _ => []
                          end
  end.
Proof.
  intros Hc r out. unfold out, r. rewrite (run_of_block _ _ _ _ _ Hc).
  destruct (prints_try_block sc E N M K connected) as (shown & Hp & Hs).
  change (printed (trace connected)) with (@nil string) in Hp. simpl in Hp.
  unfold closing.
  destruct (try_block sc E N M K connected) as [[] s1|e s1]; simpl in *.
  - rewrite !printed_app, Hp, Hs. simpl. rewrite ?app_nil_r. reflexivity.
  - destruct (db_rollback E); simpl; exists shown; (split; [exact Hs|]);
      rewrite !printed_app, Hp; simpl; rewrite ?app_nil_r; reflexivity.
Qed.

Lemma progress_output_witness :
  printed (trace (final (run SeederRcPy sample_env 2 5 4)))
  = progress_lines ++ [done_line].
Proof.
  pose proof (progress_output SeederRcPy sample_env 2 5 4 eq_refl) as H.
  cbv zeta in H.
  destruct (run SeederRcPy sample_env 2 5 4) as [u s|e s] eqn:Hr.
  - exact H.
  - vm_compute in Hr. discriminate Hr.
Defined.

(** ** Empty lists *)

Lemma run_no_connection sc E N M K e :
  db_connect E = Some e -> run sc E N M K = Raise e initial.
Proof.
  intros Hc. rewrite run_unfold. unfold with_transaction, bind, connect.
  rewrite Hc. reflexivity.
Qed.

Lemma emits_mono (P P' : event -> Prop) {A} (m : M A) Q :
  (forall ev, P ev -> P' ev) -> emits P m Q -> emits P' m Q.
Proof.
  intros HP Hm s. destruct (Hm s) as [(evs & Ht & HF) HQ]. split; [|exact HQ].
  exists evs. split; [exact Ht|]. eapply Forall_impl; [exact HP|exact HF].
Qed.

Lemma emits_post (P : event -> Prop) {A} (m : M A) (Q : A -> Prop) :
  emits P m any -> (forall s a s', m s = Ok a s' -> Q a) -> emits P m Q.
Proof.
  intros Hm HQ s. destruct (Hm s) as [He _]. split; [exact He|].
  destruct (m s) as [a s'|e s'] eqn:Hms; [|exact I]. eapply HQ. exact Hms.
Qed.

(** [random.choice([])] never returns. *)
Lemma emits_choice_empty (P : event -> Prop) E {A} :
  emits P (random_choice E (@nil A)) (fun _ => False).
Proof. apply emits_raise. Qed.

Lemma emits_commit (P : event -> Prop) E : P EvCommit -> emits P (commit E) any.
Proof.
  intros Hp. apply (emits_one _ _ (fun _ => EvCommit)). intros s.
  unfold commit. destruct (db_commit E); simpl; [left; reflexivity|].
  right. split; [reflexivity|exact Hp].
Qed.

(** What holds of every event of the [try] block and of the frame of
    [seed_data] holds of every event of a run. *)
Lemma run_trace_emits (P : event -> Prop) sc E N M K :
  P EvConnect -> P EvRollback -> P (EvPrint error_line) ->
  P EvCursorClose -> P EvConnClose ->
  emits P (try_block sc E N M K) any ->
  Forall P (trace (final (run sc E N M K))).
Proof.
  intros P1 P2 P3 P4 P5 Hb.
  destruct (db_connect E) as [e|] eqn:Hc.
  - rewrite (run_no_connection _ _ _ _ _ _ Hc). constructor.
  - rewrite (run_of_block _ _ _ _ _ Hc).
    destruct (Hb connected) as [(evs & Ht & HF) _].
    assert (Forall P (trace (final (try_block sc E N M K connected)))) as H.
    { rewrite Ht. apply Forall_app. split; [|exact HF].
      constructor; [exact P1|constructor]. }
    unfold closing.
    destruct (try_block sc E N M K connected) as [a s1|e s1]; simpl in *.
    + rewrite <- app_assoc. apply Forall_app. split; [exact H|].
      repeat constructor; assumption.
    + destruct (db_rollback E); simpl; rewrite <- ?app_assoc;
        (apply Forall_app; split; [exact H|]); repeat constructor; assumption.
Qed.

Lemma count_none v t tr :
  Forall (fun ev => is_stmt v t ev = false) tr -> count_stmts v t tr = 0.
Proof.
  unfold count_stmts. induction 1 as [|ev tr Hev _ IH]; [reflexivity|].
  simpl. rewrite Hev. exact IH.
Qed.

Ltac unowned :=
  repeat emits_go;
  first [ split; vm_compute; reflexivity | vm_compute; reflexivity ].

Section Unowned.

Variable E : env.

Lemma unowned_seeder_party_phase N :
  emits not_owned (Seeder.party_phase E N) any.
Proof. unfold Seeder.party_phase. unowned. Qed.

Lemma unowned_seeder_spatial_phase M :
  emits not_owned (Seeder.spatial_phase E M) any.
Proof. unfold Seeder.spatial_phase. unowned. Qed.

Lemma unowned_seeder_baunit_phase ids :
  emits not_owned (Seeder.baunit_phase E ids) any.
Proof. unfold Seeder.baunit_phase. unowned. Qed.

Lemma unowned_rc_party_phase N :
  emits not_owned (SeederRC.party_phase E N) any.
Proof. unfold SeederRC.party_phase. unowned. Qed.

Lemma unowned_rc_spatial_phase M :
  emits not_owned (SeederRC.spatial_phase E M) any.
Proof. unfold SeederRC.spatial_phase. unowned. Qed.

Lemma unowned_rc_baunit_phase ids :
  emits not_owned (SeederRC.baunit_phase E ids) any.
Proof. unfold SeederRC.baunit_phase. unowned. Qed.

Lemma unowned_tax_rate_phase ids : emits not_owned (tax_rate_phase E ids) any.
Proof.
  unfold tax_rate_phase, insert_tax_rate_areas, insert_tax_rates, assign_tra.
  unowned.
Qed.

Lemma unowned_assessment_phase ids rates :
  emits not_owned (assessment_phase E ids rates) any.
Proof. unfold assessment_phase. unowned. Qed.

Lemma unowned_supplemental_phase ids rates :
  emits not_owned (supplemental_phase E ids rates) any.
Proof. unfold supplemental_phase. unowned. Qed.

Lemma unowned_payment_phase bills : emits not_owned (payment_phase E bills) any.
Proof. unfold payment_phase. unowned. Qed.

Lemma unowned_mark_paid bills : emits not_owned (mark_paid E bills) any.
Proof. unfold mark_paid. unowned. Qed.

Lemma not_bill_rrr_phase ids parties :
  emits not_bill (rrr_phase E ids parties) any.
Proof. unfold rrr_phase. unowned. Qed.

(** Without parties the ownership loop stops at its first
    [random.choice(party_ids)]. *)
Lemma unowned_rrr_phase_no_parties ids :
  emits not_owned (rrr_phase E ids []) any.
Proof.
  unfold rrr_phase. eapply emits_bind; [apply emits_print; split; reflexivity|].
  intros _ _. apply emits_for_in. intros buid.
  eapply emits_bind; [apply emits_choice_empty|]. intros ? [].
Qed.

(** Without BAUnits the bill loop stops at [random.choice(baunit_ids)]. *)
Lemma unowned_bill_phase_no_baunits parties K :
  emits not_owned (bill_phase E [] parties K) any.
Proof.
  unfold bill_phase. eapply emits_bind; [apply emits_print; split; reflexivity|].
  intros _ _. apply emits_for_in. intros _.
  eapply emits_bind; [apply emits_choice_empty|]. intros ? [].
Qed.

(** Without parties it stops at [random.choice(party_ids)]. *)
Lemma unowned_bill_phase_no_parties ids K :
  emits not_owned (bill_phase E ids [] K) any.
Proof.
  unfold bill_phase. eapply emits_bind; [apply emits_print; split; reflexivity|].
  intros _ _. apply emits_for_in. intros _.
  eapply emits_bind; [apply emits_random_choice|]. intros buid _.
  eapply emits_bind; [apply emits_choice_empty|]. intros ? [].
Qed.

Lemma unowned_ending :
  emits not_owned
    (commit E ;; print "=== Seeding Completed Successfully! ===") any.
Proof.
  eapply emits_bind; [apply emits_commit; split; reflexivity|]. intros _ _.
  apply emits_print. split; reflexivity.
Qed.

End Unowned.

Lemma not_owned_not_bill ev : not_owned ev -> not_bill ev.
Proof. intros [H _]. exact H. Qed.

Section EmptyLists.

Variable E : env.
Variables pp sp : Z -> M (list value).
Variable bp : list value -> M (list value).

Hypothesis pp_Ok : forall N s ids s',
  pp N s = Ok ids s' -> List.length ids = Z.to_nat N.
Hypothesis sp_Ok : forall M s ids s',
  sp M s = Ok ids s' -> List.length ids = Z.to_nat M.
Hypothesis bp_Ok : forall spatial_ids s ids s',
  bp spatial_ids s = Ok ids s' -> List.length ids = List.length spatial_ids.
Hypothesis pp_unowned : forall N, emits not_owned (pp N) any.
Hypothesis sp_unowned : forall M, emits not_owned (sp M) any.
Hypothesis bp_unowned : forall ids, emits not_owned (bp ids) any.

Ltac weaker L := eapply emits_mono; [apply not_owned_not_bill|apply L].

Lemma no_parcels_no_bills N M K :
  (M <= 0)%Z -> emits not_bill (seeding_with E pp sp bp N M K) any.
Proof.
  intros HM. unfold seeding_with.
  eapply emits_bind; [apply emits_print; reflexivity|]. intros _ _.
  eapply emits_bind; [weaker pp_unowned|]. intros party_ids _.
  eapply emits_bind;
    [apply (emits_post _ _ (fun ids => List.length ids = Z.to_nat M));
     [weaker sp_unowned|apply sp_Ok]|].
  intros spatial_ids Hsp.
  eapply emits_bind;
    [apply (emits_post _ _
              (fun ids => List.length ids = List.length spatial_ids));
     [weaker bp_unowned|apply bp_Ok]|].
  intros baunit_ids Hbp. cbv beta in Hsp, Hbp.
  assert (baunit_ids = []) as ->.
  { apply length_zero_nil. rewrite Hbp, Hsp. lia. }
  unfold later_phases, through_payments.
  eapply emits_bind.
  - eapply emits_bind; [weaker unowned_tax_rate_phase|]. intros rates _.
    eapply emits_bind; [weaker unowned_assessment_phase|]. intros _ _.
    eapply emits_bind; [weaker unowned_supplemental_phase|]. intros _ _.
    eapply emits_bind; [apply not_bill_rrr_phase|]. intros _ _.
    eapply emits_bind; [weaker unowned_bill_phase_no_baunits|]. intros bills _.
    eapply emits_bind; [weaker unowned_payment_phase|]. intros _ _.
    apply emits_ret_any.
  - intros bills _.
    eapply emits_bind; [weaker unowned_mark_paid|]. intros _ _.
    weaker unowned_ending.
Qed.

Lemma no_parties_no_owners N M K :
  (N <= 0)%Z -> emits not_owned (seeding_with E pp sp bp N M K) any.
Proof.
  intros HN. unfold seeding_with.
  eapply emits_bind; [apply emits_print; split; reflexivity|]. intros _ _.
  eapply emits_bind;
    [apply (emits_post _ _ (fun ids => List.length ids = Z.to_nat N));
     [apply pp_unowned|apply pp_Ok]|].
  intros party_ids Hpp. cbv beta in Hpp.
  assert (party_ids = []) as ->.
  { apply length_zero_nil. rewrite Hpp. lia. }
  eapply emits_bind; [apply sp_unowned|]. intros spatial_ids _.
  eapply emits_bind; [apply bp_unowned|]. intros baunit_ids _.
  unfold later_phases, through_payments.
  eapply emits_bind.
  - eapply emits_bind; [apply unowned_tax_rate_phase|]. intros rates _.
    eapply emits_bind; [apply unowned_assessment_phase|]. intros _ _.
    eapply emits_bind; [apply unowned_supplemental_phase|]. intros _ _.
    eapply emits_bind; [apply unowned_rrr_phase_no_parties|]. intros _ _.
    eapply emits_bind; [apply unowned_bill_phase_no_parties|]. intros bills _.
    eapply emits_bind; [apply unowned_payment_phase|]. intros _ _.
    apply emits_ret_any.
  - intros bills _.
    eapply emits_bind; [apply unowned_mark_paid|]. intros _ _.
    apply unowned_ending.
Qed.

(** With bills asked for and no parcel, the [try] block never returns. *)
Lemma no_parcels_never_returns N M K s u s' :
  (1 <= K)%Z -> (M <= 0)%Z ->
  seeding_with E pp sp bp N M K s = Ok u s' -> False.
Proof.
  intros HK HM H. unfold seeding_with in H.
  apply bind_Ok in H. destruct H as (? & ? & _ & H).
  apply bind_Ok in H. destruct H as (party_ids & ? & _ & H).
  apply bind_Ok in H. destruct H as (spatial_ids & ? & Hsp & H).
  apply bind_Ok in H. destruct H as (baunit_ids & ? & Hbp & H).
  apply sp_Ok in Hsp. apply bp_Ok in Hbp.
  assert (baunit_ids = []) as ->.
  { apply length_zero_nil. rewrite Hbp, Hsp. lia. }
  unfold later_phases, through_payments in H.
  apply bind_Ok in H. destruct H as (? & ? & H & _).
  do 4 (apply bind_Ok in H; destruct H as (? & ? & _ & H)).
  apply bind_Ok in H. destruct H as (? & ? & H & _).
  rewrite (bill_phase_no_baunits _ _ _ _ HK) in H. discriminate H.
Qed.

(** With parcels and no party, neither. *)
Lemma no_parties_never_returns N M K s u s' :
  (N <= 0)%Z -> (1 <= M)%Z ->
  seeding_with E pp sp bp N M K s = Ok u s' -> False.
Proof.
  intros HN HM H. unfold seeding_with in H.
  apply bind_Ok in H. destruct H as (? & ? & _ & H).
  apply bind_Ok in H. destruct H as (party_ids & ? & Hpp & H).
  apply bind_Ok in H. destruct H as (spatial_ids & ? & Hsp & H).
  apply bind_Ok in H. destruct H as (baunit_ids & ? & Hbp & H).
  apply pp_Ok in Hpp. apply sp_Ok in Hsp. apply bp_Ok in Hbp.
  assert (party_ids = []) as ->.
  { apply length_zero_nil. rewrite Hpp. lia. }
  destruct baunit_ids as [|b bs]; [simpl in Hbp; lia|].
  unfold later_phases, through_payments in H.
  apply bind_Ok in H. destruct H as (? & ? & H & _).
  do 3 (apply bind_Ok in H; destruct H as (? & ? & _ & H)).
  apply bind_Ok in H. destruct H as (? & ? & H & _).
  rewrite rrr_phase_no_parties in H. discriminate H.
Qed.

End EmptyLists.

Section PhaseLengths.

Variable E : env.

Lemma seeder_party_length N s ids s' :
  Seeder.party_phase E N s = Ok ids s' -> List.length ids = Z.to_nat N.
Proof.
  intros H. apply seeder_party_phase_Ok in H.
  destruct H as (evs & _ & _ & L). exact L.
Qed.

Lemma seeder_spatial_length M s ids s' :
  Seeder.spatial_phase E M s = Ok ids s' -> List.length ids = Z.to_nat M.
Proof.
  intros H. apply seeder_spatial_phase_Ok in H.
  destruct H as (evs & _ & _ & L). exact L.
Qed.

Lemma seeder_baunit_length spatial_ids s ids s' :
  Seeder.baunit_phase E spatial_ids s = Ok ids s' ->
  List.length ids = List.length spatial_ids.
Proof.
  intros H. apply seeder_baunit_phase_Ok in H.
  destruct H as (evs & _ & HF). exact (proj1 (Forall3_length _ _ _ _ HF)).
Qed.

Lemma rc_party_length N s ids s' :
  SeederRC.party_phase E N s = Ok ids s' -> List.length ids = Z.to_nat N.
Proof.
  intros H. apply rc_party_phase_Ok in H.
  destruct H as (evs & _ & _ & L). exact L.
Qed.

Lemma rc_spatial_length M s ids s' :
  SeederRC.spatial_phase E M s = Ok ids s' -> List.length ids = Z.to_nat M.
Proof.
  intros H. apply rc_spatial_phase_Ok in H.
  destruct H as (evs & _ & _ & L). exact L.
Qed.

Lemma rc_baunit_length spatial_ids s ids s' :
  SeederRC.baunit_phase E spatial_ids s = Ok ids s' ->
  List.length ids = List.length spatial_ids.
Proof.
  intros H. apply rc_baunit_phase_Ok in H.
  destruct H as (evs & _ & HF). exact (proj1 (Forall3_length _ _ _ _ HF)).
Qed.

End PhaseLengths.

(** Facts about phases 1 to 3 of either script *)
Ltac phase_fact :=
  first
    [ apply seeder_party_length | apply seeder_spatial_length
    | apply seeder_baunit_length | apply rc_party_length
    | apply rc_spatial_length | apply rc_baunit_length
    | apply unowned_seeder_party_phase | apply unowned_seeder_spatial_phase
    | apply unowned_seeder_baunit_phase | apply unowned_rc_party_phase
    | apply unowned_rc_spatial_phase | apply unowned_rc_baunit_phase
    | apply quiet_seeder_party_phase | apply quiet_seeder_spatial_phase
    | apply quiet_seeder_baunit_phase | apply quiet_rc_party_phase
    | apply quiet_rc_spatial_phase | apply quiet_rc_baunit_phase ].

(** Bring a fact about [seeding_with] to the [try] block of a script. *)
Ltac by_script L :=
  match goal with
  | sc : script, E : env |- _ =>
      destruct sc; simpl try_block;
      [ eapply (L E (Seeder.party_phase E) (Seeder.spatial_phase E)
                  (Seeder.baunit_phase E))
      | eapply (L E (SeederRC.party_phase E) (SeederRC.spatial_phase E)
                  (SeederRC.baunit_phase E)) ];
      try phase_fact; try eassumption
  end.

Lemma try_block_no_parcels sc E N M K :
  (M <= 0)%Z -> emits not_bill (try_block sc E N M K) any.
Proof. intros HM. by_script no_parcels_no_bills. Qed.

Lemma try_block_no_parties sc E N M K :
  (N <= 0)%Z -> emits not_owned (try_block sc E N M K) any.
Proof. intros HN. by_script no_parties_no_owners. Qed.

Lemma try_block_no_parcels_raises sc E N M K s u s' :
  (1 <= K)%Z -> (M <= 0)%Z -> try_block sc E N M K s = Ok u s' -> False.
Proof. intros HK HM H. by_script no_parcels_never_returns. Qed.

Lemma try_block_no_parties_raises sc E N M K s u s' :
  (N <= 0)%Z -> (1 <= M)%Z -> try_block sc E N M K s = Ok u s' -> False.
Proof. intros HN HM H. by_script no_parties_never_returns. Qed.

Lemma try_block_bill_line sc E N M K s e s1 :
  (1 <= K)%Z -> (M <= 0)%Z ->
  ~ In bill_line (trace s) ->
  try_block sc E N M K s = Raise e s1 ->
  In bill_line (trace s1) ->
  e = IndexError /\ exists pre, trace s1 = pre ++ [bill_line].
Proof. intros HK HM Hn H Hin. by_script no_parcels_bill_line. Qed.

Lemma try_block_no_bill_line sc E N M K s :
  (N <= 0)%Z -> (1 <= M)%Z ->
  ~ In bill_line (trace s) ->
  ~ In bill_line (trace (final (try_block sc E N M K s))).
Proof. intros HN HM Hn. by_script no_parties_no_bill_line. Qed.

Lemma run_succeeded_block sc E N M K :
  succeeded (run sc E N M K) ->
  exists s1, try_block sc E N M K connected = Ok tt s1.
Proof.
  intros H.
  destruct (run_ending sc E N M K)
    as [e _|evs s1 s _ _ Hb _ _|e evs s1 s _ _ _ _ _
        |e e2 evs s1 s _ _ _ _ _]; try contradiction.
  exists s1. exact Hb.
Qed.

Lemma connected_no_bill_line : ~ In bill_line (trace connected).
Proof. simpl. intros [H|[]]. discriminate H. Qed.

(** The handler and the [finally] clause print no phase line. *)
Lemma closing_no_bill_line E block :
  ~ In bill_line (trace (final block)) ->
  ~ In bill_line (trace (final (closing E block))).
Proof.
  intros Hn. unfold closing.
  destruct block as [a s1|e s1]; [|destruct (db_rollback E)]; simpl in *;
    rewrite <- ?app_assoc; intros Hin; apply in_app_or in Hin;
    destruct Hin as [Hin|Hin]; try exact (Hn Hin); simpl in Hin;
    repeat match goal with
           | H : _ \/ _ |- _ => destruct H as [H|H]; try discriminate H
           end; exact Hin.
Qed.

(** X7.  With no parcel (num_parcels <= 0) no bill is ever inserted.  When
    bills are asked for (num_bills >= 1), [seed_data] never returns; and
    if its [try] block gets as far as the bill phase, it raises
    IndexError, from [random.choice(baunit_ids)] on the empty list, right
    after printing "Inserting TaxBills...". *)
Theorem bills_need_parcels (sc : script) (E : env) (N M K : Z) :
  (M <= 0)%Z ->
  let r := run sc E N M K in
  count_stmts Insert "ladm.TaxBill" (trace (final r)) = 0
  /\ ((1 <= K)%Z ->
      ~ succeeded r
      /\ forall e s1,
           try_block sc E N M K connected = Raise e s1 ->
           In bill_line (trace s1) ->
           e = IndexError /\ exists pre, trace s1 = pre ++ [bill_line]).
Proof.
  intros HM r. unfold r. split.
  - apply count_none.
    apply (run_trace_emits not_bill); try reflexivity.
    apply try_block_no_parcels. exact HM.
  - intros HK. split.
    + intros Hs. apply run_succeeded_block in Hs. destruct Hs as [s1 Hs].
      exact (try_block_no_parcels_raises _ _ _ _ _ _ _ _ HK HM Hs).
    + intros e s1 Hb Hin.
      exact (try_block_bill_line _ _ _ _ _ _ _ _ HK HM
               connected_no_bill_line Hb Hin).
Qed.

Lemma bills_need_parcels_witness :
  let r := run SeederPy sample_env 2 0 3 in
  count_stmts Insert "ladm.TaxBill" (trace (final r)) = 0
  /\ ((1 <= 3)%Z ->
      ~ succeeded r
      /\ forall e s1,
           try_block SeederPy sample_env 2 0 3 connected = Raise e s1 ->
           In bill_line (trace s1) ->
           e = IndexError /\ exists pre, trace s1 = pre ++ [bill_line]).
Proof.
  apply (bills_need_parcels SeederPy sample_env 2 0 3). lia.
Defined.

(** X8.  With no party (num_parties <= 0) no ownership record and no bill is
    ever inserted.  When there is a parcel (num_parcels >= 1),
    [seed_data] never returns, whatever the number of bills, zero
    included: the ownership phase calls [random.choice(party_ids)] on the
    empty list; the bill phase is never reached. *)
Theorem owners_need_parties (sc : script) (E : env) (N M K : Z) :
  (N <= 0)%Z ->
  let r := run sc E N M K in
  let tr := trace (final r) in
  count_stmts Insert "ladm.LA_RRR" tr = 0
  /\ count_stmts Insert "ladm.TaxBill" tr = 0
  /\ ((1 <= M)%Z -> ~ succeeded r /\ ~ In bill_line tr).
Proof.
  intros HN r tr. unfold tr, r.
  assert (Forall not_owned (trace (final (run sc E N M K)))) as HF.
  { apply (run_trace_emits not_owned); try (split; reflexivity).
    apply try_block_no_parties. exact HN. }
  split; [|split].
  - apply count_none. eapply Forall_impl; [|exact HF]. intros ev [_ H]. exact H.
  - apply count_none. eapply Forall_impl; [|exact HF]. intros ev [H _]. exact H.
  - intros HM. split.
    + intros Hs. apply run_succeeded_block in Hs. destruct Hs as [s1 Hs].
      exact (try_block_no_parties_raises _ _ _ _ _ _ _ _ HN HM Hs).
    + destruct (db_connect E) as [e|] eqn:Hc.
      * rewrite (run_no_connection _ _ _ _ _ _ Hc). intros [].
      * rewrite (run_of_block _ _ _ _ _ Hc). apply closing_no_bill_line.
        apply try_block_no_bill_line; [exact HN|exact HM|].
        exact connected_no_bill_line.
Qed.

Lemma owners_need_parties_witness :
  let r := run SeederRcPy sample_env 0 2 0 in
  let tr := trace (final r) in
  count_stmts Insert "ladm.LA_RRR" tr = 0
  /\ count_stmts Insert "ladm.TaxBill" tr = 0
  /\ ((1 <= 2)%Z -> ~ succeeded r /\ ~ In bill_line tr).
Proof.
  apply (owners_need_parties SeederRcPy sample_env 0 2 0). lia.
Defined.

(** ** What the library calls return, whatever the run does next *)

Section Posts.

Variable P : event -> Prop.
Variable E : env.

Lemma emits_randbelow_lt n : emits P (randbelow E n) (fun i => i < n).
Proof.
  apply emits_post; [apply emits_randbelow|].
  intros s i s' H. apply randbelow_Ok in H. tauto.
Qed.

Lemma emits_random_random_lt :
  emits P (random_random E) (fun u => (u < 2 ^ 53)%N).
Proof.
  apply emits_post; [apply emits_random_random|].
  intros s u s' H. unfold random_random in H. inversion H; subst.
  apply N.mod_lt. discriminate.
Qed.

Lemma emits_random_uniform_drawn a b :
  emits P (random_uniform E a b) (drawn a b).
Proof.
  unfold random_uniform.
  eapply emits_bind; [apply emits_random_random_lt|]. intros u Hu.
  apply emits_ret. exists u. split; [exact Hu|reflexivity].
Qed.

Lemma emits_random_choice_in {A} (l : list A) :
  emits P (random_choice E l) (fun x => In x l).
Proof.
  apply emits_post; [apply emits_random_choice|].
  intros s x s' H. apply random_choice_Ok in H. tauto.
Qed.

Lemma emits_for_in_all {A B} (l : list A) (body : A -> M B) (Q : B -> Prop) :
  (forall x, emits P (body x) Q) ->
  emits P (for_in l body)
        (fun rs => List.length rs = List.length l /\ Forall Q rs).
Proof.
  intros Hb. induction l as [|x xs IH]; simpl.
  - apply emits_ret. split; [reflexivity|constructor].
  - eapply emits_bind; [apply Hb|]. intros r Hr.
    eapply emits_bind; [exact IH|]. intros rs [Hl HF]. apply emits_ret.
    split; [simpl; rewrite Hl; reflexivity|constructor; assumption].
Qed.

Lemma emits_for_in_mem {A B} (l : list A) (body : A -> M B) :
  (forall x, In x l -> emits P (body x) any) -> emits P (for_in l body) any.
Proof.
  induction l as [|x xs IH]; intros Hb; simpl.
  - apply emits_ret. exact I.
  - eapply emits_bind; [apply Hb; left; reflexivity|]. intros r _.
    eapply emits_bind; [apply IH; intros y Hy; apply Hb; right; exact Hy|].
    intros rs _. apply emits_ret. exact I.
Qed.

Lemma string_of_list_length cs :
  String.length (string_of_list_ascii cs) = List.length cs.
Proof. induction cs as [|c cs IH]; simpl; [reflexivity|]. rewrite IH. reflexivity. Qed.

Lemma emits_random_string_code alphabet k :
  emits P (random_string E alphabet k) (code alphabet k).
Proof.
  unfold random_string, random_choices.
  eapply emits_bind;
    [apply (emits_for_in_all _ _ (fun c => In c alphabet)); intros _;
     apply emits_random_choice_in|].
  intros cs [Hl HF]. apply emits_ret. split.
  - rewrite string_of_list_length, Hl. apply repeat_length.
  - rewrite list_ascii_of_string_of_list_ascii. exact HF.
Qed.

Lemma emits_random_randint_range a b :
  emits P (random_randint E a b) (fun z => (a <= z <= b)%Z).
Proof.
  unfold random_randint. destruct (b <? a)%Z eqn:Hba; [apply emits_raise|].
  apply Z.ltb_ge in Hba.
  eapply emits_bind; [apply emits_randbelow_lt|]. intros i Hi.
  apply emits_ret. cbv beta in *. lia.
Qed.

Lemma emits_date_add_days_valid d n :
  emits P (date_add_days d n)
        (fun r => r = (d + n)%Z /\ (1 <= d + n <= date_max)%Z).
Proof.
  apply emits_silent.
  - intros s. unfold date_add_days.
    destruct ((1 <=? d + n) && (d + n <=? date_max))%Z; reflexivity.
  - intros s a s' H. unfold date_add_days in H.
    destruct ((1 <=? d + n) && (d + n <=? date_max))%Z eqn:Hr;
      [|discriminate H].
    apply ret_Ok in H. apply andb_true_iff in Hr.
    destruct Hr as [H1 H2]. apply Z.leb_le in H1, H2. split; [tauto|lia].
Qed.

Lemma emits_random_point_in_bbox_drawn a b c d :
  emits P (Seeder.random_point_in_bbox E a b c d)
        (fun g => exists lng lat,
                    g = point_wkt lng lat /\ drawn a b lng /\ drawn c d lat).
Proof.
  unfold Seeder.random_point_in_bbox.
  eapply emits_bind; [apply emits_random_uniform_drawn|]. intros lng Hlng.
  eapply emits_bind; [apply emits_random_uniform_drawn|]. intros lat Hlat.
  apply emits_ret. exists lng, lat. auto.
Qed.

Lemma emits_random_point_in_riverside_drawn :
  emits P (SeederRC.random_point_in_riverside E)
        (fun g => exists lng lat,
                    g = point_wkt lng lat
                    /\ drawn SeederRC.MIN_X SeederRC.MAX_X lng
                    /\ drawn SeederRC.MIN_Y SeederRC.MAX_Y lat).
Proof.
  unfold SeederRC.random_point_in_riverside.
  eapply emits_bind; [apply emits_random_uniform_drawn|]. intros lng Hlng.
  eapply emits_bind; [apply emits_random_uniform_drawn|]. intros lat Hlat.
  apply emits_ret. exists lng, lat. auto.
Qed.

Lemma take_word_no_space s :
  Forall (fun c => is_space c = false) (list_ascii_of_string (take_word s)).
Proof.
  induction s as [|c s IH]; simpl; [constructor|].
  destruct (is_space c) eqn:Hc; simpl; [constructor|].
  constructor; assumption.
Qed.

Lemma skip_spaces_head s c rest :
  skip_spaces s = String c rest -> is_space c = false.
Proof.
  induction s as [|d s IH]; simpl; [discriminate|].
  destruct (is_space d) eqn:Hd; [exact IH|].
  intros H. inversion H; subst. exact Hd.
Qed.

Lemma first_word_word s w : first_word s = Some w -> word w.
Proof.
  unfold first_word. destruct (skip_spaces s) as [|c rest] eqn:Hs;
    [discriminate|].
  intros H. injection H as <-. split; [|exact (take_word_no_space (String c rest))].
  simpl. rewrite (skip_spaces_head _ _ _ Hs). discriminate.
Qed.

Lemma emits_generate_riverside_address_form :
  emits P (SeederRC.generate_riverside_address E) (address_form SeederRcPy).
Proof.
  unfold SeederRC.generate_riverside_address.
  eapply emits_bind; [apply emits_random_randint_range|]. intros num Hnum.
  eapply emits_bind; [apply emits_fake_string|]. intros full _.
  destruct (first_word full) as [w|] eqn:Hw; [|apply emits_raise].
  eapply emits_bind; [apply emits_random_choice_in|]. intros suffix Hsuf.
  eapply emits_bind; [apply emits_random_choice_in|]. intros zip Hzip.
  apply emits_ret. exists num, w, suffix, zip.
  split; [reflexivity|]. split; [exact Hnum|].
  split; [exact (first_word_word _ _ Hw)|]. split; assumption.
Qed.

Lemma emits_generate_riverside_party_post party_type :
  emits P (SeederRC.generate_riverside_party E party_type)
        (riverside_party party_type).
Proof.
  unfold SeederRC.generate_riverside_party.
  destruct (String.eqb party_type "Individual") eqn:H1.
  - apply String.eqb_eq in H1.
    eapply emits_bind; [apply emits_fake_string|]. intros n _.
    apply emits_ret. left. split; [exact H1|reflexivity].
  - apply String.eqb_neq in H1.
    destruct (String.eqb party_type "Company") eqn:H2.
    + apply String.eqb_eq in H2.
      eapply emits_bind; [apply emits_random_choice_in|]. intros n Hn.
      apply emits_ret. right. left. auto.
    + apply String.eqb_neq in H2.
      eapply emits_bind; [apply emits_random_choice_in|]. intros n Hn.
      apply emits_ret. right. right. auto.
Qed.

End Posts.

(** Follow a computation, keeping what its library calls return. *)
Ltac carry_step :=
  first
    [ lazymatch goal with
      | |- emits _ (random_string _ _ _) _ => apply emits_random_string_code
      | |- emits _ (random_uniform _ _ _) _ =>
          apply emits_random_uniform_drawn
      | |- emits _ (random_random _) _ => apply emits_random_random_lt
      | |- emits _ (random_choice _ _) _ => apply emits_random_choice_in
      | |- emits _ (random_randint _ _ _) _ =>
          apply emits_random_randint_range
      | |- emits _ (date_add_days _ _) _ => apply emits_date_add_days_valid
      | |- emits _ (Seeder.random_point_in_bbox _ _ _ _ _) _ =>
          apply emits_random_point_in_bbox_drawn
      | |- emits _ (SeederRC.random_point_in_riverside _) _ =>
          apply emits_random_point_in_riverside_drawn
      | |- emits _ (SeederRC.generate_riverside_address _) _ =>
          apply emits_generate_riverside_address_form
      | |- emits _ (SeederRC.generate_riverside_party _ _) _ =>
          apply emits_generate_riverside_party_post
      end
    | emits_go ].

(** A statement or a line: the terms of the other tables do not apply,
    [tac] proves those of its own. *)
Ltac carried tac :=
  cbv beta in *; unfold carries;
  repeat match goal with |- _ /\ _ => split end;
  let Hs := fresh "Hs" in
  intros Hs; first [ vm_compute in Hs; discriminate Hs | clear Hs; tac ].

Ltac no_terms := carried fail.

Section Carries.

Variable E : env.

Lemma carries_seeder_party_phase N :
  emits (carries SeederPy) (Seeder.party_phase E N) any.
Proof.
  unfold Seeder.party_phase. repeat carry_step; carried ltac:(
    do 3 eexists; split; [reflexivity|]; split; [eassumption|];
    split; [eassumption|]; intros Hscript; discriminate Hscript).
Qed.

Lemma replace_newline_none s :
  ~ In newline (list_ascii_of_string (replace_newline s)).
Proof.
  induction s as [|c s IH]; simpl; [tauto|].
  destruct (Ascii.eqb c newline) eqn:Hc; simpl.
  - intros [H|[H|H]]; [discriminate H|discriminate H|exact (IH H)].
  - apply Ascii.eqb_neq in Hc. intros [H|H]; [congruence|exact (IH H)].
Qed.

Lemma carries_seeder_spatial_phase M :
  emits (carries SeederPy) (Seeder.spatial_phase E M) any.
Proof.
  unfold Seeder.spatial_phase. repeat carry_step; carried ltac:(
    match goal with
    | H : exists lng lat, _ |- _ => destruct H as (lng & lat & -> & Hx & Hy)
    end;
    do 5 eexists; split; [reflexivity|]; split; [split; eassumption|];
    split; [reflexivity|]; split; [apply replace_newline_none|];
    split; eassumption).
Qed.

Lemma carries_seeder_baunit_phase ids :
  emits (carries SeederPy) (Seeder.baunit_phase E ids) any.
Proof.
  unfold Seeder.baunit_phase. repeat carry_step; carried ltac:(
    do 6 eexists; split; [reflexivity|]; repeat (split; [eassumption|]);
    reflexivity).
Qed.

Lemma carries_rc_party_phase N :
  emits (carries SeederRcPy) (SeederRC.party_phase E N) any.
Proof.
  unfold SeederRC.party_phase. repeat carry_step; carried ltac:(
    match goal with
    | H : riverside_party _ _ |- _ =>
        destruct H as [[-> ->]|[(-> & -> & Hn)|(_ & _ & -> & Hn)]]
    end;
    do 3 eexists; (split; [reflexivity|]);
    (split; [simpl; tauto|]); (split; [eassumption|]);
    intros _; split; intros Htype; first [discriminate Htype|exact Hn]).
Qed.

Lemma carries_rc_spatial_phase M :
  emits (carries SeederRcPy) (SeederRC.spatial_phase E M) any.
Proof.
  unfold SeederRC.spatial_phase. repeat carry_step; carried ltac:(
    match goal with
    | H : exists lng lat, _ |- _ => destruct H as (lng & lat & -> & Hx & Hy)
    end;
    do 5 eexists; split; [reflexivity|]; split; [split; eassumption|];
    split; [reflexivity|]; split; [eassumption|];
    split; eassumption).
Qed.

Lemma carries_rc_baunit_phase ids :
  emits (carries SeederRcPy) (SeederRC.baunit_phase E ids) any.
Proof.
  unfold SeederRC.baunit_phase. repeat carry_step; carried ltac:(
    do 6 eexists; split; [reflexivity|]; repeat (split; [eassumption|]);
    eexists; split; [eassumption|reflexivity]).
Qed.

Lemma carries_tax_rate_phase sc ids :
  emits (carries sc) (tax_rate_phase E ids) any.
Proof.
  unfold tax_rate_phase, insert_tax_rate_areas, insert_tax_rates, assign_tra.
  repeat carry_step; no_terms.
Qed.

Lemma carries_assessment_phase sc ids rates :
  emits (carries sc) (assessment_phase E ids rates) any.
Proof.
  unfold assessment_phase. repeat carry_step; carried ltac:(
    do 7 eexists; split; [reflexivity|]; repeat (split; [eassumption|]);
    eassumption).
Qed.

Lemma carries_supplemental_phase sc ids rates :
  emits (carries sc) (supplemental_phase E ids rates) any.
Proof.
  unfold supplemental_phase. repeat carry_step; carried ltac:(
    do 6 eexists; split; [reflexivity|]; repeat (split; [eassumption|]);
    eassumption).
Qed.

Lemma carries_rrr_phase sc ids parties :
  emits (carries sc) (rrr_phase E ids parties) any.
Proof.
  unfold rrr_phase. repeat carry_step; carried ltac:(
    do 3 eexists; reflexivity).
Qed.

Lemma carries_bill_phase sc ids parties K :
  emits (carries sc) (bill_phase E ids parties K) any.
Proof.
  unfold bill_phase. repeat carry_step; carried ltac:(
    match goal with
    | H : _ = (_ + 30)%Z /\ _ |- _ => destruct H as [-> Hd]
    end;
    do 5 eexists; split; [reflexivity|]; repeat (split; [eassumption|]);
    eassumption).
Qed.

Lemma carries_payment_phase sc bills :
  emits (carries sc) (payment_phase E bills) any.
Proof.
  unfold payment_phase. repeat carry_step; carried ltac:(
    do 4 eexists; split; [reflexivity|eassumption]).
Qed.

Lemma carries_mark_paid sc bills :
  emits (carries sc) (mark_paid E bills) any.
Proof. unfold mark_paid. repeat carry_step; no_terms. Qed.

End Carries.

(** What the phases emit, the [try] block emits. *)
Section EveryPhase.

Variable P : event -> Prop.
Variable E : env.
Variables pp sp : Z -> M (list value).
Variable bp : list value -> M (list value).

Hypothesis P_print : forall line, P (EvPrint line).
Hypothesis P_commit : P EvCommit.
Hypothesis P_pp : forall n, emits P (pp n) any.
Hypothesis P_sp : forall m, emits P (sp m) any.
Hypothesis P_bp : forall ids, emits P (bp ids) any.
Hypothesis P_tax_rate : forall ids, emits P (tax_rate_phase E ids) any.
Hypothesis P_assessment :
  forall ids rates, emits P (assessment_phase E ids rates) any.
Hypothesis P_supplemental :
  forall ids rates, emits P (supplemental_phase E ids rates) any.
Hypothesis P_rrr : forall ids parties, emits P (rrr_phase E ids parties) any.
Hypothesis P_bill :
  forall ids parties K, emits P (bill_phase E ids parties K) any.
Hypothesis P_payment : forall bills, emits P (payment_phase E bills) any.
Hypothesis P_mark_paid : forall bills, emits P (mark_paid E bills) any.

Lemma emits_seeding_with N M K : emits P (seeding_with E pp sp bp N M K) any.
Proof.
  unfold seeding_with, later_phases, through_payments.
  eapply emits_bind; [apply emits_print; apply P_print|]. intros _ _.
  eapply emits_bind; [apply P_pp|]. intros party_ids _.
  eapply emits_bind; [apply P_sp|]. intros spatial_ids _.
  eapply emits_bind; [apply P_bp|]. intros baunit_ids _.
  eapply emits_bind.
  - eapply emits_bind; [apply P_tax_rate|]. intros rates _.
    eapply emits_bind; [apply P_assessment|]. intros _ _.
    eapply emits_bind; [apply P_supplemental|]. intros _ _.
    eapply emits_bind; [apply P_rrr|]. intros _ _.
    eapply emits_bind; [apply P_bill|]. intros bills _.
    eapply emits_bind; [apply P_payment|]. intros _ _.
    apply emits_ret_any.
  - intros bills _.
    eapply emits_bind; [apply P_mark_paid|]. intros _ _.
    eapply emits_bind; [apply emits_commit; exact P_commit|]. intros _ _.
    apply emits_print. apply P_print.
Qed.

End EveryPhase.

Lemma carries_other sc ev : is_execute ev = false -> carries sc ev.
Proof.
  intros H. destruct ev; try discriminate H;
    repeat split; intros Hs; discriminate Hs.
Qed.

Lemma run_carries sc E N M K :
  Forall (carries sc) (trace (final (run sc E N M K))).
Proof.
  apply run_trace_emits; try (apply carries_other; reflexivity).
  destruct sc; simpl try_block.
  - apply (emits_seeding_with (carries SeederPy) E (Seeder.party_phase E)
             (Seeder.spatial_phase E) (Seeder.baunit_phase E));
      intros; first
        [ apply carries_other; reflexivity
        | apply carries_seeder_party_phase
        | apply carries_seeder_spatial_phase
        | apply carries_seeder_baunit_phase
        | apply carries_tax_rate_phase | apply carries_assessment_phase
        | apply carries_supplemental_phase | apply carries_rrr_phase
        | apply carries_bill_phase | apply carries_payment_phase
        | apply carries_mark_paid ].
  - apply (emits_seeding_with (carries SeederRcPy) E (SeederRC.party_phase E)
             (SeederRC.spatial_phase E) (SeederRC.baunit_phase E));
      intros; first
        [ apply carries_other; reflexivity
        | apply carries_rc_party_phase
        | apply carries_rc_spatial_phase
        | apply carries_rc_baunit_phase
        | apply carries_tax_rate_phase | apply carries_assessment_phase
        | apply carries_supplemental_phase | apply carries_rrr_phase
        | apply carries_bill_phase | apply carries_payment_phase
        | apply carries_mark_paid ].
Qed.

(** X9.  In every run of either script, returning or not, every insert into
    LA_Party binds three strings: a name, a type that is one of
    "Individual", "Company", "GovAgency", and an identifier of nine
    decimal digits.  In [seeder_rc.py] the name of a company is one of
    the four RIVERSIDE_BUSINESSES and the name of a government agency one
    of the four RIVERSIDE_AGENCIES. *)
Theorem party_values (sc : script) (E : env) (N M K : Z) :
  Forall (party_terms sc) (trace (final (run sc E N M K))).
Proof.
  eapply Forall_impl; [|apply run_carries]. intros ev H. apply H.
Qed.

(** X10.  In every run of either script, returning or not, every insert into
    LA_SpatialUnit has as geometry a point whose longitude and latitude
    are values of [random.uniform] over the bounding box of its script
    (-117.0 to -115.0 by 33.0 to 34.0 in [seeder.py], -117.50 to -117.25
    by 33.85 to 34.00 in [seeder_rc.py]), and binds an address, a
    cadastral reference "CAD-" followed by six decimal digits, and an
    area that is a value of [random.uniform(200.0, 20000.0)].  In
    [seeder.py] the address has no line break left in it; in
    [seeder_rc.py] it is a street number from 100 to 9999, one word, a
    suffix of STREET_SUFFIXES, a line break, and "Riverside, CA " with a
    zip code of RIVERSIDE_ZIP_CODES. *)
Theorem spatial_values (sc : script) (E : env) (N M K : Z) :
  Forall (spatial_terms sc) (trace (final (run sc E N M K))).
Proof.
  eapply Forall_impl; [|apply run_carries]. intros ev H. apply H.
Qed.

(** X11.  In every run of either script, returning or not, every insert into
    LA_BAUnit binds a unit name "Parcel " followed by four upper-case
    letters, the spatial unit, an assessor parcel number of three groups
    of three decimal digits joined by "-", and a fourth value: in
    [seeder.py] a null tra_id, in [seeder_rc.py] the description
    "Household Size: n" with n from 1 to 6. *)
Theorem baunit_values (sc : script) (E : env) (N M K : Z) :
  Forall (baunit_terms sc) (trace (final (run sc E N M K))).
Proof.
  eapply Forall_impl; [|apply run_carries]. intros ev H. apply H.
Qed.

(** X12.  In every run of either script, returning or not, every insert into
    TaxAssessment binds an assessment year of 2023 to 2025, a base year
    of 2018 to 2020, a base value drawn by
    [random.uniform(100000, 800000)], the factor
    [1.0 + random.random() * 0.1], the product of the base value and the
    factor as current value, and a roll type "Secured" or "Unsecured";
    every insert into SupplementalAssessment binds a reason
    "ChangeOfOwnership" or "NewConstruction", an old value drawn by
    [random.uniform(100000, 600000)], the new value [old + bump] for a
    bump drawn by [random.uniform(10000, 60000)], and the difference
    [new - old]. *)
Theorem valuation_values (sc : script) (E : env) (N M K : Z) :
  Forall (fun ev => assessment_terms ev /\ supplemental_terms ev)
         (trace (final (run sc E N M K))).
Proof.
  eapply Forall_impl; [|apply (run_carries sc)]. intros ev H.
  split; apply H.
Qed.

(** X13.  In every run of either script, returning or not, every insert into
    LA_RRR has the type "Ownership"; every insert into TaxBill binds an
    amount drawn by [random.uniform(500, 5000)], a type "Annual" or
    "Supplemental", and a due date 30 days after the bill date that is a
    date [datetime.date] can hold; every insert into TaxPayment binds an
    amount drawn by [random.uniform(50, 1000)]. *)
Theorem billing_values (sc : script) (E : env) (N M K : Z) :
  Forall (fun ev => ownership_terms ev /\ bill_values ev /\ payment_values ev)
         (trace (final (run sc E N M K))).
Proof.
  eapply Forall_impl; [|apply (run_carries sc)]. intros ev H.
  repeat split; apply H.
Qed.

(** ** The two generators of [seeder_rc.py] *)

Section Generators.

Variable E : env.

Lemma randbelow_total n s :
  0 < n -> exists i, randbelow E n s = Ok i (next_rng s) /\ i < n.
Proof.
  intros Hn. destruct (randbelow E n s) as [i s'|e s'] eqn:Hr.
  - pose proof (randbelow_Ok _ _ _ _ _ Hr) as (Hi & _).
    unfold randbelow in Hr. destruct n; [discriminate|].
    inversion Hr; subst. eexists. split; [reflexivity|exact Hi].
  - unfold randbelow in Hr. destruct n; [lia|discriminate].
Qed.

Lemma random_choice_total {A} (l : list A) s :
  l <> [] -> exists x, random_choice E l s = Ok x (next_rng s) /\ In x l.
Proof.
  intros Hl. unfold random_choice. destruct l as [|y ys]; [congruence|].
  destruct (randbelow_total (List.length (y :: ys)) s) as (i & Hr & Hi);
    [simpl; lia|].
  unfold bind. rewrite Hr.
  destruct (nth_error (y :: ys) i) as [x|] eqn:Hx.
  - exists x. split; [reflexivity|]. eapply nth_error_In. exact Hx.
  - apply nth_error_None in Hx. lia.
Qed.

Lemma random_randint_total a b s :
  (a <= b)%Z ->
  exists z, random_randint E a b s = Ok z (next_rng s) /\ (a <= z <= b)%Z.
Proof.
  intros Hab. unfold random_randint.
  destruct (b <? a)%Z eqn:Hba; [apply Z.ltb_lt in Hba; lia|].
  destruct (randbelow_total (Z.to_nat (b - a + 1)) s) as (i & Hr & Hi); [lia|].
  unfold bind. rewrite Hr. eexists. split; [reflexivity|]. lia.
Qed.

(** X14.  [generate_riverside_party] never raises and sends nothing to the
    database, whatever string it is given.  For "Individual" it returns
    Faker's next name (one call into Faker, no random draw); for
    "Company" one of the four RIVERSIDE_BUSINESSES; for every other
    string, "GovAgency" or not, it returns the type "GovAgency" with one
    of the four RIVERSIDE_AGENCIES (one random draw, no call into
    Faker). *)
Theorem generate_riverside_party_total (party_type : string) (s : state) :
  exists party_name actual_type s',
    SeederRC.generate_riverside_party E party_type s
    = Ok (party_name, actual_type) s'
    /\ riverside_party party_type (party_name, actual_type)
    /\ trace s' = trace s /\ db_ix s' = db_ix s
    /\ (party_type = "Individual" ->
        party_name = fake_text E (fk_ix s)
        /\ fk_ix s' = S (fk_ix s) /\ rng_ix s' = rng_ix s)
    /\ (party_type <> "Individual" ->
        fk_ix s' = fk_ix s /\ rng_ix s' = S (rng_ix s)).
Proof.
  unfold SeederRC.generate_riverside_party.
  destruct (String.eqb party_type "Individual") eqn:H1.
  - apply String.eqb_eq in H1. eexists _, _, _. split; [reflexivity|].
    split; [left; split; [exact H1|reflexivity]|].
    split; [reflexivity|]. split; [reflexivity|].
    split; [intros _; repeat split; reflexivity|intros Hne; congruence].
  - apply String.eqb_neq in H1.
    destruct (String.eqb party_type "Company") eqn:H2.
    + apply String.eqb_eq in H2.
      destruct (random_choice_total SeederRC.RIVERSIDE_BUSINESSES s)
        as (n & Hn & Hin); [discriminate|].
      unfold bind. rewrite Hn. eexists _, _, _. split; [reflexivity|].
      split; [right; left; auto|].
      split; [reflexivity|]. split; [reflexivity|].
      split; [intros Hi; congruence|intros _; split; reflexivity].
    + apply String.eqb_neq in H2.
      destruct (random_choice_total SeederRC.RIVERSIDE_AGENCIES s)
        as (n & Hn & Hin); [discriminate|].
      unfold bind. rewrite Hn. eexists _, _, _. split; [reflexivity|].
      split; [right; right; auto|].
      split; [reflexivity|]. split; [reflexivity|].
      split; [intros Hi; congruence|intros _; split; reflexivity].
Qed.


End Generators.

(** ** Running to the end *)

Lemma returns_ret {A} (a : A) (Q : A -> Prop) : Q a -> returns (ret a) Q.
Proof. intros HQ s. exists a, s. split; [reflexivity|exact HQ]. Qed.

Lemma returns_bind {A B} (m : M A) (k : A -> M B) Q1 Q2 :
  returns m Q1 -> (forall a, Q1 a -> returns (k a) Q2) ->
  returns (bind m k) Q2.
Proof.
  intros Hm Hk s. destruct (Hm s) as (a & s1 & Hms & HQ).
  destruct (Hk a HQ s1) as (b & s2 & Hks & HQ2).
  exists b, s2. unfold bind. rewrite Hms. split; assumption.
Qed.

Lemma returns_weaken {A} (m : M A) (Q Q' : A -> Prop) :
  returns m Q -> (forall a, Q a -> Q' a) -> returns m Q'.
Proof.
  intros Hm HQ s. destruct (Hm s) as (a & s1 & Hms & Ha).
  exists a, s1. split; [exact Hms|apply HQ; exact Ha].
Qed.

Lemma returns_for_in {A B} (l : list A) (body : A -> M B) (Q : B -> Prop) :
  (forall x, In x l -> returns (body x) Q) ->
  returns (for_in l body)
          (fun rs => List.length rs = List.length l /\ Forall Q rs).
Proof.
  induction l as [|x xs IH]; intros Hb; simpl.
  - apply returns_ret. split; [reflexivity|constructor].
  - eapply returns_bind; [apply Hb; left; reflexivity|]. intros r Hr.
    eapply returns_bind; [apply IH; intros y Hy; apply Hb; right; exact Hy|].
    intros rs [Hl HF]. apply returns_ret.
    split; [simpl; rewrite Hl; reflexivity|constructor; assumption].
Qed.

Lemma returns_print line : returns (print line) any.
Proof. intros s. eexists _, _. split; [reflexivity|exact I]. Qed.

(** The statement has a RETURNING clause; the row fetched has a column. *)
Ltac has_column :=
  try match goal with H : List.length _ = _ |- _ => rewrite H end;
  vm_compute; lia.

Tactic Notation "next" uconstr(L) := eapply returns_bind; [apply L|].

Section ReturnsLibrary.

Variable E : env.

Lemma returns_randbelow n : 0 < n -> returns (randbelow E n) (fun i => i < n).
Proof.
  intros Hn s. destruct n as [|n]; [lia|]. eexists _, _.
  split; [reflexivity|]. cbv beta.
  assert (N.of_nat (S n) <> 0%N) as Hz by lia.
  pose proof (N.mod_upper_bound (rand E (rng_ix s)) _ Hz) as H.
  revert H. generalize (rand E (rng_ix s) mod N.of_nat (S n))%N.
  intros r H. lia.
Qed.

Lemma returns_random_random : returns (random_random E) any.
Proof. intros s. eexists _, _. split; [reflexivity|exact I]. Qed.

Lemma returns_random_uniform a b : returns (random_uniform E a b) any.
Proof.
  unfold random_uniform. eapply returns_bind; [apply returns_random_random|].
  intros u _. apply returns_ret. exact I.
Qed.

Lemma returns_random_choice {A} (l : list A) :
  l <> [] -> returns (random_choice E l) (fun x => In x l).
Proof.
  intros Hl. unfold random_choice. destruct l as [|x xs]; [congruence|].
  eapply returns_bind; [apply returns_randbelow; simpl; lia|]. intros i Hi.
  destruct (nth_error (x :: xs) i) as [y|] eqn:Hy.
  - apply returns_ret. eapply nth_error_In. exact Hy.
  - apply nth_error_None in Hy. cbv beta in Hi. lia.
Qed.

Lemma returns_random_string alphabet k :
  alphabet <> [] -> returns (random_string E alphabet k) any.
Proof.
  intros Ha. unfold random_string, random_choices.
  eapply returns_bind;
    [apply returns_for_in; intros _ _; apply returns_random_choice; exact Ha|].
  intros cs _. apply returns_ret. exact I.
Qed.

Lemma returns_random_randint a b :
  (a <= b)%Z -> returns (random_randint E a b) (fun z => (a <= z <= b)%Z).
Proof.
  intros Hab. unfold random_randint.
  destruct (b <? a)%Z eqn:Hba; [apply Z.ltb_lt in Hba; lia|].
  eapply returns_bind; [apply returns_randbelow; lia|]. intros i Hi.
  apply returns_ret. cbv beta in *. lia.
Qed.

Lemma remove_nth_length {A} (l : list A) : forall j,
  j < List.length l -> List.length (remove_nth j l) = pred (List.length l).
Proof.
  induction l as [|x xs IH]; intros j Hj; simpl in *; [lia|].
  destruct j as [|j]; [reflexivity|]. simpl. rewrite IH by lia.
  destruct xs; simpl in *; lia.
Qed.

Lemma remove_nth_In {A} (l : list A) : forall j x,
  In x (remove_nth j l) -> In x l.
Proof.
  induction l as [|y ys IH]; intros j x H; [destruct j; exact H|].
  simpl in *. destruct j as [|j]; [right; exact H|].
  destruct H as [H|H]; [left; exact H|right; eapply IH; exact H].
Qed.

Lemma returns_sample_from {A} k : forall pool : list A,
  k <= List.length pool ->
  returns (sample_from E pool k)
          (fun xs => List.length xs = k /\ forall x, In x xs -> In x pool).
Proof.
  induction k as [|k IH]; intros pool Hk; simpl.
  - apply returns_ret. split; [reflexivity|intros x []].
  - eapply returns_bind; [apply returns_randbelow; lia|]. intros j Hj.
    cbv beta in Hj.
    destruct (nth_error pool j) as [x|] eqn:Hx;
      [|apply nth_error_None in Hx; lia].
    eapply returns_bind;
      [apply IH; rewrite remove_nth_length by exact Hj; lia|].
    intros rest [Hl Hin]. apply returns_ret. split.
    + simpl. rewrite Hl. reflexivity.
    + intros y [<-|Hy]; [eapply nth_error_In; exact Hx|].
      eapply remove_nth_In. apply Hin. exact Hy.
Qed.

Lemma returns_random_sample {A} (l : list A) k :
  k <= List.length l ->
  returns (random_sample E l k)
          (fun xs => List.length xs = k /\ forall x, In x xs -> In x l).
Proof.
  intros Hk. unfold random_sample.
  destruct (List.length l <? k)%nat eqn:Hlt;
    [apply Nat.ltb_lt in Hlt; lia|].
  apply returns_sample_from. exact Hk.
Qed.

Lemma returns_fake_string : returns (fake_string E) any.
Proof. intros s. eexists _, _. split; [reflexivity|exact I]. Qed.

Lemma returns_unpack2 v :
  bill_row v -> returns (unpack2 v) any.
Proof.
  intros (a & b & ->). apply returns_ret. exact I.
Qed.

Hypothesis HE : obliging E.

Lemma returns_fake_date_between a b :
  returns (fake_date_between E a b)
          (fun d => (1 <= d <= date_max - 30)%Z).
Proof.
  intros s. destruct HE as (_ & _ & _ & Hd).
  destruct (Hd (fk_ix s) a b) as (d & Hfd & Hr).
  exists d, (next_fk s). unfold fake_date_between. rewrite Hfd.
  split; [reflexivity|exact Hr].
Qed.

Lemma returns_add_30 d :
  (1 <= d <= date_max - 30)%Z -> returns (date_add_days d 30) any.
Proof.
  intros Hd. unfold date_add_days.
  replace ((1 <=? d + 30) && (d + 30 <=? date_max))%Z with true;
    [apply returns_ret; exact I|].
  symmetry. apply andb_true_iff. split; apply Z.leb_le; lia.
Qed.

Lemma returns_execute q ps : returns (execute E q ps) any.
Proof.
  intros s. destruct HE as (_ & _ & Hx & _).
  destruct (Hx (db_ix s) q ps) as (rows & Hq & _).
  unfold execute. rewrite Hq. eexists _, _. split; [reflexivity|exact I].
Qed.

(** [cur.execute(q, ps)] followed by [cur.fetchone()], when [q] has a
    RETURNING clause: the row goes to what follows. *)
Lemma returns_fetch {B} q ps (k : value -> M B) Q :
  1 <= returning_columns q ->
  (forall r, List.length r = returning_columns q -> returns (k (VTuple r)) Q) ->
  returns (execute E q ps ;; r <- fetchone ;; k r) Q.
Proof.
  intros Hq Hk s. destruct HE as (_ & _ & Hx & _).
  destruct (Hx (db_ix s) q ps) as (rows & Hrows & Hshape).
  destruct (Hshape Hq) as (r & rest & -> & Hlen).
  unfold bind at 1. unfold execute. rewrite Hrows.
  unfold bind, fetchone. simpl. apply Hk. exact Hlen.
Qed.

Lemma returns_index0 r :
  1 <= List.length r -> returns (index0 (VTuple r)) any.
Proof.
  intros Hr. destruct r as [|x xs]; [simpl in Hr; lia|].
  apply returns_ret. exact I.
Qed.

Lemma returns_fetch_row q ps :
  1 <= returning_columns q ->
  returns (execute E q ps ;; fetchone)
          (fun v => exists r,
                      v = VTuple r /\ List.length r = returning_columns q).
Proof.
  intros Hq s. destruct HE as (_ & _ & Hx & _).
  destruct (Hx (db_ix s) q ps) as (rows & Hrows & Hshape).
  destruct (Hshape Hq) as (r & rest & -> & Hlen).
  unfold bind, execute. rewrite Hrows. unfold fetchone. simpl.
  eexists _, _. split; [reflexivity|]. exists r. split; [reflexivity|exact Hlen].
Qed.

Lemma returns_commit : returns (commit E) any.
Proof.
  intros s. destruct HE as (_ & Hc & _). unfold commit. rewrite Hc.
  eexists _, _. split; [reflexivity|exact I].
Qed.

(** *** The phases *)

Lemma returns_seeder_party_phase N :
  returns (Seeder.party_phase E N) (fun ids => List.length ids = Z.to_nat N).
Proof.
  unfold Seeder.party_phase. next returns_print. intros _ _.
  eapply returns_weaken; [apply (returns_for_in _ _ any)|].
  - intros _ _. next returns_fake_string. intros party_name _.
    next returns_random_choice; [discriminate|]. intros party_type _.
    next returns_random_string; [discriminate|]. intros ident _.
    apply returns_fetch; [has_column|]. intros r Hr.
    apply returns_index0. has_column.
  - intros ids [Hl _]. rewrite Hl. apply range_length.
Qed.

Lemma returns_random_point_in_bbox a b c d :
  returns (Seeder.random_point_in_bbox E a b c d) is_point.
Proof.
  unfold Seeder.random_point_in_bbox.
  next returns_random_uniform. intros lng _.
  next returns_random_uniform. intros lat _.
  apply returns_ret. exists lng, lat. reflexivity.
Qed.

Lemma returns_seeder_spatial_phase M :
  returns (Seeder.spatial_phase E M)
          (fun ids => List.length ids = Z.to_nat M).
Proof.
  unfold Seeder.spatial_phase. next returns_print. intros _ _.
  eapply returns_weaken; [apply (returns_for_in _ _ any)|].
  - intros _ _. next returns_fake_string. intros raw _.
    next returns_random_point_in_bbox. intros g (lng & lat & ->).
    next returns_random_string; [discriminate|]. intros cad _.
    next returns_random_uniform. intros area _.
    apply returns_fetch; [has_column|]. intros r Hr.
    apply returns_index0. has_column.
  - intros ids [Hl _]. rewrite Hl. apply range_length.
Qed.

Lemma returns_seeder_baunit_phase spatial_ids :
  returns (Seeder.baunit_phase E spatial_ids)
          (fun ids => List.length ids = List.length spatial_ids).
Proof.
  unfold Seeder.baunit_phase. next returns_print. intros _ _.
  eapply returns_weaken; [apply (returns_for_in _ _ any)|].
  - intros sid _. next returns_random_string; [discriminate|]. intros letters _.
    next returns_random_string; [discriminate|]. intros a _.
    next returns_random_string; [discriminate|]. intros b _.
    next returns_random_string; [discriminate|]. intros c _.
    apply returns_fetch; [has_column|]. intros r Hr.
    apply returns_index0. has_column.
  - intros ids [Hl _]. exact Hl.
Qed.

(** Faker's street names have a word in them. *)
Hypothesis streets : forall n, first_word (fake_text E n) <> None.

Lemma returns_generate_riverside_party party_type :
  returns (SeederRC.generate_riverside_party E party_type) any.
Proof.
  unfold SeederRC.generate_riverside_party.
  destruct (String.eqb party_type "Individual");
    [|destruct (String.eqb party_type "Company")].
  - next returns_fake_string. intros n _. apply returns_ret. exact I.
  - next returns_random_choice; [discriminate|]. intros n _.
    apply returns_ret. exact I.
  - next returns_random_choice; [discriminate|]. intros n _.
    apply returns_ret. exact I.
Qed.

Lemma returns_generate_riverside_address :
  returns (SeederRC.generate_riverside_address E) any.
Proof.
  unfold SeederRC.generate_riverside_address.
  next returns_random_randint; [lia|]. intros street_num _.
  intros s. unfold bind at 1. unfold fake_street_name, fake_string.
  pose proof (streets (fk_ix s)) as Hw.
  destruct (first_word (fake_text E (fk_ix s))) as [w|]; [|congruence].
  revert s Hw. intros s _. generalize (next_fk s). clear s.
  change (returns
            (suffix <- random_choice E SeederRC.STREET_SUFFIXES ;;
             zip_code <- random_choice E SeederRC.RIVERSIDE_ZIP_CODES ;;
             ret (str_of_int street_num ++ " " ++ w ++ " " ++ suffix
                  ++ String newline
                       ("Riverside" ++ ", " ++ "CA" ++ " " ++ zip_code))%string)
            any).
  next returns_random_choice; [discriminate|]. intros suffix _.
  next returns_random_choice; [discriminate|]. intros zip_code _.
  apply returns_ret. exact I.
Qed.

Lemma returns_rc_party_phase N :
  returns (SeederRC.party_phase E N)
          (fun ids => List.length ids = Z.to_nat N).
Proof.
  unfold SeederRC.party_phase. next returns_print. intros _ _.
  eapply returns_weaken; [apply (returns_for_in _ _ any)|].
  - intros _ _. next returns_random_choice; [discriminate|].
    intros chosen_type _.
    next returns_generate_riverside_party. intros [party_name actual_type] _.
    next returns_random_string; [discriminate|]. intros ident _.
    apply returns_fetch; [has_column|]. intros r Hr.
    apply returns_index0. has_column.
  - intros ids [Hl _]. rewrite Hl. apply range_length.
Qed.

Lemma returns_random_point_in_riverside :
  returns (SeederRC.random_point_in_riverside E) is_point.
Proof.
  unfold SeederRC.random_point_in_riverside.
  next returns_random_uniform. intros lng _.
  next returns_random_uniform. intros lat _.
  apply returns_ret. exists lng, lat. reflexivity.
Qed.

Lemma returns_rc_spatial_phase M :
  returns (SeederRC.spatial_phase E M)
          (fun ids => List.length ids = Z.to_nat M).
Proof.
  unfold SeederRC.spatial_phase. next returns_print. intros _ _.
  eapply returns_weaken; [apply (returns_for_in _ _ any)|].
  - intros _ _. next returns_generate_riverside_address. intros address _.
    next returns_random_point_in_riverside. intros g (lng & lat & ->).
    next returns_random_string; [discriminate|]. intros cad _.
    next returns_random_uniform. intros area _.
    apply returns_fetch; [has_column|]. intros r Hr.
    apply returns_index0. has_column.
  - intros ids [Hl _]. rewrite Hl. apply range_length.
Qed.

Lemma returns_rc_baunit_phase spatial_ids :
  returns (SeederRC.baunit_phase E spatial_ids)
          (fun ids => List.length ids = List.length spatial_ids).
Proof.
  unfold SeederRC.baunit_phase. next returns_print. intros _ _.
  eapply returns_weaken; [apply (returns_for_in _ _ any)|].
  - intros sid _. next returns_random_string; [discriminate|]. intros letters _.
    next returns_random_string; [discriminate|]. intros a _.
    next returns_random_string; [discriminate|]. intros b _.
    next returns_random_string; [discriminate|]. intros c _.
    next returns_random_randint; [lia|]. intros household_size _.
    apply returns_fetch; [has_column|]. intros r Hr.
    apply returns_index0. has_column.
  - intros ids [Hl _]. exact Hl.
Qed.

End ReturnsLibrary.

Lemma dict_set_nonempty k v d : dict_set k v d <> [].
Proof.
  destruct d as [|[k' v'] rest]; simpl; [discriminate|].
  destruct (String.eqb k k'); discriminate.
Qed.

Lemma fold_dict_nonempty (pairs : list (string * value)) : forall d,
  d <> [] \/ pairs <> [] ->
  fold_left (fun d kv => dict_set (fst kv) (snd kv) d) pairs d <> [].
Proof.
  induction pairs as [|p ps IH]; intros d H; simpl.
  - destruct H as [H|H]; [exact H|congruence].
  - apply IH. left. apply dict_set_nonempty.
Qed.

Lemma map_nonempty {A B} (f : A -> B) l : l <> [] -> map f l <> [].
Proof. destruct l; [congruence|discriminate]. Qed.

Lemma length_nonempty {A} (l : list A) n :
  List.length l = n -> 0 < n -> l <> [].
Proof. intros Hl Hn ->. simpl in Hl. lia. Qed.

Lemma in_nonempty {A} (x : A) l : In x l -> l <> [].
Proof. intros H ->. exact H. Qed.

Section ReturnsLater.

Variable E : env.
Hypothesis HE : obliging E.

Lemma returns_insert_tax_rate_areas :
  returns (insert_tax_rate_areas E) (fun d => dict_values d <> []).
Proof.
  unfold insert_tax_rate_areas.
  eapply returns_bind; [apply (returns_for_in _ _ any)|].
  - intros [code desc] _. apply (returns_fetch E HE); [has_column|].
    intros r Hr. next returns_index0; [has_column|]. intros tra_id_new _.
    apply returns_ret. exact I.
  - intros pairs [Hl _]. apply returns_ret. apply map_nonempty.
    apply fold_dict_nonempty. right.
    eapply length_nonempty; [exact Hl|]. simpl. lia.
Qed.

Lemma returns_insert_tax_rates :
  returns (insert_tax_rates E) (fun ids => ids <> []).
Proof.
  unfold insert_tax_rates.
  eapply returns_weaken; [apply (returns_for_in _ _ any)|].
  - intros [[[name val] eff_date] exp_date] _.
    apply (returns_fetch E HE); [has_column|]. intros r Hr.
    apply returns_index0. has_column.
  - intros ids [Hl _]. eapply length_nonempty; [exact Hl|]. simpl. lia.
Qed.

Lemma returns_tax_rate_phase baunit_ids :
  returns (tax_rate_phase E baunit_ids) (fun ids => ids <> []).
Proof.
  unfold tax_rate_phase. next returns_print. intros _ _.
  next returns_insert_tax_rate_areas. intros tra_ids_map Hmap.
  next returns_insert_tax_rates. intros tax_rate_ids Hrates.
  eapply returns_bind; [apply (returns_for_in _ _ any)|].
  - intros buid _. next returns_random_choice; [exact Hmap|].
    intros assigned_tra _. apply (returns_execute E HE).
  - intros _ _. apply returns_ret. exact Hrates.
Qed.

Lemma returns_assessment_phase baunit_ids tax_rate_ids :
  tax_rate_ids <> [] ->
  returns (assessment_phase E baunit_ids tax_rate_ids) any.
Proof.
  intros Hrates. unfold assessment_phase. next returns_print. intros _ _.
  eapply returns_weaken; [apply (returns_for_in _ _ any)|intros; exact I].
  intros buid _. next returns_random_choice; [discriminate|]. intros year _.
  next returns_random_choice; [discriminate|]. intros base_year _.
  next returns_random_uniform. intros base_val _.
  next returns_random_random. intros u _.
  next returns_random_choice; [discriminate|]. intros roll_type _.
  next returns_random_choice; [exact Hrates|]. intros used_rate _.
  apply (returns_execute E HE).
Qed.

Lemma returns_supplemental_phase baunit_ids tax_rate_ids :
  tax_rate_ids <> [] ->
  returns (supplemental_phase E baunit_ids tax_rate_ids) any.
Proof.
  intros Hrates. unfold supplemental_phase. next returns_print. intros _ _.
  next returns_random_sample.
  { pose proof (Nat.Div0.div_le_upper_bound (List.length baunit_ids) 5
                  (List.length baunit_ids)).
    assert (List.length baunit_ids / 5 <= List.length baunit_ids)
      by (apply Nat.Div0.div_le_upper_bound; lia).
    lia. }
  intros subset _.
  eapply returns_weaken; [apply (returns_for_in _ _ any)|intros; exact I].
  intros buid _. next returns_random_choice; [discriminate|]. intros reason _.
  next returns_random_uniform. intros old_val _.
  next returns_random_uniform. intros bump _.
  next returns_random_choice; [exact Hrates|]. intros used_rate _.
  next (returns_fake_date_between E HE). intros ev_date _.
  apply (returns_execute E HE).
Qed.

Lemma returns_rrr_phase baunit_ids party_ids :
  (baunit_ids <> [] -> party_ids <> []) ->
  returns (rrr_phase E baunit_ids party_ids) any.
Proof.
  intros Hp. unfold rrr_phase. next returns_print. intros _ _.
  eapply returns_weaken; [apply (returns_for_in _ _ any)|intros; exact I].
  intros buid Hin. next returns_random_choice.
  { apply Hp. eapply in_nonempty. exact Hin. }
  intros party_choice _.
  next (returns_fake_date_between E HE). intros start_dt _.
  apply (returns_execute E HE).
Qed.

Lemma bill_row_intro r : List.length r = 2 -> bill_row (VTuple r).
Proof.
  destruct r as [|a [|b [|c r]]]; try discriminate.
  intros _. exists a, b. reflexivity.
Qed.

Lemma returns_bill_phase baunit_ids party_ids K :
  ((1 <= K)%Z -> baunit_ids <> [] /\ party_ids <> []) ->
  returns (bill_phase E baunit_ids party_ids K) (Forall bill_row).
Proof.
  intros Hp. unfold bill_phase. next returns_print. intros _ _.
  eapply returns_weaken; [apply (returns_for_in _ _ bill_row)|intros bs [_ Hbs]; exact Hbs].
  intros x Hin.
  assert (1 <= K)%Z as HK.
  { apply in_nonempty in Hin. unfold range in Hin.
    destruct (Z.to_nat K) eqn:Hk; [simpl in Hin; congruence|lia]. }
  destruct (Hp HK) as [Hb Hpa].
  next returns_random_choice; [exact Hb|]. intros buid _.
  next returns_random_choice; [exact Hpa|]. intros pid _.
  next (returns_fake_date_between E HE). intros bill_dt Hd.
  next returns_add_30; [exact Hd|]. intros due_dt _.
  next returns_random_uniform. intros amt_due _.
  next returns_random_choice; [discriminate|]. intros bill_type _.
  eapply returns_weaken; [apply (returns_fetch_row E HE); has_column|].
  intros v (r & -> & Hr). apply bill_row_intro. rewrite Hr. reflexivity.
Qed.

Lemma returns_payment_phase bills :
  Forall bill_row bills -> returns (payment_phase E bills) any.
Proof.
  intros Hb. unfold payment_phase. next returns_print. intros _ _.
  next returns_random_sample.
  { apply Nat.Div0.div_le_upper_bound. lia. }
  intros half [_ Hin].
  eapply returns_weaken; [apply (returns_for_in _ _ any)|intros; exact I].
  intros bill Hbill. apply Hin in Hbill.
  apply (proj1 (Forall_forall _ _) Hb) in Hbill.
  next returns_unpack2; [exact Hbill|]. intros [b_date b_uid] _.
  next returns_random_randint; [lia|]. intros how_many _.
  eapply returns_weaken; [apply (returns_for_in _ _ any)|intros; exact I].
  intros _ _. next (returns_fake_date_between E HE). intros pay_dt _.
  next returns_random_uniform. intros amt_paid _.
  apply (returns_execute E HE).
Qed.

Lemma returns_mark_paid bills :
  Forall bill_row bills -> returns (mark_paid E bills) any.
Proof.
  intros Hb. unfold mark_paid.
  eapply returns_weaken; [apply (returns_for_in _ _ any)|intros; exact I].
  intros bill Hbill. apply (proj1 (Forall_forall _ _) Hb) in Hbill.
  next returns_unpack2; [exact Hbill|]. intros [b_date b_uid] _.
  next returns_random_random. intros u _.
  destruct (below_half u); [apply (returns_execute E HE)|].
  apply returns_ret. exact I.
Qed.

Variables pp sp : Z -> M (list value).
Variable bp : list value -> M (list value).

Hypothesis pp_returns :
  forall N, returns (pp N) (fun ids => List.length ids = Z.to_nat N).
Hypothesis sp_returns :
  forall M, returns (sp M) (fun ids => List.length ids = Z.to_nat M).
Hypothesis bp_returns :
  forall spatial_ids,
    returns (bp spatial_ids)
            (fun ids => List.length ids = List.length spatial_ids).

Lemma returns_seeding_with N M K :
  ((1 <= K)%Z -> (1 <= M)%Z) -> ((1 <= M)%Z -> (1 <= N)%Z) ->
  returns (seeding_with E pp sp bp N M K) any.
Proof.
  intros HKM HMN. unfold seeding_with.
  next returns_print. intros _ _.
  next pp_returns. intros party_ids Lp.
  next sp_returns. intros spatial_ids Ls.
  next bp_returns. intros baunit_ids Lb. cbv beta in Lp, Ls, Lb.
  assert ((1 <= M)%Z -> baunit_ids <> [] /\ party_ids <> []) as Hne.
  { intros HM. pose proof (HMN HM) as HN.
    split; intros ->; simpl in *; lia. }
  unfold later_phases, through_payments.
  eapply returns_bind.
  - next returns_tax_rate_phase. intros rates Hrates.
    next returns_assessment_phase; [exact Hrates|]. intros _ _.
    next returns_supplemental_phase; [exact Hrates|]. intros _ _.
    next returns_rrr_phase.
    { intros Hb. apply Hne.
      destruct baunit_ids; [congruence|simpl in Lb; lia]. }
    intros _ _.
    next returns_bill_phase; [intros HK; apply Hne; auto|].
    intros bills Hbills.
    next returns_payment_phase; [exact Hbills|]. intros _ _.
    apply returns_ret. exact Hbills.
  - intros bills Hbills.
    next returns_mark_paid; [exact Hbills|]. intros _ _.
    next (returns_commit E HE). intros _ _. apply returns_print.
Qed.

End ReturnsLater.

Lemma obliging_env_obliging : obliging obliging_env.
Proof.
  split; [reflexivity|]. split; [reflexivity|]. split.
  - intros n q ps. eexists. split; [reflexivity|]. intros _.
    do 2 eexists. split; [reflexivity|apply repeat_length].
  - intros n a b. eexists. split; [reflexivity|]. unfold date_max.
    pose proof (Nat.mod_upper_bound n 365). lia.
Qed.

Lemma sample_streets n : first_word (fake_text obliging_env n) <> None.
Proof. simpl. destruct (Nat.even n); discriminate. Qed.



(** ** Negative counts *)

Lemma range_negative n : range n = range (Z.max 0 n).
Proof. unfold range. f_equal. lia. Qed.

(** X17.  [range(n)] is empty for a negative [n], so a negative count is a
    count of zero: [seed_data] of either script does with counts N, M, K,
    whatever their signs, what it does with max(0, N), max(0, M),
    max(0, K); it raises no error of its own for a negative argument. *)
Theorem negative_counts (sc : script) (E : env) (N M K : Z) :
  run sc E N M K = run sc E (Z.max 0 N) (Z.max 0 M) (Z.max 0 K).
Proof.
  destruct sc; unfold run;
    [ unfold Seeder.seed_data, Seeder.seeding, Seeder.party_phase,
        Seeder.spatial_phase
    | unfold SeederRC.seed_data, SeederRC.seeding, SeederRC.party_phase,
        SeederRC.spatial_phase ];
    unfold later_phases, through_payments, bill_phase;
    rewrite (range_negative N), (range_negative M), (range_negative K);
    reflexivity.
Qed.

(** ** The texts of the statements *)

Ltac known :=
  repeat emits_go;
  first
    [ exact I
    | match goal with
      | H : is_point _ |- _ => destruct H as (? & ? & ->)
      end; left; do 2 eexists; reflexivity
    | right; left; reflexivity
    | right; right; simpl; tauto ].

Section KnownTexts.

Variable E : env.

Lemma known_seeder_party_phase N :
  emits (known_text SeederPy) (Seeder.party_phase E N) any.
Proof. unfold Seeder.party_phase. known. Qed.

Lemma known_seeder_spatial_phase M :
  emits (known_text SeederPy) (Seeder.spatial_phase E M) any.
Proof. unfold Seeder.spatial_phase. known. Qed.

Lemma known_seeder_baunit_phase ids :
  emits (known_text SeederPy) (Seeder.baunit_phase E ids) any.
Proof. unfold Seeder.baunit_phase. known. Qed.

Lemma known_rc_party_phase N :
  emits (known_text SeederRcPy) (SeederRC.party_phase E N) any.
Proof. unfold SeederRC.party_phase. known. Qed.

Lemma known_rc_spatial_phase M :
  emits (known_text SeederRcPy) (SeederRC.spatial_phase E M) any.
Proof. unfold SeederRC.spatial_phase. known. Qed.

Lemma known_rc_baunit_phase ids :
  emits (known_text SeederRcPy) (SeederRC.baunit_phase E ids) any.
Proof. unfold SeederRC.baunit_phase. known. Qed.

Lemma known_tax_rate_phase sc ids :
  emits (known_text sc) (tax_rate_phase E ids) any.
Proof.
  unfold tax_rate_phase, insert_tax_rate_areas, insert_tax_rates, assign_tra.
  known.
Qed.

Lemma known_assessment_phase sc ids rates :
  emits (known_text sc) (assessment_phase E ids rates) any.
Proof. unfold assessment_phase. known. Qed.

Lemma known_supplemental_phase sc ids rates :
  emits (known_text sc) (supplemental_phase E ids rates) any.
Proof. unfold supplemental_phase. known. Qed.

Lemma known_rrr_phase sc ids parties :
  emits (known_text sc) (rrr_phase E ids parties) any.
Proof. unfold rrr_phase. known. Qed.

Lemma known_bill_phase sc ids parties K :
  emits (known_text sc) (bill_phase E ids parties K) any.
Proof. unfold bill_phase. known. Qed.

Lemma known_payment_phase sc bills :
  emits (known_text sc) (payment_phase E bills) any.
Proof. unfold payment_phase. known. Qed.

Lemma known_mark_paid sc bills :
  emits (known_text sc) (mark_paid E bills) any.
Proof. unfold mark_paid. known. Qed.

End KnownTexts.

Lemma run_known_texts sc E N M K :
  Forall (known_text sc) (trace (final (run sc E N M K))).
Proof.
  apply run_trace_emits; try exact I.
  destruct sc; simpl try_block.
  - apply (emits_seeding_with (known_text SeederPy) E (Seeder.party_phase E)
             (Seeder.spatial_phase E) (Seeder.baunit_phase E));
      intros; first
        [ exact I
        | apply known_seeder_party_phase | apply known_seeder_spatial_phase
        | apply known_seeder_baunit_phase
        | apply known_tax_rate_phase | apply known_assessment_phase
        | apply known_supplemental_phase | apply known_rrr_phase
        | apply known_bill_phase | apply known_payment_phase
        | apply known_mark_paid ].
  - apply (emits_seeding_with (known_text SeederRcPy) E
             (SeederRC.party_phase E) (SeederRC.spatial_phase E)
             (SeederRC.baunit_phase E));
      intros; first
        [ exact I
        | apply known_rc_party_phase | apply known_rc_spatial_phase
        | apply known_rc_baunit_phase
        | apply known_tax_rate_phase | apply known_assessment_phase
        | apply known_supplemental_phase | apply known_rrr_phase
        | apply known_bill_phase | apply known_payment_phase
        | apply known_mark_paid ].
Qed.

(** X18.  Every statement of every run of either script, returning or not, has
    one of twelve texts: the insert into LA_SpatialUnit with a point
    spliced in, the insert into LA_BAUnit of its script, or one of ten
    constant texts that the two scripts share.  The two scripts differ in
    the insert into LA_BAUnit only, whose fourth column is tra_id in
    [seeder.py] and description in [seeder_rc.py]. *)
Theorem statement_texts (sc : script) (E : env) (N M K : Z) :
  Forall (known_text sc) (trace (final (run sc E N M K)))
  /\ baunit_sql_of SeederPy <> baunit_sql_of SeederRcPy
  /\ ~ In (baunit_sql_of SeederPy) common_texts
  /\ ~ In (baunit_sql_of SeederRcPy) common_texts.
Proof.
  split; [apply run_known_texts|]. split; [discriminate|].
  split; simpl; intros H;
    repeat match goal with
           | H : _ \/ _ |- _ => destruct H as [H|H]; try discriminate H
           end; exact H.
Qed.
(** ** Stopping at the first rejected statement *)

Lemma executes_app a b : executes (a ++ b) = executes a + executes b.
Proof. unfold executes. rewrite filter_app, length_app. reflexivity. Qed.

Lemma fail_fast_ret E {A} (a : A) : fail_fast E (ret a).
Proof. intros s H. exact H. Qed.

Lemma fail_fast_raise E {A} (e : exn) : fail_fast E (@raise A e).
Proof. intros s H. left. exact H. Qed.

Lemma fail_fast_bind E {A B} (m : M A) (k : A -> M B) :
  fail_fast E m -> (forall a, fail_fast E (k a)) -> fail_fast E (bind m k).
Proof.
  intros Hm Hk s Hs. unfold bind. specialize (Hm s Hs).
  destruct (m s) as [a s1|e s1]; [apply Hk; exact Hm|exact Hm].
Qed.

Lemma fail_fast_for_in E {A B} (l : list A) (body : A -> M B) :
  (forall x, fail_fast E (body x)) -> fail_fast E (for_in l body).
Proof.
  intros Hb. induction l as [|x xs IH]; simpl; [apply fail_fast_ret|].
  apply fail_fast_bind; [apply Hb|]. intros r.
  apply fail_fast_bind; [exact IH|]. intros rs. apply fail_fast_ret.
Qed.

Lemma fail_fast_no_call E {A} (m : M A) : no_call m -> fail_fast E m.
Proof.
  intros Hm s Hs. destruct (Hm s) as [Hd Ht]. unfold settled in *.
  destruct (m s) as [a s'|e s']; simpl in *; [|left]; congruence.
Qed.

Lemma fail_fast_execute E q ps : fail_fast E (execute E q ps).
Proof.
  intros s Hs. unfold settled in Hs. unfold execute.
  destruct (db_execute E (db_ix s) q ps) as [e|rows] eqn:Hq.
  - right. split; simpl; [congruence|]. exists q, ps. rewrite <- Hs. exact Hq.
  - unfold settled. simpl. rewrite executes_app. simpl.
    unfold executes at 2. simpl. lia.
Qed.

Section NoCall.

Variable E : env.

Lemma no_call_print line : no_call (print line).
Proof.
  intros s. split; [reflexivity|]. simpl. rewrite executes_app.
  unfold executes at 2. simpl. lia.
Qed.

Lemma no_call_randbelow n : no_call (randbelow E n).
Proof. intros s. unfold randbelow. destruct n; split; reflexivity. Qed.

Lemma no_call_random_random : no_call (random_random E).
Proof. intros s. split; reflexivity. Qed.

Lemma no_call_fake_string : no_call (fake_string E).
Proof. intros s. split; reflexivity. Qed.

Lemma no_call_fake_date_between a b : no_call (fake_date_between E a b).
Proof.
  intros s. unfold fake_date_between.
  destruct (fake_date E (fk_ix s) a b); split; reflexivity.
Qed.

Lemma no_call_date_add_days d n : no_call (date_add_days d n).
Proof.
  intros s. unfold date_add_days.
  destruct ((1 <=? d + n) && (d + n <=? date_max))%Z; split; reflexivity.
Qed.

Lemma no_call_fetchone : no_call fetchone.
Proof. intros s. unfold fetchone. destruct (cur_rows s); split; reflexivity. Qed.

Lemma no_call_index0 v : no_call (index0 v).
Proof.
  intros s. destruct v as [| | | | | |[|x xs]]; split; reflexivity.
Qed.

Lemma no_call_unpack2 v : no_call (unpack2 v).
Proof.
  intros s. destruct v as [| | | | | |[|a [|b [|c r]]]]; split; reflexivity.
Qed.

Lemma no_call_commit : no_call (commit E).
Proof.
  intros s. unfold commit. destruct (db_commit E); split; try reflexivity.
  simpl. rewrite executes_app. unfold executes at 2. simpl. lia.
Qed.

Lemma fail_fast_sample_from {A} k : forall pool : list A,
  fail_fast E (sample_from E pool k).
Proof.
  induction k as [|k IH]; intros pool; simpl; [apply fail_fast_ret|].
  apply fail_fast_bind; [apply fail_fast_no_call, no_call_randbelow|].
  intros j. destruct (nth_error pool j); [|apply fail_fast_raise].
  apply fail_fast_bind; [apply IH|]. intros rest. apply fail_fast_ret.
Qed.

End NoCall.

(** Follow a computation down to the library calls. *)
Ltac fail_fast_step :=
  lazymatch goal with
  | |- fail_fast _ (bind _ _) => apply fail_fast_bind; [|intros ?]
  | |- fail_fast _ (ret _) => apply fail_fast_ret
  | |- fail_fast _ (raise _) => apply fail_fast_raise
  | |- fail_fast _ (for_in _ _) => apply fail_fast_for_in; intros ?
  | |- fail_fast _ (execute _ _ _) => apply fail_fast_execute
  | |- fail_fast _ (print _) => apply fail_fast_no_call, no_call_print
  | |- fail_fast _ (randbelow _ _) =>
      apply fail_fast_no_call, no_call_randbelow
  | |- fail_fast _ (random_random _) =>
      apply fail_fast_no_call, no_call_random_random
  | |- fail_fast _ (fake_string _) =>
      apply fail_fast_no_call, no_call_fake_string
  | |- fail_fast _ (fake_name _) =>
      apply fail_fast_no_call, no_call_fake_string
  | |- fail_fast _ (fake_address _) =>
      apply fail_fast_no_call, no_call_fake_string
  | |- fail_fast _ (fake_street_name _) =>
      apply fail_fast_no_call, no_call_fake_string
  | |- fail_fast _ (fake_date_between _ _ _) =>
      apply fail_fast_no_call, no_call_fake_date_between
  | |- fail_fast _ (date_add_days _ _) =>
      apply fail_fast_no_call, no_call_date_add_days
  | |- fail_fast _ fetchone => apply fail_fast_no_call, no_call_fetchone
  | |- fail_fast _ (index0 _) => apply fail_fast_no_call, no_call_index0
  | |- fail_fast _ (unpack2 _) => apply fail_fast_no_call, no_call_unpack2
  | |- fail_fast _ (commit _) => apply fail_fast_no_call, no_call_commit
  | |- fail_fast _ (sample_from _ _ _) => apply fail_fast_sample_from
  | |- fail_fast _ (random_uniform _ _ _) => unfold random_uniform
  | |- fail_fast _ (random_choice _ _) => unfold random_choice
  | |- fail_fast _ (random_choices _ _ _) => unfold random_choices
  | |- fail_fast _ (random_string _ _ _) => unfold random_string
  | |- fail_fast _ (random_randint _ _ _) => unfold random_randint
  | |- fail_fast _ (random_sample _ _ _) => unfold random_sample
  | |- fail_fast _ (Seeder.random_point_in_bbox _ _ _ _ _) =>
      unfold Seeder.random_point_in_bbox
  | |- fail_fast _ (SeederRC.random_point_in_riverside _) =>
      unfold SeederRC.random_point_in_riverside
  | |- fail_fast _ (SeederRC.generate_riverside_address _) =>
      unfold SeederRC.generate_riverside_address
  | |- fail_fast _ (SeederRC.generate_riverside_party _ _) =>
      unfold SeederRC.generate_riverside_party
  | |- fail_fast _ (if ?b then _ else _) => destruct b
  | |- fail_fast _ (match ?x with _ => _ end) => destruct x
  end.

Ltac fail_fast_go := repeat fail_fast_step.

Section FailFast.

Variable E : env.

Lemma fail_fast_seeder_party_phase N : fail_fast E (Seeder.party_phase E N).
Proof. unfold Seeder.party_phase. fail_fast_go. Qed.

Lemma fail_fast_seeder_spatial_phase M :
  fail_fast E (Seeder.spatial_phase E M).
Proof. unfold Seeder.spatial_phase. fail_fast_go. Qed.

Lemma fail_fast_seeder_baunit_phase ids :
  fail_fast E (Seeder.baunit_phase E ids).
Proof. unfold Seeder.baunit_phase. fail_fast_go. Qed.

Lemma fail_fast_rc_party_phase N : fail_fast E (SeederRC.party_phase E N).
Proof. unfold SeederRC.party_phase. fail_fast_go. Qed.

Lemma fail_fast_rc_spatial_phase M :
  fail_fast E (SeederRC.spatial_phase E M).
Proof. unfold SeederRC.spatial_phase. fail_fast_go. Qed.

Lemma fail_fast_rc_baunit_phase ids :
  fail_fast E (SeederRC.baunit_phase E ids).
Proof. unfold SeederRC.baunit_phase. fail_fast_go. Qed.

Lemma fail_fast_later_phases party_ids baunit_ids K :
  fail_fast E (later_phases E party_ids baunit_ids K).
Proof.
  unfold later_phases, through_payments, tax_rate_phase,
    insert_tax_rate_areas, insert_tax_rates, assign_tra, assessment_phase,
    supplemental_phase, rrr_phase, bill_phase, payment_phase, mark_paid.
  fail_fast_go.
Qed.

Lemma fail_fast_try_block sc N M K : fail_fast E (try_block sc E N M K).
Proof.
  destruct sc; simpl try_block;
    [unfold Seeder.seeding|unfold SeederRC.seeding];
    (apply fail_fast_bind; [apply fail_fast_no_call, no_call_print|]);
    intros _.
  - apply fail_fast_bind; [apply fail_fast_seeder_party_phase|]. intros ps.
    apply fail_fast_bind; [apply fail_fast_seeder_spatial_phase|]. intros ss.
    apply fail_fast_bind; [apply fail_fast_seeder_baunit_phase|]. intros bs.
    apply fail_fast_later_phases.
  - apply fail_fast_bind; [apply fail_fast_rc_party_phase|]. intros ps.
    apply fail_fast_bind; [apply fail_fast_rc_spatial_phase|]. intros ss.
    apply fail_fast_bind; [apply fail_fast_rc_baunit_phase|]. intros bs.
    apply fail_fast_later_phases.
Qed.

End FailFast.

Lemma settled_connected : settled connected.
Proof. reflexivity. Qed.

(** The handler and the [finally] clause make no call. *)
Lemma closing_calls E block :
  db_ix (final (closing E block)) = db_ix (final block)
  /\ executes (trace (final (closing E block)))
     = executes (trace (final block)).
Proof.
  unfold closing. destruct block as [a s1|e s1]; [|destruct (db_rollback E)];
    simpl; (split; [reflexivity|]); rewrite !executes_app;
    unfold executes; simpl; lia.
Qed.

(** X19.  Every run of either script, returning or not, stops at the first
    statement that the database rejects.  [db_ix] counts the calls of
    [cur.execute] that the run made and the trace holds the statements
    that were accepted: either every call was accepted, or exactly one
    was rejected, and it is the last call of the run; then the [try]
    block raises the error of that call, and [seed_data] does not
    return. *)
Theorem stops_at_first_rejection (sc : script) (E : env) (N M K : Z) :
  let r := run sc E N M K in
  let n := executes (trace (final r)) in
  db_ix (final r) = n
  \/ (db_ix (final r) = S n
      /\ ~ succeeded r
      /\ exists q ps e s1,
           db_execute E n q ps = inl e
           /\ try_block sc E N M K connected = Raise e s1).
Proof.
  intros r n. unfold n, r. clear r n.
  destruct (db_connect E) as [e0|] eqn:Hc.
  - left. rewrite (run_no_connection _ _ _ _ _ _ Hc). reflexivity.
  - rewrite (run_of_block _ _ _ _ _ Hc).
    destruct (closing_calls E (try_block sc E N M K connected)) as [Hd Hx].
    rewrite Hd, Hx.
    pose proof (fail_fast_try_block E sc N M K connected settled_connected)
      as Hb.
    destruct (try_block sc E N M K connected) as [u s1|e s1] eqn:Hblock;
      simpl in *.
    + left. exact Hb.
    + destruct Hb as [Hb|[Hb (q & ps & Hq)]]; [left; exact Hb|].
      right. split; [exact Hb|]. split.
      * unfold closing. destruct (db_rollback E); intros [].
      * exists q, ps, e, s1. split; [exact Hq|reflexivity].
Qed.
